(** * Fore_Ai: signal parser, ladder planner, TP ladder store, trailing stops

    A shallow embedding of [signal_parser.py] and of the trading core of
    [fore_ai_bot.py], with the properties of the specification stated
    over it.

    Modelling conventions.
    - A Python [float] is an exact rational ([Q]).  Decimal literals are
      read exactly, [round(x, n)] rounds half to even on the decimal
      value, and the constants [1e-9] and [1e-7] are kept as they are.
      Binary rounding error of IEEE doubles is outside the model.
    - A Python [str] is a [string] of 8-bit characters; the character
      classes of [re] and [str] are the ASCII ones.
    - The MetaTrader terminal is a read-only snapshot ([Terminal]); the
      calls that change it ([symbol_select], [order_send]) are returned
      as a log, in the order in which the code issues them.
    - Module globals ([TP_LADDERS], [last_signal], the ladder file, the
      configuration) are passed explicitly.
    - The arithmetic of the lot adjustment is given a second time on
      IEEE binary64 values ([Binary64]), to show where it parts from
      exact arithmetic. *)

From Stdlib Require Import ZArith QArith Qround Lia Lqa List Sorted Permutation String
  Ascii Bool.
From Stdlib Require Qcanon SpecFloat.
Import ListNotations.

Local Open Scope Q_scope.

(* ------------------------------------------------------------------ *)
(** ** Python strings *)

Module PyStr.

(** [str.isspace] on one ASCII character: TAB..CR, FS..US and space. *)
Definition is_space (c : ascii) : bool :=
  let n := N_of_ascii c in
  ((9 <=? n) && (n <=? 13) || (28 <=? n) && (n <=? 32))%N.

Definition is_digit (c : ascii) : bool :=
  let n := N_of_ascii c in ((48 <=? n) && (n <=? 57))%N.

Definition is_upper (c : ascii) : bool :=
  let n := N_of_ascii c in ((65 <=? n) && (n <=? 90))%N.

Definition is_lower (c : ascii) : bool :=
  let n := N_of_ascii c in ((97 <=? n) && (n <=? 122))%N.

(** [\w] of [re] restricted to ASCII. *)
Definition is_word (c : ascii) : bool :=
  is_digit c || is_upper c || is_lower c || Ascii.eqb c "_".

Definition lower_char (c : ascii) : ascii :=
  if is_upper c then ascii_of_N (N_of_ascii c + 32) else c.

Definition upper_char (c : ascii) : ascii :=
  if is_lower c then ascii_of_N (N_of_ascii c - 32) else c.

Fixpoint map_string (f : ascii -> ascii) (s : string) : string :=
  match s with
  | EmptyString => EmptyString
  | String c s' => String (f c) (map_string f s')
  end.

Definition upper : string -> string := map_string upper_char.
Definition lower : string -> string := map_string lower_char.

Fixpoint lstrip (s : string) : string :=
  match s with
  | String c s' => if is_space c then lstrip s' else s
  | EmptyString => EmptyString
  end.

Fixpoint rstrip (s : string) : string :=
  match s with
  | EmptyString => EmptyString
  | String c s' =>
      match rstrip s' with
      | EmptyString => if is_space c then EmptyString else String c EmptyString
      | r => String c r
      end
  end.

(** [s.strip()] *)
Definition strip (s : string) : string := rstrip (lstrip s).

(** [s.startswith(p)] *)
Definition startswith (s p : string) : bool := String.prefix p s.

(** [s.split()]: the maximal runs of non-space characters. *)
Fixpoint split_ws_aux (cur : string) (s : string) : list string :=
  match s with
  | EmptyString => match cur with EmptyString => [] | _ => [cur] end
  | String c s' =>
      if is_space c
      then match cur with
           | EmptyString => split_ws_aux EmptyString s'
           | _ => cur :: split_ws_aux EmptyString s'
           end
      else split_ws_aux (cur ++ String c EmptyString) s'
  end.

Definition split_ws (s : string) : list string := split_ws_aux EmptyString s.

(** [s.split(sep, 1)] for a one-character separator: the text before
    the first separator and the text after it, or [s] alone. *)
Fixpoint split_once (sep : ascii) (s : string) : list string :=
  match s with
  | EmptyString => [EmptyString]
  | String c s' =>
      if Ascii.eqb c sep then [EmptyString; s']
      else match split_once sep s' with
           | a :: rest => String c a :: rest
           | [] => []
           end
  end.

End PyStr.

(* ------------------------------------------------------------------ *)
(** ** Python numbers *)

Module PyNum.

Definition digit_val (c : ascii) : Z := Z.of_N (N_of_ascii c) - 48.

(** Value of a run of decimal digits, most significant first. *)
Fixpoint digits_val (acc : Z) (s : string) : option Z :=
  match s with
  | EmptyString => Some acc
  | String c s' =>
      if PyStr.is_digit c then digits_val (10 * acc + digit_val c) s' else None
  end.

(** [int(s)] on an unsigned decimal numeral. *)
Definition py_int (s : string) : option Z :=
  match s with
  | EmptyString => None
  | _ => digits_val 0 s
  end.

(** [10 ** n] as a float. *)
Definition scale (n : nat) : Q := inject_Z (10 ^ Z.of_nat n).

Fixpoint split_dot (s : string) : string * option string :=
  match s with
  | EmptyString => (EmptyString, None)
  | String c s' =>
      if Ascii.eqb c "." then (EmptyString, Some s')
      else let '(a, b) := split_dot s' in (String c a, b)
  end.

(** [float(s)] on the numerals the patterns of the program can capture:
    digits, optionally a point and more digits (the integer part may be
    empty when a fraction follows).  [None] stands for [ValueError]. *)
Definition py_float (s : string) : option Q :=
  match split_dot s with
  | (ip, None) =>
      match py_int ip with
      | Some n => Some (inject_Z n)
      | None => None
      end
  | (ip, Some fp) =>
      match digits_val 0 ip, py_int fp with
      | Some n, Some f =>
          Some (Qred (inject_Z n + inject_Z f / scale (String.length fp)))
      | _, _ => None
      end
  end.

(** Nearest integer, ties to the even one. *)
Definition round_half_even (x : Q) : Z :=
  let f := Qfloor x in
  match Qcompare (x - inject_Z f) (1 # 2) with
  | Lt => f
  | Gt => (f + 1)%Z
  | Eq => if Z.even f then f else (f + 1)%Z
  end.

(** [round(x, n)] for [n >= 0]. *)
Definition py_round (x : Q) (n : nat) : Q :=
  Qred (inject_Z (round_half_even (x * scale n)) / scale n).

(** [int(x)] on a float: truncation toward zero. *)
Definition py_trunc (x : Q) : Z :=
  if Qle_bool 0 x then Qfloor x else Qceiling x.

(** [x or d] on a float: [d] when [x] is zero. *)
Definition or_default (x d : Q) : Q := if Qeq_bool x 0 then d else x.

(** Stable insertion sort: [sorted(l, key=...)] with the order [le] on
    the keys. *)
Fixpoint insert_by {A : Type} (le : A -> A -> bool) (x : A) (l : list A) : list A :=
  match l with
  | [] => [x]
  | y :: l' => if le y x then y :: insert_by le x l' else x :: l
  end.

Definition sorted_by {A : Type} (le : A -> A -> bool) (l : list A) : list A :=
  fold_right (insert_by le) [] (rev l).

(** [sorted(l)] on floats. *)
Definition py_sorted (l : list Q) : list Q := sorted_by Qle_bool l.

Definition mem (x : Q) (l : list Q) : bool := existsb (Qeq_bool x) l.

Fixpoint dedup (seen : list Q) (l : list Q) : list Q :=
  match l with
  | [] => []
  | x :: l' => if mem x seen then dedup seen l' else x :: dedup (x :: seen) l'
  end.

(** The elements of [set(l)]: one per numeric value.  (The iteration
    order of a Python set is unspecified; the program only ever sorts
    it.) *)
Definition py_set (l : list Q) : list Q := dedup [] l.

(** [sorted(set(l))] *)
Definition sorted_set (l : list Q) : list Q := py_sorted (py_set l).

End PyNum.

(* ------------------------------------------------------------------ *)
(** ** IEEE binary64 *)

Module Binary64.
Import SpecFloat.
Local Open Scope Z_scope.

(** A Python float as it is stored: sign, mantissa and exponent. *)
Definition double : Type := spec_float.
Definition prec : Z := 53.
Definition emax : Z := 1024.

(** [float(z)] on an integer. *)
Definition of_int (z : Z) : double := binary_normalize prec emax z 0 false.

Definition div : double -> double -> double := SFdiv prec emax.
Definition mul : double -> double -> double := SFmul prec emax.
Definition ltb : double -> double -> bool := SFltb.

(** [float(s)] on the decimal numeral of [n / 10 ** k], for [n] and
    [10 ** k] below [2 ** 53]: the double nearest to the quotient. *)
Definition of_decimal (n : Z) (k : nat) : double :=
  div (of_int n) (of_int (10 ^ Z.of_nat k)).

(** [int(x)]: truncation toward zero. *)
Definition to_int (x : double) : Z :=
  match x with
  | S754_finite s m e =>
      let v := match e with
               | Zneg p => Z.shiftr (Zpos m) (Zpos p)
               | _ => Z.shiftl (Zpos m) e
               end in
      if s then - v else v
  | _ => 0
  end.

(** The integer [n] for which the text of [x] with two decimals is the
    numeral of [n / 100]: the exact value times 100, rounded to the
    nearest integer, ties to even. *)
Definition hundredths_of (x : double) : Z :=
  match x with
  | S754_finite s m e =>
      let num := Zpos m * 100 in
      let v := match e with
               | Zneg p =>
                   let d := Z.shiftl 1 (Zpos p) in
                   let q := num / d in
                   let r := num mod d in
                   match 2 * r ?= d with
                   | Lt => q
                   | Gt => q + 1
                   | Eq => if Z.even q then q else q + 1
                   end
               | _ => Z.shiftl num e
               end in
      if s then - v else v
  | _ => 0
  end.

(** The arithmetic of [adjust_lot_for_symbol] once step, minimum and
    maximum are read from the instrument. *)
Definition adjust_lot (step min_vol max_vol lot : double) : double :=
  let steps := to_int (div lot step) in
  let adj := mul (of_int steps) step in
  let adj := if ltb adj min_vol then min_vol else adj in
  let adj := if ltb max_vol adj then max_vol else adj in
  of_decimal (hundredths_of adj) 2.

(** The lot adjustment of an instrument with step 0.01, minimum 0.01
    and maximum 100. *)
Definition snap_hundredths : double -> double :=
  adjust_lot (of_decimal 1 2) (of_decimal 1 2) (of_int 100).

End Binary64.

(* ------------------------------------------------------------------ *)
(** ** The fragment of Python's [re] the program uses *)

Module Re.

(** Patterns.  Quantifiers are greedy and alternatives are tried from
    left to right, with backtracking, as [re] does. *)
Inductive regex : Type :=
| Eps                              (* the empty pattern *)
| Chr (p : ascii -> bool)          (* one character of a class *)
| Seq (r1 r2 : regex)
| Alt (r1 r2 : regex)              (* r1|r2 *)
| Star (r : regex)                 (* r* *)
| Group (n : nat) (r : regex)      (* capturing group number n *)
| WordB.                           (* \b *)

Definition Opt (r : regex) : regex := Alt r Eps.        (* r? *)
Definition Plus (r : regex) : regex := Seq r (Star r).  (* r+ *)

Definition seq (rs : list regex) : regex := fold_right Seq Eps rs.

(** A literal character and a literal word under [re.I]. *)
Definition ichr (c : ascii) : regex :=
  Chr (fun x => Ascii.eqb (PyStr.lower_char x) (PyStr.lower_char c)).

Fixpoint ilit (s : string) : regex :=
  match s with
  | EmptyString => Eps
  | String c s' => Seq (ichr c) (ilit s')
  end.

Definition chr (c : ascii) : regex := Chr (Ascii.eqb c).

(** [[...]] over an explicit set of characters. *)
Definition one_of (cs : string) : regex :=
  Chr (fun x => existsb (Ascii.eqb x) (list_ascii_of_string cs)).

Definition digit : regex := Chr PyStr.is_digit.            (* \d, [0-9] *)
Definition space : regex := Chr PyStr.is_space.            (* \s *)

(** Captured groups, most recent first. *)
Definition groups : Type := list (nat * string).

Fixpoint group (g : groups) (n : nat) : option string :=
  match g with
  | [] => None
  | (m, s) :: g' => if Nat.eqb m n then Some s else group g' n
  end.

(** The text consumed between the suffix [s] and its suffix [s']. *)
Definition consumed (s s' : string) : string :=
  substring 0 (String.length s - String.length s') s.

Definition at_word (c : option ascii) : bool :=
  match c with Some x => PyStr.is_word x | None => false end.

Definition head (s : string) : option ascii :=
  match s with String c _ => Some c | EmptyString => None end.

(** Backtracking matcher in continuation-passing style.  [p] is the
    character before the current position (for [\b]), [s] the rest of
    the text, [g] the groups captured so far; [k] receives the state
    after the pattern and decides whether the whole match succeeds. *)
Fixpoint rmatch {A : Type} (r : regex) (p : option ascii) (s : string) (g : groups)
    (k : option ascii -> string -> groups -> option A) : option A :=
  match r with
  | Eps => k p s g
  | Chr f =>
      match s with
      | String c s' => if f c then k (Some c) s' g else None
      | EmptyString => None
      end
  | Seq r1 r2 => rmatch r1 p s g (fun p' s' g' => rmatch r2 p' s' g' k)
  | Alt r1 r2 =>
      match rmatch r1 p s g k with
      | Some a => Some a
      | None => rmatch r2 p s g k
      end
  | Star r' =>
      (fix star (fuel : nat) (p : option ascii) (s : string) (g : groups) : option A :=
         match fuel with
         | O => k p s g
         | S fuel' =>
             match rmatch r' p s g
                     (fun p' s' g' =>
                        if (String.length s' <? String.length s)%nat
                        then star fuel' p' s' g' else None) with
             | Some a => Some a
             | None => k p s g
             end
         end) (String.length s) p s g
  | Group n r' =>
      rmatch r' p s g (fun p' s' g' => k p' s' ((n, consumed s s') :: g'))
  | WordB =>
      if xorb (at_word p) (at_word (head s)) then k p s g else None
  end.

(** A match starting exactly at the current position: the rest of the
    text after it, the character before that rest, and the groups. *)
Definition match_here (r : regex) (p : option ascii) (s : string)
  : option (option ascii * string * groups) :=
  rmatch r p s [] (fun p' s' g' => Some (p', s', g')).

Fixpoint search_from (r : regex) (p : option ascii) (s : string) : option groups :=
  match match_here r p s with
  | Some (_, _, g) => Some g
  | None =>
      match s with
      | String c s' => search_from r (Some c) s'
      | EmptyString => None
      end
  end.

(** [pattern.search(text)]: the groups of the leftmost match. *)
Definition search (r : regex) (text : string) : option groups :=
  search_from r None text.

Fixpoint findall_from (fuel : nat) (r : regex) (p : option ascii) (s : string)
  : list groups :=
  match fuel with
  | O => []
  | S fuel' =>
      match match_here r p s with
      | Some (p', s', g) =>
          if (String.length s' <? String.length s)%nat
          then g :: findall_from fuel' r p' s'
          else match s with
               | String c s'' => g :: findall_from fuel' r (Some c) s''
               | EmptyString => [g]
               end
      | None =>
          match s with
          | String c s' => findall_from fuel' r (Some c) s'
          | EmptyString => []
          end
      end
  end.

(** [pattern.findall(text)]: the groups of the successive
    non-overlapping matches, left to right. *)
Definition findall (r : regex) (text : string) : list groups :=
  findall_from (S (String.length text)) r None text.

End Re.

(* ------------------------------------------------------------------ *)
(** ** signal_parser.py *)

Module SignalParser.
Import Re.

Record ParsedSignal : Type := {
  symbol : string;
  direction : string;                  (* "BUY" or "SELL" *)
  lot_size : Q;                        (* 0 if not provided in signal *)
  zone_low : Q;
  zone_high : Q;
  stop_loss : Q;
  take_profits : list (option Q);      (* numeric TPs; None for 'open' *)
  original_text : string
}.

Definition zone_mid (sig : ParsedSignal) : Q :=
  (zone_low sig + zone_high sig) / 2.

(** r"\d+(?:\.\d+)?" *)
Definition number : regex := Seq (Plus digit) (Opt (Seq (chr ".") (Plus digit))).

(** r"[0-9]*\.?[0-9]+" *)
Definition lot_number : regex := seq [Star digit; Opt (chr "."); Plus digit].

(** r"[:\-]?" *)
Definition colon_dash : regex := Opt (one_of ":-").

(** r"lot\s*size\s*[:\-]?\s*([0-9]*\.?[0-9]+)", re.I *)
Definition _re_lot : regex :=
  seq [ilit "lot"; Star space; ilit "size"; Star space; colon_dash; Star space;
       Group 1 lot_number].

(** r"[A-Z0-9]" under re.I *)
Definition alnum : regex :=
  Chr (fun c => PyStr.is_upper c || PyStr.is_lower c || PyStr.is_digit c).

(** r"([A-Z0-9]+)\s+LOOKING\s+(BUY|SELL)\s+THIS\s+ZONE", re.I *)
Definition _re_pair_dir : regex :=
  seq [Group 1 (Plus alnum); Plus space; ilit "LOOKING"; Plus space;
       Group 2 (Alt (ilit "BUY") (ilit "SELL")); Plus space; ilit "THIS";
       Plus space; ilit "ZONE"].

(** r"(\d+(?:\.\d+)?)\s*/\s*(\d+(?:\.\d+)?)" *)
Definition _re_zone : regex :=
  seq [Group 1 number; Star space; chr "/"; Star space; Group 2 number].

(** r"SL\s*[:\-]?\s*(\d+(?:\.\d+)?)", re.I *)
Definition _re_sl : regex :=
  seq [ilit "SL"; Star space; colon_dash; Star space; Group 1 number].

(** r"TP\s*(IDX)\s*[:\-]?\s*([0-9]+(?:\.[0-9]+)?|open)", re.I, where
    IDX is a digit from 1 to 9 followed by [0-9]* *)
Definition _re_tp : regex :=
  seq [ilit "TP"; Star space;
       Group 1 (Seq (Chr (fun c => PyStr.is_digit c && negb (Ascii.eqb c "0")))
                    (Star digit));
       Star space; colon_dash; Star space;
       Group 2 (Alt number (ilit "open"))].

(** The text of group [n] of a match ([m.group(n)]); the groups used
    below take part in every match of their pattern. *)
Definition grp (g : groups) (n : nat) : string :=
  match group g n with Some s => s | None => EmptyString end.

(** One [(idx_str, val)] tuple of [findall] turned into an
    [(index, value)] pair; [None] as value stands for 'open'. *)
Definition tp_pair (g : groups) : option (Z * option Q) :=
  match PyNum.py_int (grp g 1) with
  | None => None
  | Some idx =>
      if String.eqb (PyStr.lower (PyStr.strip (grp g 2))) "open"
      then Some (idx, None)
      else match PyNum.py_float (grp g 2) with
           | Some v => Some (idx, Some v)
           | None => None
           end
  end.

Fixpoint tp_pairs_of (tps : list groups) : option (list (Z * option Q)) :=
  match tps with
  | [] => Some []
  | g :: rest =>
      match tp_pair g, tp_pairs_of rest with
      | Some p, Some ps => Some (p :: ps)
      | _, _ => None
      end
  end.

Definition py_min (a b : Q) : Q := if Qle_bool a b then a else b.
Definition py_max (a b : Q) : Q := if Qle_bool b a then a else b.

(** [parse_signal(text)].  A conversion that would raise (it cannot:
    every converted text was captured by a numeral pattern) is mapped
    to [None]. *)
Definition parse_signal (text : string) : option ParsedSignal :=
  match text with
  | EmptyString => None
  | _ =>
      let m_lot := search _re_lot text in
      let m_pair := search _re_pair_dir text in
      let m_zone := search _re_zone text in
      let m_sl := search _re_sl text in
      let tps := findall _re_tp text in
      match m_pair, m_zone, m_sl, tps with
      | Some gp, Some gz, Some gs, _ :: _ =>
          let lot :=
            match m_lot with
            | Some gl => PyNum.py_float (grp gl 1)
            | None => Some 0
            end in
          match lot, PyNum.py_float (grp gz 1), PyNum.py_float (grp gz 2),
                PyNum.py_float (grp gs 1), tp_pairs_of tps with
          | Some lot, Some z1, Some z2, Some sl, Some tp_pairs =>
              let tp_sorted :=
                PyNum.sorted_by (fun a b => Z.leb (fst a) (fst b)) tp_pairs in
              Some {| symbol := PyStr.upper (grp gp 1);
                      direction := PyStr.upper (grp gp 2);
                      lot_size := lot;
                      zone_low := py_min z1 z2;
                      zone_high := py_max z1 z2;
                      stop_loss := sl;
                      take_profits := map snd tp_sorted;
                      original_text := text |}
          | _, _, _, _, _ => None
          end
      | _, _, _, _ => None
      end
  end.

End SignalParser.

(* ------------------------------------------------------------------ *)
(** ** Python dictionaries and JSON values *)

Module Dict.

(** A [dict] keeps its keys in insertion order; assigning to a key
    that is present replaces the value in place. *)
Definition dict (K V : Type) : Type := list (K * V).

Section Ops.
Context {K V : Type} (eqb : K -> K -> bool).

Fixpoint get (k : K) (d : dict K V) : option V :=
  match d with
  | [] => None
  | (k', v) :: d' => if eqb k k' then Some v else get k d'
  end.

Fixpoint set (k : K) (v : V) (d : dict K V) : dict K V :=
  match d with
  | [] => [(k, v)]
  | (k', v') :: d' => if eqb k k' then (k', v) :: d' else (k', v') :: set k v d'
  end.

(** The representation invariant: no key occurs twice. *)
Definition wf (d : dict K V) : Prop := NoDup (map fst d).

(** [{k: v for k, v in items}] *)
Definition of_items (items : list (K * V)) : dict K V :=
  fold_left (fun d kv => set (fst kv) (snd kv) d) items [].
End Ops.

End Dict.

Module Json.

(** What [json.load] returns. *)
#[local] Set Warnings "-register-all".
Inductive json : Type :=
| JNull
| JBool (b : bool)
| JNum (q : Q)
| JStr (s : string)
| JArr (l : list json)
| JObj (l : list (string * json)).     (* members in file order *)

(** Truth value of a loaded document ([data or {}]). *)
Definition truthy (j : json) : bool :=
  match j with
  | JNull => false
  | JBool b => b
  | JNum q => negb (Qeq_bool q 0)
  | JStr s => negb (String.eqb s EmptyString)
  | JArr l => match l with [] => false | _ => true end
  | JObj l => match l with [] => false | _ => true end
  end.

End Json.

(* ------------------------------------------------------------------ *)
(** ** fore_ai_bot.py: configuration, terminal, requests *)

Module Bot.
Import SignalParser.

Definition BRAND_PREFIX : string := "ForeAi".

(** The configuration globals. *)
Record Config : Type := {
  SYMBOL_DEFAULT : string;
  SYMBOL_SUFFIX : string;
  LOT_FALLBACK : Q;
  SLIPPAGE : Z;
  MAGIC : Z;
  TELEGRAM_CHANNEL_ID : string;
  USER_FIXED_LOT : option Q;
  AUTO_PLACE : bool
}.

(** Constants of the MetaTrader5 package. *)
Definition ORDER_TYPE_BUY : Z := 0.
Definition ORDER_TYPE_SELL : Z := 1.
Definition ORDER_TYPE_BUY_LIMIT : Z := 2.
Definition ORDER_TYPE_SELL_LIMIT : Z := 3.
Definition POSITION_TYPE_BUY : Z := 0.

Record SymbolInfo : Type := {
  visible : bool;
  digits : nat;
  point : Q;
  volume_step : Q;
  volume_min : Q;
  volume_max : Q
}.

Record Tick : Type := { bid : Q; ask : Q }.

Record Order : Type := {
  o_ticket : Z;
  o_symbol : string;
  o_magic : Z;
  o_comment : string
}.

Record Position : Type := {
  p_ticket : Z;
  p_symbol : string;
  p_type : Z;
  p_magic : Z;
  p_volume : Q;
  p_price_open : Q;
  p_sl : Q;                 (* 0 when no stop is set *)
  p_tp : Q;
  p_profit : Q;
  p_comment : string
}.

(** The request dictionaries passed to [mt5.order_send], by action.
    The constant entries [type_time] and [type_filling] are left out. *)
Inductive Request : Type :=
| Pending (symbol : string) (volume : Q) (type : Z) (price sl tp : Q)
          (deviation magic : Z) (comment : string)     (* TRADE_ACTION_PENDING *)
| Remove (order : Z)                                   (* TRADE_ACTION_REMOVE *)
| Deal (symbol : string) (volume : Q) (type : Z) (position : Z) (price : Q)
       (deviation magic : Z) (comment : string)        (* TRADE_ACTION_DEAL *)
| Sltp (position : Z) (symbol : string) (sl tp : Q) (magic : Z).
                                                       (* TRADE_ACTION_SLTP *)

(** What the program reads from the terminal.  [order_send r] tells
    whether the terminal answers [r] with [TRADE_RETCODE_DONE]. *)
Record Terminal : Type := {
  symbol_info : string -> option SymbolInfo;
  symbol_info_tick : string -> option Tick;
  orders : list Order;
  positions : list Position;
  order_send : Request -> bool
}.

(** The calls that act on the terminal. *)
Inductive Call : Type :=
| SymbolSelect (s : string)
| OrderSend (r : Request).

Definition Qlt_bool (a b : Q) : bool := negb (Qle_bool b a).

Definition nonempty (s : string) : bool := negb (String.eqb s EmptyString).

(** [mt5.orders_get(symbol=symbol)] and [mt5.positions_get(symbol=symbol)] *)
Definition orders_get (mt : Terminal) (symbol : option string) : list Order :=
  match symbol with
  | None => orders mt
  | Some s => filter (fun o => String.eqb (o_symbol o) s) (orders mt)
  end.

Definition positions_get (mt : Terminal) (symbol : option string) : list Position :=
  match symbol with
  | None => positions mt
  | Some s => filter (fun p => String.eqb (p_symbol p) s) (positions mt)
  end.

(** The loop shared by the two resolvers: the first candidate the
    terminal knows, made visible if it is not. *)
Fixpoint first_known (mt : Terminal) (cand : list string) : option (string * list Call) :=
  match cand with
  | [] => None
  | s :: rest =>
      match symbol_info mt s with
      | Some info => Some (s, if visible info then [] else [SymbolSelect s])
      | None => first_known mt rest
      end
  end.

Definition resolve_candidates (cfg : Config) (sig_symbol : string) : list string :=
  [ (if nonempty (SYMBOL_SUFFIX cfg) then sig_symbol ++ SYMBOL_SUFFIX cfg
     else sig_symbol)%string;
    sig_symbol;
    SYMBOL_DEFAULT cfg ].

(** [resolve_symbol(sig_symbol)] *)
Definition resolve_symbol (cfg : Config) (mt : Terminal) (sig_symbol : string)
  : string * list Call :=
  match first_known mt (resolve_candidates cfg sig_symbol) with
  | Some r => r
  | None => (SYMBOL_DEFAULT cfg, [])
  end.

Definition strict_candidates (cfg : Config) (base : string) : list string :=
  [ (if nonempty (SYMBOL_SUFFIX cfg) then base ++ SYMBOL_SUFFIX cfg else base)%string;
    base ].

(** [resolve_symbol_strict(sig_symbol)] *)
Definition resolve_symbol_strict (cfg : Config) (mt : Terminal) (sig_symbol : string)
  : option string * list Call :=
  let base := PyStr.upper (PyStr.strip sig_symbol) in
  if nonempty base then
    match first_known mt (strict_candidates cfg base) with
    | Some (s, calls) => (Some s, calls)
    | None => (None, [])
    end
  else (None, []).

(** [round_price(symbol, price)] *)
Definition round_price (mt : Terminal) (symbol : string) (price : Q) : Q :=
  let digits := match symbol_info mt symbol with
                | Some info => digits info
                | None => 2%nat
                end in
  PyNum.py_round price digits.

(** [place_pending_limit(symbol, side, entry, sl, tp, volume)] *)
Definition place_pending_limit (cfg : Config) (mt : Terminal) (symbol side : string)
    (entry sl : Q) (tp : option Q) (volume : Q) : bool * list Call :=
  match symbol_info mt symbol with
  | None => (false, [])
  | Some _ =>
      let entry := round_price mt symbol entry in
      let sl := round_price mt symbol sl in
      let tp := option_map (round_price mt symbol) tp in
      let order_type :=
        if String.eqb side "BUY" then ORDER_TYPE_BUY_LIMIT else ORDER_TYPE_SELL_LIMIT in
      let req := Pending symbol volume order_type entry sl
                         (match tp with Some t => t | None => 0 end)
                         (SLIPPAGE cfg) (MAGIC cfg)
                         (BRAND_PREFIX ++ "-" ++ side)%string in
      (order_send mt req, [OrderSend req])
  end.

(** [adjust_lot_for_symbol(symbol, lot)] *)
Definition adjust_lot_for_symbol (mt : Terminal) (symbol : string) (lot : Q) : Q :=
  match symbol_info mt symbol with
  | None => PyNum.py_round lot 2
  | Some info =>
      let step := PyNum.or_default (volume_step info) (1 # 100) in
      let min_vol := PyNum.or_default (volume_min info) (1 # 100) in
      let max_vol := PyNum.or_default (volume_max info) 100 in
      (* round down to step *)
      let steps := PyNum.py_trunc (lot / step) in
      let adj := inject_Z steps * step in
      let adj := if Qlt_bool adj min_vol then min_vol else adj in
      let adj := if Qlt_bool max_vol adj then max_vol else adj in
      (* float(f"{adj:.2f}") *)
      PyNum.py_round adj 2
  end.

(** [set_fixed_lot(value)] for a float or [None]. *)
Definition set_fixed_lot (cfg : Config) (value : option Q) : Config :=
  {| SYMBOL_DEFAULT := SYMBOL_DEFAULT cfg; SYMBOL_SUFFIX := SYMBOL_SUFFIX cfg;
     LOT_FALLBACK := LOT_FALLBACK cfg; SLIPPAGE := SLIPPAGE cfg; MAGIC := MAGIC cfg;
     TELEGRAM_CHANNEL_ID := TELEGRAM_CHANNEL_ID cfg;
     USER_FIXED_LOT := match value with
                       | None => None
                       | Some v => if Qlt_bool 0 v then Some v else None
                       end;
     AUTO_PLACE := AUTO_PLACE cfg |}.

(* ---------------------------------------------------------------- *)
(** *** The TP ladder store *)

Definition ladder_key : Type := (string * string)%type.   (* (symbol, 'BUY'|'SELL') *)

Definition key_eqb (a b : ladder_key) : bool :=
  String.eqb (fst a) (fst b) && String.eqb (snd a) (snd b).

Definition ladders : Type := Dict.dict ladder_key (list Q).

(** The file [tp_ladders.json]. *)
Inductive FileContent : Type :=
| NoFile                      (* the file does not exist *)
| NotJson                     (* [json.load] raises *)
| Loaded (j : Json.json).     (* [json.load] returns j *)

(** The mutable globals. *)
Record State : Type := {
  TP_LADDERS : ladders;
  tp_file : FileContent;
  last_signal : option ParsedSignal
}.

Definition ladders_get (d : ladders) (k : ladder_key) : option (list Q) :=
  Dict.get key_eqb k d.

Definition ladders_set (d : ladders) (k : ladder_key) (v : list Q) : ladders :=
  Dict.set key_eqb k v d.

(** The key of the persisted mapping: f"{k[0]}|{k[1]}" *)
Definition file_key (k : ladder_key) : string := (fst k ++ "|" ++ snd k)%string.

Definition nonempty_list {A : Type} (l : list A) : bool :=
  match l with [] => false | _ => true end.

(** The dictionary [data] built by [_save_tp_ladders]. *)
Definition save_data (d : ladders) : Dict.dict string (list Q) :=
  Dict.of_items String.eqb
    (map (fun kv => (file_key (fst kv), snd kv))
         (filter (fun kv => nonempty_list (snd kv)) d)).

Definition dump (data : Dict.dict string (list Q)) : Json.json :=
  Json.JObj (map (fun kv => (fst kv, Json.JArr (map Json.JNum (snd kv)))) data).

(** [_save_tp_ladders()]; the write itself is taken to succeed. *)
Definition _save_tp_ladders (st : State) : State :=
  {| TP_LADDERS := TP_LADDERS st;
     tp_file := Loaded (dump (save_data (TP_LADDERS st)));
     last_signal := last_signal st |}.

Section Load.
(** [float(s)] on an arbitrary string of the file; [None] when it
    raises. *)
Variable float_of_str : string -> option Q.

(** [float(x)] on a loaded JSON value. *)
Definition float_of_json (x : Json.json) : option Q :=
  match x with
  | Json.JNum q => Some q
  | Json.JBool b => Some (if b then 1 else 0)
  | Json.JStr s => float_of_str s
  | _ => None
  end.

(** The values [for x in v] runs over; [None] when [v] is not
    iterable. *)
Definition iter_json (v : Json.json) : option (list Json.json) :=
  match v with
  | Json.JArr l => Some l
  | Json.JStr s =>
      Some (map (fun c => Json.JStr (String c EmptyString)) (list_ascii_of_string s))
  | Json.JObj l => Some (map (fun kv => Json.JStr (fst kv)) (Dict.of_items String.eqb l))
  | _ => None
  end.

(** [[float(x) for x in xs]]; [None] when one conversion raises. *)
Fixpoint floats_of (xs : list Json.json) : option (list Q) :=
  match xs with
  | [] => Some []
  | x :: rest =>
      match float_of_json x, floats_of rest with
      | Some q, Some qs => Some (q :: qs)
      | _, _ => None
      end
  end.

(** One turn of the loading loop: the body of the inner [try], with
    [continue] on any exception. *)
Definition load_entry (d : ladders) (kv : string * Json.json) : ladders :=
  match PyStr.split_once "|" (fst kv) with
  | [sym; direction] =>
      match iter_json (snd kv) with
      | Some xs =>
          match floats_of xs with
          | Some vals =>
              if nonempty_list vals then ladders_set d (sym, direction) vals else d
          | None => d
          end
      | None => d
      end
  | _ => d
  end.

(** [_load_tp_ladders()] *)
Definition _load_tp_ladders (st : State) : State :=
  match tp_file st with
  | Loaded data =>
      if Json.truthy data then
        match data with
        | Json.JObj l =>
            {| TP_LADDERS :=
                 fold_left load_entry (Dict.of_items String.eqb l) (TP_LADDERS st);
               tp_file := tp_file st;
               last_signal := last_signal st |}
        | _ => st
        end
      else st
  | _ => st
  end.
End Load.

(** [TP_LADDERS[key] = values; _save_tp_ladders()] *)
Definition record_ladder (st : State) (key : ladder_key) (values : list Q) : State :=
  _save_tp_ladders
    {| TP_LADDERS := ladders_set (TP_LADDERS st) key values;
       tp_file := tp_file st;
       last_signal := last_signal st |}.

(* ---------------------------------------------------------------- *)
(** *** The ladder planner: [place_orders_from_signal] *)

Definition step : Q := 1.
Definition zone_eps : Q := 1 # 1000000000.      (* 1e-9 *)

(** The two [while] loops.  [fuel] bounds the number of tests of the
    loop condition; [None] means the bound was reached. *)
Fixpoint buy_prices (fuel : nat) (rp : Q -> Q) (lo p : Q) : option (list Q) :=
  match fuel with
  | O => None
  | S fuel' =>
      if Qle_bool (lo - zone_eps) p then
        match buy_prices fuel' rp lo (p - step) with
        | Some l => Some (rp p :: l)
        | None => None
        end
      else Some []
  end.

Fixpoint sell_prices (fuel : nat) (rp : Q -> Q) (hi p : Q) : option (list Q) :=
  match fuel with
  | O => None
  | S fuel' =>
      if Qle_bool p (hi + zone_eps) then
        match sell_prices fuel' rp hi (p + step) with
        | Some l => Some (rp p :: l)
        | None => None
        end
      else Some []
  end.

Definition ladder_prices (fuel : nat) (mt : Terminal) (symbol : string)
    (sig : ParsedSignal) : option (list Q) :=
  if String.eqb (direction sig) "BUY"
  then buy_prices fuel (round_price mt symbol) (zone_low sig) (zone_high sig)
  else sell_prices fuel (round_price mt symbol) (zone_high sig) (zone_low sig).

(** Lot selection per order. *)
Definition vol_each_raw (cfg : Config) (sig : ParsedSignal) : Q :=
  if Qlt_bool 0 (lot_size sig) then lot_size sig
  else match USER_FIXED_LOT cfg with
       | Some l => if Qlt_bool 0 l then l else LOT_FALLBACK cfg
       | None => LOT_FALLBACK cfg
       end.

Definition vol_each (cfg : Config) (mt : Terminal) (symbol : string)
    (sig : ParsedSignal) : Q :=
  let v := adjust_lot_for_symbol mt symbol (vol_each_raw cfg sig) in
  if Qle_bool v 0 then vol_each_raw cfg sig else v.

(** [[tp for tp in take_profits if tp is not None]] *)
Fixpoint numeric_of (tps : list (option Q)) : list Q :=
  match tps with
  | [] => []
  | Some tp :: rest => tp :: numeric_of rest
  | None :: rest => numeric_of rest
  end.

(** One planned order. *)
Record Rung : Type := { r_price : Q; r_lot : Q; r_tp : option Q }.

(** The arguments of the calls of [place_pending_limit] in the final
    loop, starting at index [idx]. *)
Fixpoint rungs_from (idx : nat) (prices numeric_tps : list Q) (vol : Q) : list Rung :=
  match prices with
  | [] => []
  | price :: rest =>
      {| r_price := price; r_lot := vol; r_tp := nth_error numeric_tps idx |}
        :: rungs_from (S idx) rest numeric_tps vol
  end.

(** The plan of a signal on the resolved [symbol]. *)
Definition plan (fuel : nat) (cfg : Config) (mt : Terminal) (symbol : string)
    (sig : ParsedSignal) : option (list Rung) :=
  match ladder_prices fuel mt symbol sig with
  | Some prices =>
      Some (rungs_from 0 prices (numeric_of (take_profits sig))
                       (vol_each cfg mt symbol sig))
  | None => None
  end.

Fixpoint submit (cfg : Config) (mt : Terminal) (symbol side : string) (sl : Q)
    (rungs : list Rung) : bool * list Call :=
  match rungs with
  | [] => (false, [])
  | r :: rest =>
      let '(ok, c1) :=
        place_pending_limit cfg mt symbol side (r_price r) sl (r_tp r) (r_lot r) in
      let '(ok_rest, c2) := submit cfg mt symbol side sl rest in
      (ok || ok_rest, c1 ++ c2)
  end.

(** [place_orders_from_signal(sig)]: the value returned, the globals
    afterwards and the calls made on the terminal. *)
Definition place_orders_from_signal (fuel : nat) (cfg : Config) (mt : Terminal)
    (st : State) (sig : ParsedSignal) : option (bool * State * list Call) :=
  let '(symbol, c0) := resolve_symbol cfg mt (symbol sig) in
  match plan fuel cfg mt symbol sig with
  | None => None
  | Some rungs =>
      let numeric_tps := numeric_of (take_profits sig) in
      let st' :=
        if nonempty_list numeric_tps
        then record_ladder st (symbol, direction sig) (PyNum.sorted_set numeric_tps)
        else st in
      let '(ok_any, c1) := submit cfg mt symbol (direction sig) (stop_loss sig) rungs in
      Some (ok_any, st', c0 ++ c1)
  end.

(* ---------------------------------------------------------------- *)
(** *** Bulk operations *)

(** The test of [cancel_all_pending] on one order. *)
Definition ours_order (cfg : Config) (o : Order) : bool :=
  Z.eqb (o_magic o) (MAGIC cfg)
  || PyStr.startswith (o_comment o) (BRAND_PREFIX ++ "-")
  || PyStr.startswith (o_comment o) "MazharBot-".

(** The list [to_cancel] of [cancel_all_pending]. *)
Definition to_cancel (cfg : Config) (mt : Terminal) (symbol : option string)
    (include_all_magics : bool) : list Order :=
  let orders :=
    match orders_get mt symbol with
    | [] => orders_get mt None       (* orders_get(group="*") *)
    | l => l
    end in
  if include_all_magics then orders else filter (ours_order cfg) orders.

Definition count_done (mt : Terminal) (reqs : list Request) : nat :=
  List.length (filter (order_send mt) reqs).

(** [cancel_all_pending(symbol, include_all_magics)] *)
Definition cancel_all_pending (cfg : Config) (mt : Terminal) (symbol : option string)
    (include_all_magics : bool) : nat * list Call :=
  let reqs := map (fun o => Remove (o_ticket o))
                  (to_cancel cfg mt symbol include_all_magics) in
  (count_done mt reqs, map OrderSend reqs).

(** The test of [close_all_positions] on one position; [only_profit]
    is [Some true], [Some false] or [None]. *)
Definition selected_position (cfg : Config) (include_all_magics : bool)
    (only_profit : option bool) (p : Position) : bool :=
  if negb include_all_magics && negb (Z.eqb (p_magic p) (MAGIC cfg)) then false
  else match only_profit with
       | Some true => Qlt_bool 0 (p_profit p)
       | Some false => Qlt_bool (p_profit p) 0
       | None => true
       end.

(** The list [to_close] of [close_all_positions]. *)
Definition to_close (cfg : Config) (mt : Terminal) (symbol : option string)
    (include_all_magics : bool) (only_profit : option bool) : list Position :=
  filter (selected_position cfg include_all_magics only_profit)
         (positions_get mt symbol).

Definition close_request (cfg : Config) (mt : Terminal) (p : Position) : list Request :=
  match symbol_info_tick mt (p_symbol p) with
  | None => []
  | Some tick =>
      let is_buy := Z.eqb (p_type p) ORDER_TYPE_BUY in
      [Deal (p_symbol p) (p_volume p)
            (if is_buy then ORDER_TYPE_SELL else ORDER_TYPE_BUY)
            (p_ticket p)
            (if is_buy then bid tick else ask tick)
            (SLIPPAGE cfg) (MAGIC cfg) (BRAND_PREFIX ++ "-Close")%string]
  end.

(** [close_all_positions(symbol, include_all_magics, only_profit)] *)
Definition close_all_positions (cfg : Config) (mt : Terminal) (symbol : option string)
    (include_all_magics : bool) (only_profit : option bool) : nat * list Call :=
  let reqs := flat_map (close_request cfg mt)
                       (to_close cfg mt symbol include_all_magics only_profit) in
  (count_done mt reqs, map OrderSend reqs).

(* ---------------------------------------------------------------- *)
(** *** Trailing stops: [maintain_trailing_stops] *)

Definition trail_eps : Q := 1 # 10000000.       (* 1e-7 *)

Definition position_direction (p : Position) : string :=
  if Z.eqb (p_type p) POSITION_TYPE_BUY then "BUY" else "SELL".

(** The reference price: bid for a BUY position, ask otherwise. *)
Definition reference_price (p : Position) (tick : Tick) : Q :=
  if Z.eqb (p_type p) POSITION_TYPE_BUY then bid tick else ask tick.

(** [achieved]: the number of ladder levels reached. *)
Definition achieved (direction : string) (current : Q) (ladder_sorted : list Q) : nat :=
  if String.eqb direction "BUY"
  then List.length (filter (fun tp => Qle_bool tp current) ladder_sorted)
  else List.length (filter (fun tp => Qle_bool current tp) ladder_sorted).

(** The stop chosen from the number of levels reached, before it is
    rounded: [None] when the position is left alone. *)
Definition target_stop (p : Position) (n : nat) (ladder_sorted : list Q) : option Q :=
  match n with
  | O => None
  | 1%nat => Some (p_price_open p)
  | _ => Some (nth (n - 2) ladder_sorted 0)
  end.

(** The guards on the rounded target [new_sl]: the stop to send, or
    [None] when the update is dropped. *)
Definition guarded_stop (mt : Terminal) (p : Position) (current new_sl : Q) : option Q :=
  let sym := p_symbol p in
  let cur_sl := p_sl p in
  let point := match symbol_info mt sym with
               | Some info => point info
               | None => 1 # 100
               end in
  if String.eqb (position_direction p) "BUY" then
    if Qle_bool new_sl (cur_sl + trail_eps) then None
    else if Qle_bool current new_sl
         then Some (round_price mt sym (current - 2 * point))
         else Some new_sl
  else
    if Qlt_bool 0 cur_sl && Qle_bool (cur_sl - trail_eps) new_sl then None
    else if Qle_bool new_sl current
         then Some (round_price mt sym (current + 2 * point))
         else Some new_sl.

(** The body of the loop over [my_positions]: the stop-modify request
    for one position, if any. *)
Definition trail_position (cfg : Config) (mt : Terminal) (d : ladders) (p : Position)
  : option Request :=
  let sym := p_symbol p in
  match symbol_info_tick mt sym with
  | None => None
  | Some tick =>
      let current := reference_price p tick in
      let direction := position_direction p in
      match ladders_get d (sym, direction) with
      | None => None
      | Some ladder =>
          if nonempty_list ladder then
            let ladder_sorted := PyNum.sorted_set ladder in
            match target_stop p (achieved direction current ladder_sorted)
                              ladder_sorted with
            | None => None
            | Some new_sl =>
                match guarded_stop mt p current (round_price mt sym new_sl) with
                | None => None
                | Some sl => Some (Sltp (p_ticket p) sym sl (p_tp p) (MAGIC cfg))
                end
            end
          else None
      end
  end.

Definition opt_list {A : Type} (o : option A) : list A :=
  match o with Some a => [a] | None => [] end.

(** [maintain_trailing_stops()]: the requests sent, in order. *)
Definition maintain_trailing_stops (cfg : Config) (mt : Terminal) (st : State)
  : list Call :=
  let my_positions :=
    filter (fun p => Z.eqb (p_magic p) (MAGIC cfg)) (positions_get mt None) in
  map OrderSend
      (flat_map (fun p => opt_list (trail_position cfg mt (TP_LADDERS st) p))
                my_positions).

(** A terminal that carries out an accepted stop-modify request: the
    position named by the request gets the requested stop. *)
Definition apply_sltp (mt : Terminal) (r : Request) (p : Position) : Position :=
  match r with
  | Sltp ticket _ sl _ _ =>
      if Z.eqb ticket (p_ticket p) && order_send mt r then
        {| p_ticket := p_ticket p; p_symbol := p_symbol p; p_type := p_type p;
           p_magic := p_magic p; p_volume := p_volume p;
           p_price_open := p_price_open p; p_sl := sl; p_tp := p_tp p;
           p_profit := p_profit p; p_comment := p_comment p |}
      else p
  | _ => p
  end.

(** One trailing tick seen from one position. *)
Definition trailing_tick (cfg : Config) (mt : Terminal) (d : ladders) (p : Position)
  : Position :=
  match trail_position cfg mt d p with
  | Some r => apply_sltp mt r p
  | None => p
  end.

(* ---------------------------------------------------------------- *)
(** *** The flexible order formats *)

Import Re.

(** r"[:=]" and r"[:=]?" *)
Definition colon_eq : regex := one_of ":=".

(** r"\blots?\s*[:=]\s*(\d+)", re.I *)
Definition re_lots : regex :=
  seq [WordB; ilit "lot"; Opt (ichr "s"); Star space; colon_eq; Star space;
       Group 1 (Plus digit)].

(** r"\blot\s*size\s*[:=]\s*([0-9]*\.?[0-9]+)", re.I *)
Definition re_lsize : regex :=
  seq [WordB; ilit "lot"; Star space; ilit "size"; Star space; colon_eq; Star space;
       Group 1 lot_number].

Definition buy_sell : regex := Alt (ilit "buy") (ilit "sell").

(** r"\b(buy|sell)\s*limit\s*[:=]?\s*([0-9]+(?:\.[0-9]+)?)", re.I *)
Definition re_dir_entry : regex :=
  seq [WordB; Group 1 buy_sell; Star space; ilit "limit"; Star space; Opt colon_eq;
       Star space; Group 2 number].

(** r"\bSL\s*[:=]?\s*([0-9]+(?:\.[0-9]+)?)", re.I *)
Definition re_flex_sl : regex :=
  seq [WordB; ilit "SL"; Star space; Opt colon_eq; Star space; Group 1 number].

(** r"\bTP\s*[:=]?\s*open\b", re.I *)
Definition re_tp_open : regex :=
  seq [WordB; ilit "TP"; Star space; Opt colon_eq; Star space; ilit "open"; WordB].

(** r"\bTP\s*[:=]?\s*([0-9]+(?:\.[0-9]+)?)", re.I *)
Definition re_flex_tp : regex :=
  seq [WordB; ilit "TP"; Star space; Opt colon_eq; Star space; Group 1 number].

(** r"\b(buy|sell)\s*limit\b", re.I *)
Definition re_dir : regex :=
  seq [WordB; Group 1 buy_sell; Star space; ilit "limit"; WordB].

(** r"(NUM)\s*[-=]*>\s*TP?((?:open)|(?:NUM))", re.I, where NUM is
    r"[0-9]+(?:\.[0-9]+)?" and TP? is an optional "tp" with the spaces
    after it *)
Definition re_pairs : regex :=
  seq [Group 1 number; Star space; Star (one_of "-="); chr ">"; Star space;
       Opt (Seq (ilit "tp") (Star space));
       Group 2 (Alt (ilit "open") number)].

Definition side_of (s : string) : string :=
  if String.eqb (PyStr.lower (PyStr.strip s)) "buy" then "BUY" else "SELL".

Record Flex1 : Type := {
  f1_direction : string; f1_entry : Q; f1_sl : Q; f1_tp : option Q;
  f1_lots : Z; f1_lot_size : Q
}.

(** [_parse_flexible_format1(text)] *)
Definition _parse_flexible_format1 (text : string) : option Flex1 :=
  let t := PyStr.strip text in
  match search re_lots t, search re_lsize t, search re_dir_entry t,
        search re_flex_sl t with
  | Some m_lots, Some m_lsize, Some m_dir_entry, Some m_sl =>
      match PyNum.py_int (grp m_lots 1), PyNum.py_float (grp m_lsize 1),
            PyNum.py_float (grp m_dir_entry 2), PyNum.py_float (grp m_sl 1) with
      | Some lots, Some lot_size, Some entry, Some sl =>
          let tp :=
            match search re_tp_open t with
            | Some _ => None
            | None =>
                match search re_flex_tp t with
                | Some m_tp => PyNum.py_float (grp m_tp 1)
                | None => None
                end
            end in
          Some {| f1_direction := side_of (grp m_dir_entry 1); f1_entry := entry;
                  f1_sl := sl; f1_tp := tp; f1_lots := lots;
                  f1_lot_size := lot_size |}
      | _, _, _, _ => None
      end
  | _, _, _, _ => None
  end.

Record Flex2 : Type := {
  f2_direction : string; f2_lot_size : Q; f2_sl : Q;
  f2_entries : list (Q * option Q)
}.

Definition flex_entry (g : groups) : option (Q * option Q) :=
  match PyNum.py_float (grp g 1) with
  | None => None
  | Some entry =>
      if String.eqb (PyStr.lower (PyStr.strip (grp g 2))) "open"
      then Some (entry, None)
      else match PyNum.py_float (grp g 2) with
           | Some tp => Some (entry, Some tp)
           | None => None
           end
  end.

Fixpoint flex_entries (pairs : list groups) : option (list (Q * option Q)) :=
  match pairs with
  | [] => Some []
  | g :: rest =>
      match flex_entry g, flex_entries rest with
      | Some e, Some es => Some (e :: es)
      | _, _ => None
      end
  end.

(** [_parse_flexible_format2(text)] *)
Definition _parse_flexible_format2 (text : string) : option Flex2 :=
  let t := PyStr.strip text in
  match search re_lsize t, search re_dir t, search re_flex_sl t with
  | Some m_lsize, Some m_dir, Some m_sl =>
      match PyNum.py_float (grp m_lsize 1), PyNum.py_float (grp m_sl 1),
            findall re_pairs t with
      | Some lot_size, Some sl, (_ :: _) as pairs =>
          match flex_entries pairs with
          | Some entries =>
              Some {| f2_direction := side_of (grp m_dir 1); f2_lot_size := lot_size;
                      f2_sl := sl; f2_entries := entries |}
          | None => None
          end
      | _, _, _ => None
      end
  | _, _, _ => None
  end.

(* ---------------------------------------------------------------- *)
(** *** The message handler *)

(** What the handler reads of an update: the text of the effective
    message ([None] when there is none) and [str(msg.chat_id)]. *)
Record Message : Type := { m_text : option string; m_chat_id : string }.

Definition in_list (s : string) (l : list string) : bool :=
  existsb (String.eqb s) l.

(** [_arg_symbol_or_none()] *)
Definition _arg_symbol_or_none (args : list string) : option string :=
  match args with
  | [] => None
  | a :: _ =>
      let a0 := PyStr.upper (PyStr.strip a) in
      if in_list a0 ["ALL"; "PENDING"; "ORDERS"; "POSITIONS"; "PROFIT"; "LOSS"]%string
      then None else Some a0
  end.

(** The branch shared by the commands that name a symbol: resolve it
    strictly and run [op] on it, or stop when it is not found. *)
Definition on_symbol (cfg : Config) (mt : Terminal) (sym_token : string)
    (op : string -> list Call) : list Call :=
  match resolve_symbol_strict cfg mt sym_token with
  | (Some rs, c) => c ++ op rs
  | (None, c) => c
  end.

Definition cancel_calls (cfg : Config) (mt : Terminal) (symbol : option string)
  : list Call := snd (cancel_all_pending cfg mt symbol true).

Definition close_calls (cfg : Config) (mt : Terminal) (symbol : option string)
    (only_profit : option bool) : list Call :=
  snd (close_all_positions cfg mt symbol true only_profit).

(** The inline control commands: the calls made by a recognised
    command, [None] for any other first word. *)
Definition handle_command (cfg : Config) (mt : Terminal) (cmd : string)
    (args : list string) : option (list Call) :=
  if String.eqb cmd "/cancel" || String.eqb cmd "/cancelall" then
    Some match _arg_symbol_or_none args with
         | Some tok => on_symbol cfg mt tok (fun rs => cancel_calls cfg mt (Some rs))
         | None => cancel_calls cfg mt None
         end
  else if String.eqb cmd "/delete" then
    let sym_token :=
      match args with
      | [] => None
      | a0 :: rest =>
          if in_list (PyStr.lower a0) ["pending"; "orders"]%string
          then match rest with
               | a1 :: _ => Some (PyStr.upper (PyStr.strip a1))
               | [] => None
               end
          else Some (PyStr.upper (PyStr.strip a0))
      end in
    Some match sym_token with
         | Some tok =>
             if nonempty tok && negb (String.eqb tok "ALL")
             then on_symbol cfg mt tok (fun rs => cancel_calls cfg mt (Some rs))
             else cancel_calls cfg mt None
         | None => cancel_calls cfg mt None
         end
  else if String.eqb cmd "/close" || String.eqb cmd "/closeall" then
    Some match args with
         | a :: _ =>
             let a0 := PyStr.lower a in
             if String.eqb a0 "all" then close_calls cfg mt None None
             else if in_list a0 ["profit"; "profits"]%string
             then close_calls cfg mt None (Some true)
             else if in_list a0 ["loss"; "losing"; "losses"]%string
             then close_calls cfg mt None (Some false)
             else on_symbol cfg mt (PyStr.upper (PyStr.strip a))
                            (fun rs => close_calls cfg mt (Some rs) None)
         | [] => close_calls cfg mt None None
         end
  else if in_list cmd ["/closeprofit"; "/closeloss"]%string then
    Some (close_calls cfg mt None (Some (String.eqb cmd "/closeprofit")))
  else if String.eqb cmd "/kill" then
    Some match args with
         | a :: _ =>
             if negb (String.eqb (PyStr.lower (PyStr.strip a)) "all")
             then on_symbol cfg mt (PyStr.upper (PyStr.strip a))
                    (fun rs => close_calls cfg mt (Some rs) None
                               ++ cancel_calls cfg mt (Some rs))
             else close_calls cfg mt None None ++ cancel_calls cfg mt None
         | [] => close_calls cfg mt None None ++ cancel_calls cfg mt None
         end
  else None.

(** The command branch of the handler on the stripped text: the
    calls of the command when the first word starts with "/" and is
    a recognised command. *)
Definition command_of (cfg : Config) (mt : Terminal) (text : string)
  : option (list Call) :=
  match PyStr.split_ws text with
  | w :: args =>
      if PyStr.startswith w "/" then handle_command cfg mt (PyStr.lower w) args
      else None
  | [] => None
  end.

(** The orders of a Flexible-A message: the same order, [lots] times. *)
Definition place_flex1 (cfg : Config) (mt : Terminal) (f : Flex1) : list Call :=
  let '(sym, c0) := resolve_symbol cfg mt (SYMBOL_DEFAULT cfg) in
  let vol := adjust_lot_for_symbol mt sym (f1_lot_size f) in
  c0 ++ List.concat (repeat (snd (place_pending_limit cfg mt sym (f1_direction f)
                                (f1_entry f) (f1_sl f) (f1_tp f) vol))
                       (Z.to_nat (f1_lots f))).

(** The orders of a Flexible-B message: one per (entry, tp) pair. *)
Definition place_flex2 (cfg : Config) (mt : Terminal) (f : Flex2) : list Call :=
  let '(sym, c0) := resolve_symbol cfg mt (SYMBOL_DEFAULT cfg) in
  let vol := adjust_lot_for_symbol mt sym (f2_lot_size f) in
  c0 ++ flat_map (fun e => snd (place_pending_limit cfg mt sym (f2_direction f)
                                  (fst e) (f2_sl f) (snd e) vol))
                 (f2_entries f).

(** The ladder update of the handler for a parsed signal. *)
Definition cache_ladder (cfg : Config) (st : State) (parsed : ParsedSignal) : State :=
  let numeric := PyNum.sorted_set (numeric_of (take_profits parsed)) in
  if nonempty_list numeric then
    let d1 := ladders_set (TP_LADDERS st)
                (PyStr.upper (symbol parsed), direction parsed) numeric in
    let d2 := if nonempty (SYMBOL_SUFFIX cfg)
              then ladders_set d1 ((PyStr.upper (symbol parsed) ++ SYMBOL_SUFFIX cfg)%string,
                                   direction parsed) numeric
              else d1 in
    _save_tp_ladders
      {| TP_LADDERS := d2; tp_file := tp_file st; last_signal := last_signal st |}
  else st.

(** The part of [handle_message] from [parse_signal] on. *)
Definition handle_signal (fuel : nat) (cfg : Config) (mt : Terminal) (st : State)
    (text : string) : option (State * list Call) :=
  match parse_signal text with
  | Some parsed =>
      let st1 := {| TP_LADDERS := TP_LADDERS st; tp_file := tp_file st;
                    last_signal := Some parsed |} in
      let st2 := cache_ladder cfg st1 parsed in
      if AUTO_PLACE cfg then
        match place_orders_from_signal fuel cfg mt st2 parsed with
        | Some (_, st3, calls) => Some (st3, calls)
        | None => None
        end
      else Some (st2, [])
  | None => Some (st, [])
  end.

(** [handle_message(update, context)]: the globals afterwards and the
    calls made on the terminal.  Replies and log lines are not part
    of the model. *)
Definition handle_message (fuel : nat) (cfg : Config) (mt : Terminal) (st : State)
    (update : option Message) : option (State * list Call) :=
  match update with
  | None => Some (st, [])
  | Some msg =>
      match m_text msg with
      | None => Some (st, [])
      | Some raw =>
          if negb (nonempty raw) then Some (st, [])
          else if nonempty (TELEGRAM_CHANNEL_ID cfg)
                  && negb (String.eqb (m_chat_id msg) (TELEGRAM_CHANNEL_ID cfg))
          then Some (st, [])
          else
            let text := PyStr.strip raw in
            if PyStr.startswith text "/getid" then Some (st, [])
            else
              match command_of cfg mt text with
              | Some calls => Some (st, calls)
              | None =>
                  match _parse_flexible_format1 text with
                  | Some fmt1 => Some (st, place_flex1 cfg mt fmt1)
                  | None =>
                      match _parse_flexible_format2 text with
                      | Some fmt2 => Some (st, place_flex2 cfg mt fmt2)
                      | None => handle_signal fuel cfg mt st text
                      end
                  end
              end
      end
  end.

End Bot.

(* ------------------------------------------------------------------ *)
(** ** fore_ai_dashboard.py: the button that cancels pending orders *)

Module Dashboard.
Import Bot.

(** The runner of [_cancel_pending_orders]: the orders of the bot are
    cancelled; when none was, the call is repeated for the orders of
    every magic number.  The second call sees the orders the first
    one saw, since no removal was accepted. *)
Definition _cancel_pending_orders (cfg : Config) (mt : Terminal) : list Call :=
  let '(n, c1) := cancel_all_pending cfg mt None false in
  if Nat.eqb n 0 then c1 ++ snd (cancel_all_pending cfg mt None true) else c1.

End Dashboard.

(* ------------------------------------------------------------------ *)
(** ** Notions used in the statements *)

Module Spec.
Import SignalParser Bot.

Definition nl : string := String (ascii_of_N 10) EmptyString.

(** The message of the end-to-end scenario. *)
Definition scenario_text : string :=
  ("XAUUSD LOOKING BUY THIS ZONE" ++ nl ++ "3463/3459" ++ nl ++ "SL 3455" ++ nl
   ++ "TP1 3465" ++ nl ++ "TP2 3470")%string.

Definition scenario_signal : ParsedSignal :=
  {| symbol := "XAUUSD"; direction := "BUY"; lot_size := 0;
     zone_low := 3459; zone_high := 3463; stop_loss := 3455;
     take_profits := [Some 3465; Some 3470];
     original_text := scenario_text |}.

(** A gold instrument quoted with two digits and a terminal that
    knows only it. *)
Definition xau_info : SymbolInfo :=
  {| visible := true; digits := 2; point := 1 # 100;
     volume_step := 1 # 100; volume_min := 1 # 100; volume_max := 100 |}.

Definition xau_terminal : Terminal :=
  {| symbol_info := fun s => if String.eqb s "XAUUSD" then Some xau_info else None;
     symbol_info_tick := fun _ => None;
     orders := []; positions := [];
     order_send := fun _ => true |}.

(** The configuration the program starts with when the environment
    sets nothing. *)
Definition default_config : Config :=
  {| SYMBOL_DEFAULT := "XAUUSD"; SYMBOL_SUFFIX := ""; LOT_FALLBACK := 1 # 10;
     SLIPPAGE := 30; MAGIC := 777001; TELEGRAM_CHANNEL_ID := "";
     USER_FIXED_LOT := None; AUTO_PLACE := false |}.

Definition empty_state : State :=
  {| TP_LADDERS := []; tp_file := NoFile; last_signal := None |}.

(** A zone whose width is not a whole number of steps. *)
Definition fractional_text : string :=
  ("XAUUSD LOOKING BUY THIS ZONE" ++ nl ++ "3463.75/3459" ++ nl ++ "SL 3455" ++ nl
   ++ "TP1 3465")%string.

Definition fractional_signal : ParsedSignal :=
  {| symbol := "XAUUSD"; direction := "BUY"; lot_size := 0;
     zone_low := 3459; zone_high := 13855 # 4; stop_loss := 3455;
     take_profits := [Some 3465];
     original_text := fractional_text |}.

(** A signal whose first take-profit is left open. *)
Definition open_first_text : string :=
  ("XAUUSD LOOKING BUY THIS ZONE" ++ nl ++ "3463/3459" ++ nl ++ "SL 3455" ++ nl
   ++ "TP1 open" ++ nl ++ "TP2 3470")%string.

Definition open_first_signal : ParsedSignal :=
  {| symbol := "XAUUSD"; direction := "BUY"; lot_size := 0;
     zone_low := 3459; zone_high := 3463; stop_loss := 3455;
     take_profits := [None; Some 3470];
     original_text := open_first_text |}.

(** The number of times the loop of the planner appends a price:
    the whole unit steps that fit between the near edge and the far
    edge moved out by [1e-9], plus one. *)
Definition rung_count (lo hi : Q) : nat :=
  Z.to_nat (Qfloor (hi - lo + zone_eps) + 1).

(** The unrounded price of rung [i]. *)
Definition rung_offset (sig : ParsedSignal) (i : nat) : Q :=
  if String.eqb (direction sig) "BUY"
  then zone_high sig - inject_Z (Z.of_nat i)
  else zone_low sig + inject_Z (Z.of_nat i).

(** The digit precision [round_price] uses for a symbol. *)
Definition digits_of (mt : Terminal) (symbol : string) : nat :=
  match symbol_info mt symbol with
  | Some info => digits info
  | None => 2%nat
  end.

(** Element [i] of a take-profit list, 'open' past its end. *)
Definition positional_tp (tps : list (option Q)) (i : nat) : option Q :=
  match nth_error tps i with
  | Some tp => tp
  | None => None
  end.

(** Prices in the order of the direction: falling for BUY, rising
    otherwise. *)
Definition in_order (sig : ParsedSignal) (a b : Q) : Prop :=
  if String.eqb (direction sig) "BUY" then b <= a else a <= b.

Definition strictly_in_order (sig : ParsedSignal) (a b : Q) : Prop :=
  if String.eqb (direction sig) "BUY" then b < a else a < b.

(** No two elements of a list are numerically equal. *)
Fixpoint distinct (l : list Q) : Prop :=
  match l with
  | [] => True
  | x :: l' => (forall y, In y l' -> ~ y == x) /\ distinct l'
  end.

(** The boundary scenario of the trailing pass: a BUY position on a
    ladder of 10, 20, 30 with the bid exactly at 20. *)
Definition boundary_position : Position :=
  {| p_ticket := 1; p_symbol := "XAUUSD"; p_type := POSITION_TYPE_BUY;
     p_magic := 777001; p_volume := 1 # 10; p_price_open := 5; p_sl := 0;
     p_tp := 0; p_profit := 15; p_comment := "ForeAi-BUY" |}.

Definition boundary_terminal : Terminal :=
  {| symbol_info := symbol_info xau_terminal;
     symbol_info_tick := fun _ => Some {| bid := 20; ask := 20 + (1 # 5) |};
     orders := []; positions := [boundary_position];
     order_send := fun _ => true |}.

Definition boundary_ladders : ladders := [(("XAUUSD", "BUY")%string, [10; 20; 30])].

(** A BUY position opened at 3470 whose stop stands at 3465.99, one
    point under a bid of 3466.00, while the ladder recorded for its
    symbol is that of a later signal, with a single level at 3465. *)
Definition stale_position : Position :=
  {| p_ticket := 7; p_symbol := "XAUUSD"; p_type := POSITION_TYPE_BUY;
     p_magic := 777001; p_volume := 1 # 10; p_price_open := 3470;
     p_sl := 346599 # 100; p_tp := 0; p_profit := -4;
     p_comment := "ForeAi-BUY" |}.

Definition stale_terminal : Terminal :=
  {| symbol_info := symbol_info xau_terminal;
     symbol_info_tick := fun _ => Some {| bid := 3466; ask := 3466 + (1 # 5) |};
     orders := []; positions := [stale_position];
     order_send := fun _ => true |}.

Definition stale_ladders : ladders := [(("XAUUSD", "BUY")%string, [3465])].

(** An order and a position that carry the brand comment but not the
    configured magic number. *)
Definition branded_order : Order :=
  {| o_ticket := 11; o_symbol := "XAUUSD"; o_magic := 0; o_comment := "ForeAi-BUY" |}.

Definition branded_position : Position :=
  {| p_ticket := 12; p_symbol := "XAUUSD"; p_type := POSITION_TYPE_BUY;
     p_magic := 0; p_volume := 1 # 10; p_price_open := 3460; p_sl := 3455;
     p_tp := 0; p_profit := 1; p_comment := "ForeAi-BUY" |}.

Definition branded_terminal : Terminal :=
  {| symbol_info := symbol_info xau_terminal;
     symbol_info_tick := fun _ => Some {| bid := 3461; ask := 3461 + (1 # 5) |};
     orders := [branded_order]; positions := [branded_position];
     order_send := fun _ => true |}.

(** A configuration with the suffix "m", a terminal that knows the
    symbol with and without it, and a terminal that knows nothing. *)
Definition suffix_config : Config :=
  {| SYMBOL_DEFAULT := "XAUUSD"; SYMBOL_SUFFIX := "m"; LOT_FALLBACK := 1 # 10;
     SLIPPAGE := 30; MAGIC := 777001; TELEGRAM_CHANNEL_ID := "";
     USER_FIXED_LOT := None; AUTO_PLACE := false |}.

Definition both_terminal : Terminal :=
  {| symbol_info := fun s => if String.eqb s "XAUUSD" || String.eqb s "XAUUSDm"
                             then Some xau_info else None;
     symbol_info_tick := fun _ => None;
     orders := []; positions := [];
     order_send := fun _ => true |}.

Definition blank_terminal : Terminal :=
  {| symbol_info := fun _ => None;
     symbol_info_tick := fun _ => None;
     orders := []; positions := [];
     order_send := fun _ => true |}.

Definition unknown (mt : Terminal) (s : string) : Prop := symbol_info mt s = None.

(** [r] is the first candidate the terminal knows. *)
Definition first_recognized (mt : Terminal) (cand : list string) (r : string) : Prop :=
  exists pre post,
    cand = pre ++ r :: post /\ symbol_info mt r <> None /\ Forall (unknown mt) pre.

(** An instrument traded in thousandths of a lot. *)
Definition fine_info : SymbolInfo :=
  {| visible := true; digits := 2; point := 1 # 100;
     volume_step := 1 # 1000; volume_min := 1 # 1000; volume_max := 100 |}.

Definition fine_terminal : Terminal :=
  {| symbol_info := fun s => if String.eqb s "BTCUSD" then Some fine_info else None;
     symbol_info_tick := fun _ => None;
     orders := []; positions := [];
     order_send := fun _ => true |}.

(** [v] brought into the interval from [lo] to [hi]. *)
Definition clamp (lo hi v : Q) : Q :=
  if Qlt_bool v lo then lo else if Qlt_bool hi v then hi else v.

(** The lot cut down to a whole number of volume steps. *)
Definition whole_steps (step x : Q) : Q := inject_Z (Qfloor (x / step)) * step.

(** Truncation to the volume step followed by the clamp, as the
    specification words the snapping of a lot. *)
Definition snap_spec (step lo hi x : Q) : Q := clamp lo hi (whole_steps step x).

Definition hundredths (k : Z) : Q := inject_Z k / 100.

(** Volume step, minimum and maximum are positive whole numbers of
    hundredths of a lot, the minimum is not above the maximum, and the
    maximum is a whole number of steps. *)
Definition regular_volumes (info : SymbolInfo) : Prop :=
  exists s a b m : Z,
    (0 < s)%Z /\ (0 < a)%Z /\ (a <= b)%Z /\ b = (s * m)%Z /\
    volume_step info == hundredths s /\
    volume_min info == hundredths a /\
    volume_max info == hundredths b.

Definition bar : ascii := "|".

(** The text holds no "|". *)
Fixpoint no_bar (s : string) : bool :=
  match s with
  | EmptyString => true
  | String c s' => negb (Ascii.eqb c "|") && no_bar s'
  end.

(** The take-profit ladder an intent records. *)
Definition ladder_of (tps : list Q) : list Q := PyNum.sorted_set tps.

(** An entry of the ladder file that the loader cannot use: its key
    has no "|", or its value cannot be iterated, or one of its
    elements is not a number. *)
Definition corrupt (float_of_str : string -> option Q) (kv : string * Json.json) : Prop :=
  no_bar (fst kv) = true
  \/ iter_json (snd kv) = None
  \/ exists xs, iter_json (snd kv) = Some xs /\ floats_of float_of_str xs = None.

(** The handler takes the stripped text to the zone parser: it is
    not the /getid request, not a control command and matches neither
    flexible format. *)
Definition reaches_zone_parser (cfg : Config) (mt : Terminal) (text : string) : Prop :=
  PyStr.startswith text "/getid" = false /\
  command_of cfg mt text = None /\
  _parse_flexible_format1 text = None /\
  _parse_flexible_format2 text = None.

(** The plan of [open_first_signal] on the gold terminal. *)
Definition open_first_plan : list Rung :=
  Eval vm_compute in
    match plan 6 default_config xau_terminal "XAUUSD" open_first_signal with
    | Some rungs => rungs
    | None => []
    end.

(** The scenario message as an update from some chat. *)
Definition scenario_message : Message :=
  {| m_text := Some scenario_text; m_chat_id := "-1001" |}.

(** The state of a process started on the file left by recording the
    take-profits 3470, 3465, 3470 for (XAUUSD, BUY): an empty map and
    that file. *)
Definition restarted_state : State :=
  {| TP_LADDERS := [];
     tp_file := tp_file (record_ladder empty_state ("XAUUSD", "BUY")%string
                                       (ladder_of [3470; 3465; 3470]));
     last_signal := None |}.

(** An instrument quoted without decimals, and one whose maximum lot
    is not a whole number of its volume steps. *)
Definition whole_info : SymbolInfo :=
  {| visible := true; digits := 0; point := 1;
     volume_step := 1 # 100; volume_min := 1 # 100; volume_max := 100 |}.

Definition whole_terminal : Terminal :=
  {| symbol_info := fun _ => Some whole_info;
     symbol_info_tick := fun _ => None;
     orders := []; positions := [];
     order_send := fun _ => true |}.

Definition half_zone_signal : ParsedSignal :=
  {| symbol := "US30"; direction := "BUY"; lot_size := 0;
     zone_low := 6923 # 2; zone_high := 6925 # 2; stop_loss := 3455;
     take_profits := [Some 3465];
     original_text := EmptyString |}.

Definition uneven_info : SymbolInfo :=
  {| visible := true; digits := 2; point := 1 # 100;
     volume_step := 3 # 100; volume_min := 3 # 100; volume_max := 1 |}.

Definition uneven_terminal : Terminal :=
  {| symbol_info := fun _ => Some uneven_info;
     symbol_info_tick := fun _ => None;
     orders := []; positions := [];
     order_send := fun _ => true |}.

(** *** What a pattern matches *)

(** Concatenations of words of [L]. *)
Inductive star_of (L : string -> Prop) : string -> Prop :=
| star_nil : star_of L EmptyString
| star_app (u v : string) : L u -> star_of L v -> star_of L (u ++ v).

(** The words a pattern can consume ([\b] consumes nothing; where it
    may stand is not recorded here). *)
Fixpoint lang (r : Re.regex) (w : string) : Prop :=
  match r with
  | Re.Eps => w = EmptyString
  | Re.Chr f => exists c, w = String c EmptyString /\ f c = true
  | Re.Seq a b => exists u v, w = (u ++ v)%string /\ lang a u /\ lang b v
  | Re.Alt a b => lang a w \/ lang b w
  | Re.Star r' => star_of (lang r') w
  | Re.Group _ r' => lang r' w
  | Re.WordB => w = EmptyString
  end.

(** The words group [n] of a pattern can capture. *)
Fixpoint group_lang (r : Re.regex) (n : nat) (t : string) : Prop :=
  match r with
  | Re.Seq a b | Re.Alt a b => group_lang a n t \/ group_lang b n t
  | Re.Star r' => group_lang r' n t
  | Re.Group m r' => (m = n /\ lang r' t) \/ group_lang r' n t
  | _ => False
  end.

(** Group [n] takes part in every match of the pattern. *)
Fixpoint sets (r : Re.regex) (n : nat) : bool :=
  match r with
  | Re.Seq a b => sets a n || sets b n
  | Re.Alt a b => sets a n && sets b n
  | Re.Group m r' => Nat.eqb m n || sets r' n
  | _ => false
  end.

(** The groups [g] are captures of a match of [r]. *)
Definition captures (r : Re.regex) (g : Re.groups) : Prop :=
  (forall n t, In (n, t) g -> group_lang r n t) /\
  (forall n, sets r n = true -> Re.group g n <> None).

(** Every character of the text satisfies [f]. *)
Fixpoint all_chars (f : ascii -> bool) (s : string) : bool :=
  match s with
  | EmptyString => true
  | String c s' => f c && all_chars f s'
  end.

(** *** Notions of the general properties *)

(** The point size the trailing pass uses for a symbol. *)
Definition point_of (mt : Terminal) (symbol : string) : Q :=
  match symbol_info mt symbol with
  | Some info => point info
  | None => 1 # 100
  end.

(** The point of a symbol is one unit of its last digit. *)
Definition point_matches_digits (mt : Terminal) (symbol : string) : Prop :=
  point_of mt symbol == 1 / PyNum.scale (digits_of mt symbol).

(** A position with its stop replaced. *)
Definition with_stop (p : Position) (sl : Q) : Position :=
  {| p_ticket := p_ticket p; p_symbol := p_symbol p; p_type := p_type p;
     p_magic := p_magic p; p_volume := p_volume p;
     p_price_open := p_price_open p; p_sl := sl; p_tp := p_tp p;
     p_profit := p_profit p; p_comment := p_comment p |}.

(** The ladder map is a dictionary whose instruments hold no "|" and
    whose ladders are not empty. *)
Definition store_ok (d : ladders) : Prop :=
  Dict.wf d /\ forall k v, In (k, v) d -> no_bar (fst k) = true /\ v <> [].

(** The ladder file holds what [_save_tp_ladders] writes for the map. *)
Definition in_sync (st : State) : Prop :=
  tp_file st = Loaded (dump (save_data (TP_LADDERS st))).

(** A process started on the file of [st]: an empty map and that
    file. *)
Definition restart (st : State) : State :=
  {| TP_LADDERS := []; tp_file := tp_file st; last_signal := None |}.

(** Loading the file after a restart gives the map back. *)
Definition restorable (st : State) : Prop :=
  forall f : string -> option Q,
    TP_LADDERS (_load_tp_ladders f (restart st)) = TP_LADDERS st.

(** The map and the file of [st'] are those of [st], or the file of
    [st'] was written from its map. *)
Definition kept_or_saved (st st' : State) : Prop :=
  (TP_LADDERS st' = TP_LADDERS st /\ tp_file st' = tp_file st) \/ in_sync st'.

(** A terminal that knows two instruments and holds one pending order,
    placed by hand on one of them. *)
Definition manual_order : Order :=
  {| o_ticket := 11; o_symbol := "XAUUSD"; o_magic := 5; o_comment := "manual" |}.

Definition manual_terminal : Terminal :=
  {| symbol_info := fun s => if String.eqb s "EURUSD" || String.eqb s "XAUUSD"
                             then Some xau_info else None;
     symbol_info_tick := fun _ => None;
     orders := [manual_order]; positions := [];
     order_send := fun _ => true |}.

(** What planning the scenario signal on the gold terminal leaves and
    sends, and the first request sent. *)
Definition scenario_after : State :=
  Eval vm_compute in
    match place_orders_from_signal 6 default_config xau_terminal empty_state
                                   scenario_signal with
    | Some (_, st, _) => st
    | None => empty_state
    end.

Definition scenario_calls : list Call :=
  Eval vm_compute in
    match place_orders_from_signal 6 default_config xau_terminal empty_state
                                   scenario_signal with
    | Some (_, _, calls) => calls
    | None => []
    end.

Definition scenario_request : Request :=
  Pending "XAUUSD" (1 # 10) ORDER_TYPE_BUY_LIMIT 3463 3455 3465 30 777001 "ForeAi-BUY".

(** The globals after the handler took the scenario message. *)
Definition scenario_handled : State :=
  Eval vm_compute in
    match handle_message 6 default_config xau_terminal empty_state
                         (Some scenario_message) with
    | Some (st, _) => st
    | None => empty_state
    end.

(** The state of the second trailing scenario. *)
Definition stale_state : State :=
  {| TP_LADDERS := stale_ladders; tp_file := NoFile; last_signal := None |}.

(** A Flexible-A message and the order it holds. *)
Definition flex1_text : string :=
  ("Lot size=0.10" ++ nl ++ "Lots=2" ++ nl ++ "Buy limit= 3410" ++ nl ++ "TP 3420" ++ nl
   ++ "SL 3400")%string.

Definition flex1_order : Flex1 :=
  {| f1_direction := "BUY"; f1_entry := 3410; f1_sl := 3400; f1_tp := Some 3420;
     f1_lots := 2; f1_lot_size := 1 # 10 |}.

(** A Flexible-B order with two entries, the second left open. *)
Definition flex2_order : Flex2 :=
  {| f2_direction := "BUY"; f2_lot_size := 1 # 5; f2_sl := 3350;
     f2_entries := [(3410, Some 3412); (3408, None)] |}.

(** The far edge of the zone. *)
Definition far_edge (sig : ParsedSignal) : Q :=
  if String.eqb (direction sig) "BUY" then zone_low sig else zone_high sig.

End Spec.

(* ================================================================== *)
(** * Properties *)

(* ------------------------------------------------------------------ *)
(** ** Rounding *)

(** Push [inject_Z] through sums so that [lra] sees the integer parts. *)
Ltac push_inject :=
  rewrite ?inject_Z_plus in *; change (inject_Z 1) with 1 in *.

Section Rounding.
Import PyNum.

Lemma round_half_even_comp (x y : Q) :
  x == y -> round_half_even x = round_half_even y.
Proof.
  intros E. unfold round_half_even.
  rewrite (Qfloor_comp _ _ E).
  assert (E' : x - inject_Z (Qfloor y) == y - inject_Z (Qfloor y)) by (rewrite E; reflexivity).
  rewrite (Qcompare_comp _ _ E' _ _ (Qeq_refl (1 # 2))). reflexivity.
Qed.

Lemma round_half_even_Z (z : Z) : round_half_even (inject_Z z) = z.
Proof.
  unfold round_half_even. rewrite Qfloor_Z.
  destruct (Qcompare_spec (inject_Z z - inject_Z z) (1 # 2)) as [C|C|C];
    try reflexivity; exfalso; lra.
Qed.

(** The rounded value is within one half of the argument. *)
Lemma round_half_even_bounds (x : Q) :
  x - (1 # 2) <= inject_Z (round_half_even x) <= x + (1 # 2).
Proof.
  unfold round_half_even.
  pose proof (Qfloor_le x) as Hl. pose proof (Qlt_floor x) as Hu.
  destruct (Qcompare_spec (x - inject_Z (Qfloor x)) (1 # 2)) as [C|C|C];
    [destruct (Z.even (Qfloor x))| |]; push_inject; lra.
Qed.

Lemma round_half_even_mono (x y : Q) :
  x <= y -> (round_half_even x <= round_half_even y)%Z.
Proof.
  intros L. unfold round_half_even.
  pose proof (Qfloor_resp_le _ _ L) as Hf.
  destruct (Z.eq_dec (Qfloor x) (Qfloor y)) as [E|N].
  - rewrite E.
    destruct (Qcompare_spec (x - inject_Z (Qfloor y)) (1 # 2)) as [Cx|Cx|Cx];
      destruct (Qcompare_spec (y - inject_Z (Qfloor y)) (1 # 2)) as [Cy|Cy|Cy];
      try (exfalso; lra);
      destruct (Z.even (Qfloor y)); lia.
  - assert (Qfloor x + 1 <= Qfloor y)%Z by lia.
    destruct (Qcompare (x - inject_Z (Qfloor x)) (1 # 2));
      destruct (Qcompare (y - inject_Z (Qfloor y)) (1 # 2));
      destruct (Z.even (Qfloor x)); destruct (Z.even (Qfloor y)); lia.
Qed.

Lemma Qfloor_shift (x : Q) (k : Z) : Qfloor (x + inject_Z k) = (Qfloor x + k)%Z.
Proof.
  pose proof (Qfloor_le x) as Hl. pose proof (Qlt_floor x) as Hu.
  pose proof (Qfloor_le (x + inject_Z k)) as Hl'.
  pose proof (Qlt_floor (x + inject_Z k)) as Hu'.
  assert (A : inject_Z (Qfloor (x + inject_Z k)) < inject_Z (Qfloor x + k + 1)).
  { push_inject. lra. }
  assert (B : inject_Z (Qfloor x + k) < inject_Z (Qfloor (x + inject_Z k) + 1)).
  { push_inject. lra. }
  rewrite <- Zlt_Qlt in A, B. lia.
Qed.

(** Shifting by an even integer commutes with rounding. *)
Lemma round_half_even_shift (x : Q) (k : Z) :
  Z.even k = true ->
  round_half_even (x + inject_Z k) = (round_half_even x + k)%Z.
Proof.
  intros Ev. unfold round_half_even. rewrite Qfloor_shift.
  assert (E : x + inject_Z k - inject_Z (Qfloor x + k) == x - inject_Z (Qfloor x)).
  { rewrite inject_Z_plus. ring. }
  rewrite (Qcompare_comp _ _ E _ _ (Qeq_refl (1 # 2))).
  rewrite Z.even_add, Ev.
  destruct (Qcompare (x - inject_Z (Qfloor x)) (1 # 2)); try lia.
  destruct (Z.even (Qfloor x)); simpl; lia.
Qed.

Lemma scale_pos (n : nat) : 0 < scale n.
Proof.
  unfold scale. replace 0 with (inject_Z 0) by reflexivity.
  rewrite <- Zlt_Qlt. apply Z.pow_pos_nonneg; lia.
Qed.

Lemma scale_neq0 (n : nat) : ~ scale n == 0.
Proof. pose proof (scale_pos n). lra. Qed.

Lemma py_round_val (x : Q) (n : nat) :
  py_round x n == inject_Z (round_half_even (x * scale n)) / scale n.
Proof. unfold py_round. apply Qred_correct. Qed.

Lemma py_round_comp (x y : Q) (n : nat) : x == y -> py_round x n = py_round y n.
Proof.
  intros E. unfold py_round. apply Qred_complete.
  rewrite (round_half_even_comp (x * scale n) (y * scale n)); [reflexivity|].
  rewrite E. reflexivity.
Qed.

Lemma Qred_inject_Z (z : Z) : Qred (inject_Z z) = inject_Z z.
Proof. apply Qcanon.Qred_identity. simpl. apply Z.gcd_1_r. Qed.

(** A whole number is its own rounding, at any precision. *)
Lemma py_round_Z (z : Z) (n : nat) : py_round (inject_Z z) n = inject_Z z.
Proof.
  rewrite <- (Qred_inject_Z z) at 2. unfold py_round. apply Qred_complete.
  unfold scale. rewrite <- inject_Z_mult, round_half_even_Z, inject_Z_mult.
  field. apply (scale_neq0 n).
Qed.

Lemma py_round_mono (x y : Q) (n : nat) : x <= y -> py_round x n <= py_round y n.
Proof.
  intros L. rewrite !py_round_val.
  pose proof (scale_pos n) as P.
  apply Qmult_le_compat_r; [|apply Qlt_le_weak, Qinv_lt_0_compat, P].
  rewrite <- Zle_Qle. apply round_half_even_mono.
  apply Qmult_le_compat_r; [exact L | lra].
Qed.

(** With at least one digit, moving by a whole number of price units
    commutes with rounding. *)
Lemma py_round_shift (x : Q) (k : Z) (n : nat) :
  (1 <= n)%nat -> py_round (x + inject_Z k) n == py_round x n + inject_Z k.
Proof.
  intros Hn. rewrite !py_round_val.
  assert (E : (x + inject_Z k) * scale n == x * scale n + inject_Z (k * 10 ^ Z.of_nat n)).
  { unfold scale. rewrite inject_Z_mult. ring. }
  rewrite (round_half_even_comp _ _ E), round_half_even_shift.
  - rewrite inject_Z_plus, inject_Z_mult. fold (scale n). field. apply scale_neq0.
  - rewrite Z.even_mul. apply orb_true_iff. right.
    replace (Z.of_nat n) with (Z.succ (Z.of_nat (n - 1))) by lia.
    rewrite Z.pow_succ_r by lia. rewrite Z.even_mul. reflexivity.
Qed.

(** A value with at most [n] decimals is its own rounding. *)
Lemma py_round_exact (z : Z) (n : nat) :
  py_round (inject_Z z / scale n) n == inject_Z z / scale n.
Proof.
  rewrite py_round_val.
  assert (E : inject_Z z / scale n * scale n == inject_Z z).
  { field. apply scale_neq0. }
  rewrite (round_half_even_comp _ _ E), round_half_even_Z. reflexivity.
Qed.

Lemma py_round_idem (x : Q) (n : nat) : py_round (py_round x n) n = py_round x n.
Proof.
  unfold py_round. apply Qred_complete.
  set (r := round_half_even (x * scale n)).
  rewrite (round_half_even_comp (Qred (inject_Z r / scale n) * scale n) (inject_Z r)).
  - rewrite round_half_even_Z. reflexivity.
  - rewrite Qred_correct. field. apply scale_neq0.
Qed.

End Rounding.

(* ------------------------------------------------------------------ *)
(** ** The ladder planner *)

Section Planner.
Import SignalParser Bot Spec.

Lemma Qle_bool_false (a b : Q) : Qle_bool a b = false <-> b < a.
Proof.
  split; intros H.
  - apply Qnot_le_lt. intros L. apply Qle_bool_iff in L. congruence.
  - destruct (Qle_bool a b) eqn:E; [|reflexivity].
    apply Qle_bool_iff in E. exfalso. lra.
Qed.

Lemma round_price_comp (mt : Terminal) (symbol : string) (x y : Q) :
  x == y -> round_price mt symbol x = round_price mt symbol y.
Proof. intros E. unfold round_price. apply py_round_comp, E. Qed.

Lemma round_price_digits (mt : Terminal) (symbol : string) (x : Q) :
  round_price mt symbol x = PyNum.py_round x (digits_of mt symbol).
Proof. reflexivity. Qed.

Lemma rung_count_S (lo p : Q) (n : nat) :
  rung_count lo p = S n -> lo - zone_eps <= p /\ rung_count lo (p - step) = n.
Proof.
  unfold rung_count, step. intros H.
  assert (F : (0 <= Qfloor (p - lo + zone_eps))%Z) by lia.
  split.
  - pose proof (Qfloor_le (p - lo + zone_eps)) as L.
    rewrite Zle_Qle in F. change (inject_Z 0) with 0 in F. lra.
  - assert (E : p - 1 - lo + zone_eps == p - lo + zone_eps + inject_Z (-1)).
    { change (inject_Z (-1)) with (-(1)). ring. }
    rewrite (Qfloor_comp _ _ E), Qfloor_shift. lia.
Qed.

Lemma rung_count_O (lo p : Q) : rung_count lo p = O -> p < lo - zone_eps.
Proof.
  unfold rung_count. intros H.
  assert (F : (Qfloor (p - lo + zone_eps) + 1 <= 0)%Z) by lia.
  pose proof (Qlt_floor (p - lo + zone_eps)) as L.
  rewrite Zle_Qle in F. change (inject_Z 0) with 0 in F. lra.
Qed.

Section Loops.
Variable rp : Q -> Q.
Hypothesis rp_comp : forall x y, x == y -> rp x = rp y.

(** With enough fuel the BUY loop ends by its own test, after
    [rung_count lo p] prices. *)
Lemma buy_prices_closed (lo : Q) (n : nat) :
  forall (p : Q) (k : nat),
    rung_count lo p = n ->
    buy_prices (S n + k) rp lo p
    = Some (map (fun i => rp (p - inject_Z (Z.of_nat i))) (seq 0 n)).
Proof.
  induction n as [|n IH]; intros p k H.
  - apply rung_count_O in H. simpl.
    apply Qle_bool_false in H. rewrite H. reflexivity.
  - apply rung_count_S in H. destruct H as [L H].
    change (S (S n) + k)%nat with (S (S n + k)).
    cbn [buy_prices]. apply Qle_bool_iff in L. rewrite L.
    rewrite (IH _ k H). cbn [seq map]. f_equal. f_equal.
    + apply rp_comp. change (inject_Z (Z.of_nat 0)) with 0. ring.
    + rewrite <- seq_shift, map_map. apply map_ext. intros i.
      apply rp_comp. rewrite Nat2Z.inj_succ. unfold Z.succ, step.
      push_inject. ring.
Qed.

Lemma sell_prices_closed (hi : Q) (n : nat) :
  forall (p : Q) (k : nat),
    rung_count p hi = n ->
    sell_prices (S n + k) rp hi p
    = Some (map (fun i => rp (p + inject_Z (Z.of_nat i))) (seq 0 n)).
Proof.
  induction n as [|n IH]; intros p k H.
  - unfold rung_count in H. simpl.
    assert (F : (Qfloor (hi - p + zone_eps) + 1 <= 0)%Z) by lia.
    pose proof (Qlt_floor (hi - p + zone_eps)) as L.
    rewrite Zle_Qle in F. change (inject_Z 0) with 0 in F.
    assert (G : hi + zone_eps < p) by lra.
    apply Qle_bool_false in G. rewrite G. reflexivity.
  - unfold rung_count in H.
    assert (F : (0 <= Qfloor (hi - p + zone_eps))%Z) by lia.
    assert (L : p <= hi + zone_eps).
    { pose proof (Qfloor_le (hi - p + zone_eps)) as L.
      rewrite Zle_Qle in F. change (inject_Z 0) with 0 in F. lra. }
    assert (H' : rung_count (p + step) hi = n).
    { unfold rung_count, step.
      assert (E : hi - (p + 1) + zone_eps == hi - p + zone_eps + inject_Z (-1)).
      { change (inject_Z (-1)) with (-(1)). ring. }
      rewrite (Qfloor_comp _ _ E), Qfloor_shift. lia. }
    change (S (S n) + k)%nat with (S (S n + k)).
    cbn [sell_prices]. apply Qle_bool_iff in L. rewrite L.
    rewrite (IH _ k H'). cbn [seq map]. f_equal. f_equal.
    + apply rp_comp. change (inject_Z (Z.of_nat 0)) with 0. ring.
    + rewrite <- seq_shift, map_map. apply map_ext. intros i.
      apply rp_comp. rewrite Nat2Z.inj_succ. unfold Z.succ, step.
      push_inject. ring.
Qed.
End Loops.

(** The prices of a plan, in closed form. *)
Lemma ladder_prices_closed (mt : Terminal) (symbol : string) (sig : ParsedSignal)
    (k : nat) :
  let n := rung_count (zone_low sig) (zone_high sig) in
  ladder_prices (S n + k) mt symbol sig
  = Some (map (fun i => round_price mt symbol (rung_offset sig i)) (seq 0 n)).
Proof.
  intros n. unfold ladder_prices, rung_offset.
  destruct (String.eqb (direction sig) "BUY").
  - apply buy_prices_closed; [apply round_price_comp | reflexivity].
  - apply sell_prices_closed; [apply round_price_comp | reflexivity].
Qed.

Lemma rungs_from_length (idx : nat) (prices tps : list Q) (vol : Q) :
  List.length (rungs_from idx prices tps vol) = List.length prices.
Proof.
  revert idx. induction prices as [|p ps IH]; intros idx; simpl; [|rewrite IH]; reflexivity.
Qed.

Lemma rungs_from_nth (prices tps : list Q) (vol : Q) :
  forall (idx i : nat),
    nth_error (rungs_from idx prices tps vol) i
    = option_map (fun p => {| r_price := p; r_lot := vol;
                              r_tp := nth_error tps (idx + i) |})
                 (nth_error prices i).
Proof.
  induction prices as [|p ps IH]; intros idx i.
  - destruct i; reflexivity.
  - destruct i as [|i]; simpl.
    + rewrite Nat.add_0_r. reflexivity.
    + rewrite IH. rewrite Nat.add_succ_r. reflexivity.
Qed.

Lemma rungs_from_prices (idx : nat) (prices tps : list Q) (vol : Q) :
  map r_price (rungs_from idx prices tps vol) = prices.
Proof.
  revert idx. induction prices as [|p ps IH]; intros idx; simpl; [|rewrite IH]; reflexivity.
Qed.

(** With enough fuel the planner returns, and this is its plan. *)
Lemma plan_closed (cfg : Config) (mt : Terminal) (symbol : string) (sig : ParsedSignal)
    (k : nat) :
  let n := rung_count (zone_low sig) (zone_high sig) in
  plan (S n + k) cfg mt symbol sig
  = Some (rungs_from 0
            (map (fun i => round_price mt symbol (rung_offset sig i)) (seq 0 n))
            (numeric_of (take_profits sig)) (vol_each cfg mt symbol sig)).
Proof.
  intros n. pose proof (ladder_prices_closed mt symbol sig k) as P.
  cbv zeta in P. fold n in P. unfold plan. rewrite P. reflexivity.
Qed.

End Planner.

(* ------------------------------------------------------------------ *)
(** ** End-to-end scenario, rung generation, take-profit assignment *)

Section PlannerProperties.
Import SignalParser Bot Spec.

Lemma nth_error_map_seq {A : Type} (f : nat -> A) (n i : nat) :
  (i < n)%nat -> nth_error (map f (seq 0 n)) i = Some (f i).
Proof.
  intros H. rewrite nth_error_map, nth_error_seq.
  apply Nat.ltb_lt in H. rewrite H. reflexivity.
Qed.

Lemma nth_error_map_seq_inv {A : Type} (f : nat -> A) (n i : nat) (a : A) :
  nth_error (map f (seq 0 n)) i = Some a -> (i < n)%nat /\ a = f i.
Proof.
  intros H.
  assert (L : (i < n)%nat).
  { assert (X : nth_error (map f (seq 0 n)) i <> None) by congruence.
    apply nth_error_Some in X. rewrite length_map, length_seq in X. exact X. }
  rewrite (nth_error_map_seq f n i L) in H. split; [exact L | congruence].
Qed.

Example fractional_text_parses : parse_signal fractional_text = Some fractional_signal.
Proof. vm_compute. reflexivity. Qed.

Example open_first_text_parses : parse_signal open_first_text = Some open_first_signal.
Proof. vm_compute. reflexivity. Qed.

(** C1.  The scenario message matches neither flexible format and
    parses to the BUY intent on XAUUSD with zone 3459..3463, stop 3455
    and take-profits 3465, 3470; on every terminal and for every symbol
    the plan of that intent has the five rungs 3463, 3462, 3461, 3460,
    3459, with take-profit 3465 on rung 0, 3470 on rung 1 and none on
    rungs 2 to 4. *)
Theorem end_to_end_scenario :
  (_parse_flexible_format1 scenario_text = None /\
   _parse_flexible_format2 scenario_text = None) /\
  parse_signal scenario_text = Some scenario_signal /\
  forall (cfg : Config) (mt : Terminal) (symbol : string) (k : nat),
  exists rungs : list Rung,
    plan (6 + k) cfg mt symbol scenario_signal = Some rungs /\
    map r_price rungs = [3463; 3462; 3461; 3460; 3459] /\
    map r_tp rungs = [Some 3465; Some 3470; None; None; None].
Proof.
  split; [split; vm_compute; reflexivity|].
  split; [vm_compute; reflexivity|].
  intros cfg mt symbol k. unfold plan.
  assert (N : rung_count (zone_low scenario_signal) (zone_high scenario_signal) = 5%nat)
    by (vm_compute; reflexivity).
  pose proof (ladder_prices_closed mt symbol scenario_signal k) as P.
  cbv zeta in P. rewrite N in P. change (6 + k)%nat with (5 + 1 + k)%nat.
  change (S 5 + k)%nat with (5 + 1 + k)%nat in P. rewrite P.
  eexists. split; [reflexivity|]. rewrite rungs_from_prices. split.
  - cbn [seq map]. unfold round_price.
    repeat match goal with
           | |- context [PyNum.py_round (rung_offset scenario_signal ?i) ?d] =>
               rewrite (py_round_comp (rung_offset scenario_signal i)
                          (inject_Z (3463 - Z.of_nat i)) d)
                 by (vm_compute; reflexivity);
               rewrite py_round_Z
           end.
    reflexivity.
  - reflexivity.
Qed.

(** C4 as stated fails: a BUY zone from 3459 to 3463.75 gets five
    rungs, not round(4.75) + 1 = 6. *)
Lemma rung_count_counterexample :
  ~ (forall (fuel : nat) (cfg : Config) (mt : Terminal) (symbol : string)
            (sig : ParsedSignal) (rungs : list Rung),
        zone_low sig <= zone_high sig ->
        plan fuel cfg mt symbol sig = Some rungs ->
        Z.of_nat (List.length rungs)
        = (PyNum.round_half_even (zone_high sig - zone_low sig) + 1)%Z).
Proof.
  intros H.
  specialize (H 10%nat default_config xau_terminal "XAUUSD"%string fractional_signal
                _ ltac:(vm_compute; discriminate) eq_refl).
  vm_compute in H. discriminate H.
Qed.

Lemma rung_count_whole (lo hi : Q) (w : Z) :
  hi - lo == inject_Z w -> (0 <= w)%Z ->
  rung_count lo hi = Z.to_nat (w + 1) /\ PyNum.round_half_even (hi - lo) = w.
Proof.
  intros E W. split.
  - unfold rung_count. f_equal. f_equal.
    pose proof (Qfloor_le (hi - lo + zone_eps)) as L.
    pose proof (Qlt_floor (hi - lo + zone_eps)) as U.
    assert (A : inject_Z (Qfloor (hi - lo + zone_eps)) < inject_Z (w + 1)).
    { push_inject. unfold zone_eps in *. lra. }
    assert (B : inject_Z w < inject_Z (Qfloor (hi - lo + zone_eps) + 1)).
    { push_inject. unfold zone_eps in *. lra. }
    rewrite <- Zlt_Qlt in A, B. lia.
  - rewrite (round_half_even_comp _ _ E). apply round_half_even_Z.
Qed.

(** C4, amended.  With enough fuel the planner returns a plan of
    exactly floor(hi - lo + 1e-9) + 1 rungs; rung i is priced at the
    rounding of hi - i (BUY) or lo + i (SELL) to the digits of the
    instrument; prices never rise along a BUY plan and never fall
    along a SELL plan, strictly so when the instrument has at least
    one digit; and when hi - lo is a whole number the count is
    round(hi - lo) + 1 and the last rung is the far edge. *)
Theorem rung_generation (cfg : Config) (mt : Terminal) (symbol : string)
    (sig : ParsedSignal) (k : nat) :
  let n := rung_count (zone_low sig) (zone_high sig) in
  exists rungs : list Rung,
    plan (S n + k) cfg mt symbol sig = Some rungs /\
    List.length rungs = n /\
    (forall i, (i < n)%nat ->
       option_map r_price (nth_error rungs i)
       = Some (round_price mt symbol (rung_offset sig i))) /\
    (forall i j a b, (i <= j)%nat ->
       nth_error (map r_price rungs) i = Some a ->
       nth_error (map r_price rungs) j = Some b -> in_order sig a b) /\
    ((1 <= digits_of mt symbol)%nat ->
     forall i j a b, (i < j)%nat ->
       nth_error (map r_price rungs) i = Some a ->
       nth_error (map r_price rungs) j = Some b -> strictly_in_order sig a b) /\
    (forall w : Z, zone_high sig - zone_low sig == inject_Z w -> (0 <= w)%Z ->
       Z.of_nat n = (PyNum.round_half_even (zone_high sig - zone_low sig) + 1)%Z /\
       nth_error (map r_price rungs) (n - 1)
       = Some (round_price mt symbol (far_edge sig))).
Proof.
  intros n. pose proof (plan_closed cfg mt symbol sig k) as P.
  cbv zeta in P. fold n in P. rewrite P.
  eexists. split; [reflexivity|]. rewrite rungs_from_prices.
  split; [|split; [|split; [|split]]].
  - rewrite rungs_from_length, length_map, length_seq. reflexivity.
  - intros i Hi. rewrite rungs_from_nth, (nth_error_map_seq _ n i Hi). reflexivity.
  - intros i j a b Hij Ha Hb.
    apply nth_error_map_seq_inv in Ha, Hb. destruct Ha as [_ ->], Hb as [_ ->].
    assert (Z : (Z.of_nat i <= Z.of_nat j)%Z) by lia.
    rewrite Zle_Qle in Z.
    unfold in_order, rung_offset. rewrite !round_price_digits.
    destruct (String.eqb (direction sig) "BUY"); apply py_round_mono; lra.
  - intros D i j a b Hij Ha Hb.
    apply nth_error_map_seq_inv in Ha, Hb. destruct Ha as [_ ->], Hb as [_ ->].
    assert (Z : (Z.of_nat i < Z.of_nat j)%Z) by lia.
    rewrite Zlt_Qlt in Z.
    unfold strictly_in_order, rung_offset. rewrite !round_price_digits.
    destruct (String.eqb (direction sig) "BUY").
    + rewrite (py_round_comp (zone_high sig - inject_Z (Z.of_nat j))
                 (zone_high sig + inject_Z (- Z.of_nat j))),
              (py_round_comp (zone_high sig - inject_Z (Z.of_nat i))
                 (zone_high sig + inject_Z (- Z.of_nat i)))
        by (rewrite inject_Z_opp; ring).
      rewrite !py_round_shift by exact D. rewrite !inject_Z_opp. lra.
    + rewrite !py_round_shift by exact D. lra.
  - intros w E W. destruct (rung_count_whole _ _ w E W) as [C R].
    fold n in C. split; [rewrite R, C; lia|].
    rewrite nth_error_map_seq by lia. f_equal. apply round_price_comp.
    unfold rung_offset, far_edge.
    replace (Z.of_nat (n - 1)) with w by lia.
    destruct (String.eqb (direction sig) "BUY"); lra.
Qed.

(** Without decimals two rungs can share a price: the zone from 3461.5
    to 3462.5 gives 3462 twice, both halves being rounded to the even
    neighbour. *)
Example whole_digit_prices_repeat :
  option_map (map r_price)
             (plan 3 default_config whole_terminal "US30" half_zone_signal)
  = Some [3462; 3462].
Proof. vm_compute. reflexivity. Qed.

(** C6 as stated fails: with take-profits [open, 3470] rung 0 gets
    3470, not the open marker that is element 0 of the list. *)
Lemma tp_assignment_counterexample :
  ~ (forall (fuel : nat) (cfg : Config) (mt : Terminal) (symbol : string)
            (sig : ParsedSignal) (rungs : list Rung) (i : nat) (r : Rung),
        plan fuel cfg mt symbol sig = Some rungs ->
        nth_error rungs i = Some r ->
        r_tp r = positional_tp (take_profits sig) i).
Proof.
  intros H.
  specialize (H 10%nat default_config xau_terminal "XAUUSD"%string open_first_signal
                _ 0%nat _ eq_refl eq_refl).
  vm_compute in H. discriminate H.
Qed.

Lemma numeric_of_all_numeric (tps : list (option Q)) (i : nat) :
  (forall tp, In tp tps -> tp <> None) ->
  nth_error (numeric_of tps) i = positional_tp tps i.
Proof.
  revert i. induction tps as [|tp tps IH]; intros i H.
  - destruct i; reflexivity.
  - destruct tp as [q|]; [|exfalso; apply (H None); [left; reflexivity | reflexivity]].
    destruct i as [|i]; [reflexivity|]. simpl. unfold positional_tp. simpl.
    apply IH. intros tp' I. apply H. right. exact I.
Qed.

(** C6, amended.  Rung i of a plan gets element i of the intent's
    numeric take-profits (the list with the open markers dropped, in
    order), and no take-profit when that list has fewer than i + 1
    elements; when the intent has no open marker this is element i of
    its take-profit list. *)
Theorem tp_assignment (fuel : nat) (cfg : Config) (mt : Terminal) (symbol : string)
    (sig : ParsedSignal) (rungs : list Rung) (i : nat) (r : Rung) :
  plan fuel cfg mt symbol sig = Some rungs ->
  nth_error rungs i = Some r ->
  r_tp r = nth_error (numeric_of (take_profits sig)) i /\
  ((forall tp, In tp (take_profits sig) -> tp <> None) ->
   r_tp r = positional_tp (take_profits sig) i).
Proof.
  unfold plan. intros P N.
  destruct (ladder_prices fuel mt symbol sig) as [prices|]; [|discriminate].
  injection P as <-. rewrite rungs_from_nth in N.
  destruct (nth_error prices i) as [p|]; [|discriminate].
  injection N as <-. cbn [r_tp Nat.add]. split; [reflexivity|].
  intros A. apply numeric_of_all_numeric, A.
Qed.

End PlannerProperties.

(* ------------------------------------------------------------------ *)
(** ** sorted(set(...)) *)

Section SortedSet.
Import PyNum Spec.

Lemma insert_by_In {A : Type} (le : A -> A -> bool) (x z : A) (l : list A) :
  In z (insert_by le x l) <-> z = x \/ In z l.
Proof.
  induction l as [|y l IH]; simpl.
  - intuition.
  - destruct (le y x); simpl; rewrite ?IH; intuition.
Qed.

Lemma fold_insert_In {A : Type} (le : A -> A -> bool) (z : A) (r : list A) :
  In z (fold_right (insert_by le) [] r) <-> In z r.
Proof.
  induction r as [|y r IH]; simpl; [tauto|].
  rewrite insert_by_In, IH. intuition.
Qed.

Lemma sorted_by_In {A : Type} (le : A -> A -> bool) (z : A) (l : list A) :
  In z (sorted_by le l) <-> In z l.
Proof.
  unfold sorted_by. rewrite fold_insert_In. symmetry. apply in_rev.
Qed.

Lemma insert_increasing (x : Q) (l : list Q) :
  StronglySorted Qlt l -> (forall y, In y l -> ~ y == x) ->
  StronglySorted Qlt (insert_by Qle_bool x l).
Proof.
  induction l as [|y l IH]; intros S D; simpl.
  - constructor; constructor.
  - inversion S as [|? ? S' F]; subst.
    destruct (Qle_bool y x) eqn:E.
    + constructor.
      * apply IH; [exact S'|]. intros z I. apply D. right. exact I.
      * apply Forall_forall. intros z I. apply insert_by_In in I.
        destruct I as [->|I].
        -- apply Qle_bool_iff in E.
           assert (N : ~ y == x) by (apply D; left; reflexivity).
           apply Qle_lt_or_eq in E. tauto.
        -- rewrite Forall_forall in F. apply F, I.
    + apply Qle_bool_false in E. constructor; [exact S|].
      constructor; [exact E|].
      rewrite Forall_forall in F |- *. intros z I.
      apply Qlt_trans with y; [exact E | apply F, I].
Qed.

Lemma distinct_app (a b : list Q) :
  distinct (a ++ b) <->
  distinct a /\ distinct b /\ (forall x y, In x a -> In y b -> ~ y == x).
Proof.
  induction a as [|x a IH]; simpl.
  - intuition.
  - rewrite IH. split.
    + intros [N [Da [Db C]]]. repeat split; auto.
      * intros y I. apply N, in_or_app. left. exact I.
      * intros x' y [<-|I] J; [apply N, in_or_app; right; exact J | apply C; assumption].
    + intros [[N Da] [Db C]]. repeat split; auto.
      intros y I. apply in_app_or in I. destruct I as [I|I]; [apply N, I|].
      apply C; [left; reflexivity | exact I].
Qed.

Lemma distinct_rev (l : list Q) : distinct l -> distinct (rev l).
Proof.
  induction l as [|x l IH]; simpl; [tauto|].
  intros [N D]. apply distinct_app.
  split; [apply IH, D|]. split; [simpl; split; [intros y []|exact I]|].
  intros a y I [<-|[]]. rewrite <- in_rev in I.
  intros E. apply (N a I). symmetry. exact E.
Qed.

Lemma fold_insert_increasing (r : list Q) :
  distinct r -> StronglySorted Qlt (fold_right (insert_by Qle_bool) [] r).
Proof.
  induction r as [|x r IH]; simpl.
  - constructor.
  - intros [N D]. apply insert_increasing; [apply IH, D|].
    intros y I. apply fold_insert_In in I. apply N, I.
Qed.

Lemma sorted_by_increasing (l : list Q) :
  distinct l -> StronglySorted Qlt (py_sorted l).
Proof. intros D. apply fold_insert_increasing, distinct_rev, D. Qed.

Lemma mem_true (x : Q) (l : list Q) : mem x l = true <-> exists y, In y l /\ y == x.
Proof.
  unfold mem. rewrite existsb_exists. split; intros [y [I E]]; exists y; split; auto.
  - apply Qeq_bool_iff in E. symmetry. exact E.
  - apply Qeq_bool_iff. symmetry. exact E.
Qed.

Lemma dedup_In (seen l : list Q) (z : Q) : In z (dedup seen l) -> In z l.
Proof.
  revert seen. induction l as [|x l IH]; intros seen; simpl; [tauto|].
  destruct (mem x seen); simpl; intros H.
  - right. eapply IH, H.
  - destruct H as [H|H]; [left; exact H | right; eapply IH, H].
Qed.

Lemma dedup_fresh (seen l : list Q) (z y : Q) :
  In z (dedup seen l) -> In y seen -> ~ z == y.
Proof.
  revert seen. induction l as [|x l IH]; intros seen; simpl; [tauto|].
  destruct (mem x seen) eqn:M; simpl.
  - apply IH.
  - intros [<-|H] I.
    + intros E. assert (T : mem x seen = true).
      { apply mem_true. exists y. split; [exact I | symmetry; exact E]. }
      congruence.
    + apply (IH (x :: seen)); [exact H | right; exact I].
Qed.

Lemma dedup_distinct (seen l : list Q) : distinct (dedup seen l).
Proof.
  revert seen. induction l as [|x l IH]; intros seen; simpl; [exact I|].
  destruct (mem x seen); [apply IH|]. simpl. split; [|apply IH].
  intros y H. apply (dedup_fresh (x :: seen) l y x H). left. reflexivity.
Qed.

Lemma dedup_complete (seen l : list Q) (x : Q) :
  In x l -> exists y, (In y seen \/ In y (dedup seen l)) /\ y == x.
Proof.
  revert seen. induction l as [|a l IH]; intros seen; simpl; [tauto|].
  intros [->|H].
  - destruct (mem x seen) eqn:M.
    + apply mem_true in M. destruct M as [y [I E]]. exists y. tauto.
    + exists x. split; [right; left; reflexivity | reflexivity].
  - destruct (mem a seen) eqn:M.
    + apply IH, H.
    + destruct (IH (a :: seen) H) as [y [[[<-|I]|I] E]].
      * exists a. split; [right; left; reflexivity | exact E].
      * exists y. tauto.
      * exists y. split; [right; right; exact I | exact E].
Qed.

(** [sorted(set(l))] is strictly increasing, holds only elements of
    [l], and holds every element of [l] up to numeric equality. *)
Lemma sorted_set_increasing (l : list Q) : StronglySorted Qlt (sorted_set l).
Proof. apply sorted_by_increasing, dedup_distinct. Qed.

Lemma sorted_set_sound (l : list Q) (z : Q) : In z (sorted_set l) -> In z l.
Proof. intros H. apply sorted_by_In in H. eapply dedup_In, H. Qed.

Lemma sorted_set_complete (l : list Q) (x : Q) :
  In x l -> exists y, In y (sorted_set l) /\ y == x.
Proof.
  intros H. destruct (dedup_complete [] l x H) as [y [[[]|I] E]].
  exists y. split; [apply sorted_by_In; exact I | exact E].
Qed.

Lemma sorted_set_nonempty (l : list Q) : l <> [] -> sorted_set l <> [].
Proof.
  destruct l as [|x l]; [congruence|]. intros _ E.
  destruct (sorted_set_complete (x :: l) x (or_introl eq_refl)) as [y [I _]].
  rewrite E in I. exact I.
Qed.

End SortedSet.

(* ------------------------------------------------------------------ *)
(** ** The trailing pass *)

Section Trailing.
Import SignalParser Bot Spec.

Lemma filter_length_le {A : Type} (f : A -> bool) (l : list A) :
  (List.length (filter f l) <= List.length l)%nat.
Proof.
  induction l as [|x l IH]; simpl; [lia|]. destruct (f x); simpl; lia.
Qed.

Lemma achieved_le (direction : string) (current : Q) (l : list Q) :
  (achieved direction current l <= List.length l)%nat.
Proof.
  unfold achieved. destruct (String.eqb direction "BUY"); apply filter_length_le.
Qed.

(** The pass on one position, in terms of its stages. *)
Lemma trail_position_stages (cfg : Config) (mt : Terminal) (d : ladders)
    (p : Position) (tick : Tick) (ladder : list Q) :
  symbol_info_tick mt (p_symbol p) = Some tick ->
  ladders_get d (p_symbol p, position_direction p) = Some ladder ->
  ladder <> [] ->
  let current := reference_price p tick in
  let ladder_sorted := PyNum.sorted_set ladder in
  trail_position cfg mt d p
  = match target_stop p (achieved (position_direction p) current ladder_sorted)
                      ladder_sorted with
    | None => None
    | Some t =>
        option_map (fun sl => Sltp (p_ticket p) (p_symbol p) sl (p_tp p) (MAGIC cfg))
                   (guarded_stop mt p current (round_price mt (p_symbol p) t))
    end.
Proof.
  intros T L N. unfold trail_position. rewrite T, L.
  destruct ladder as [|x l]; [congruence|]. cbn [nonempty_list].
  destruct (target_stop _ _ _); [|reflexivity].
  destruct (guarded_stop _ _ _ _); reflexivity.
Qed.

(** C2.  For a position with a live tick and a recorded, non-empty
    ladder: the ladder used is strictly increasing; [achieved] counts
    its levels the reference price has reached (at or above the level
    for BUY, at or below it otherwise); with none reached nothing is
    sent; with one reached the target is the entry price; with two or
    more it is the level at index achieved - 2, which exists.  With
    the ladder 10, 20, 30 and a bid of exactly 20, two levels count
    and the target is 10. *)
Theorem trailing_target :
  (forall (cfg : Config) (mt : Terminal) (d : ladders) (p : Position) (tick : Tick)
          (ladder : list Q),
      symbol_info_tick mt (p_symbol p) = Some tick ->
      ladders_get d (p_symbol p, position_direction p) = Some ladder ->
      ladder <> [] ->
      let current := reference_price p tick in
      let ladder_sorted := PyNum.sorted_set ladder in
      let n := achieved (position_direction p) current ladder_sorted in
      StronglySorted Qlt ladder_sorted /\
      n = List.length
            (filter (fun tp => if String.eqb (position_direction p) "BUY"
                               then Qle_bool tp current else Qle_bool current tp)
                    ladder_sorted) /\
      (n = 0%nat -> trail_position cfg mt d p = None) /\
      (n = 1%nat ->
       trail_position cfg mt d p
       = option_map (fun sl => Sltp (p_ticket p) (p_symbol p) sl (p_tp p) (MAGIC cfg))
           (guarded_stop mt p current (round_price mt (p_symbol p) (p_price_open p)))) /\
      ((2 <= n)%nat ->
       exists level,
         nth_error ladder_sorted (n - 2) = Some level /\
         trail_position cfg mt d p
         = option_map (fun sl => Sltp (p_ticket p) (p_symbol p) sl (p_tp p) (MAGIC cfg))
             (guarded_stop mt p current (round_price mt (p_symbol p) level)))) /\
  (achieved "BUY" 20 (PyNum.sorted_set [10; 20; 30]) = 2%nat /\
   target_stop boundary_position 2 (PyNum.sorted_set [10; 20; 30]) = Some 10 /\
   trail_position default_config boundary_terminal boundary_ladders boundary_position
   = Some (Sltp 1 "XAUUSD" 10 0 777001)).
Proof.
  split; [|vm_compute; repeat split; reflexivity].
  intros cfg mt d p tick ladder T L N current ladder_sorted n.
  pose proof (trail_position_stages cfg mt d p tick ladder T L N) as S.
  cbv zeta in S. fold current ladder_sorted n in S.
  split; [apply sorted_set_increasing|].
  split; [unfold n, achieved; destruct (String.eqb _ _); reflexivity|].
  split; [|split].
  - intros E. rewrite S, E. reflexivity.
  - intros E. rewrite S, E. reflexivity.
  - intros G. pose proof (achieved_le (position_direction p) current ladder_sorted) as B.
    fold n in B.
    destruct (nth_error ladder_sorted (n - 2)) as [level|] eqn:X.
    + exists level. split; [reflexivity|]. rewrite S.
      destruct n as [|[|m]]; [lia | lia |]. cbn [target_stop].
      rewrite (nth_error_nth _ _ 0 X). reflexivity.
    + apply nth_error_None in X. lia.
Qed.

(** The first guard: a BUY update is dropped when the target is not
    above the current stop by more than [1e-7]; a SELL update is
    dropped when a stop is set and the target is not below it by more
    than [1e-7]. *)
Lemma guard_rejects (mt : Terminal) (p : Position) (current new_sl : Q) :
  (position_direction p = "BUY"%string -> new_sl <= p_sl p + trail_eps ->
   guarded_stop mt p current new_sl = None) /\
  (position_direction p <> "BUY"%string -> 0 < p_sl p -> p_sl p - trail_eps <= new_sl ->
   guarded_stop mt p current new_sl = None).
Proof.
  unfold guarded_stop. split.
  - intros D L. rewrite D. cbn [String.eqb Ascii.eqb Bool.eqb].
    apply Qle_bool_iff in L. rewrite L. reflexivity.
  - intros D P L. destruct (String.eqb_spec (position_direction p) "BUY"); [tauto|].
    apply Qle_bool_iff in L. rewrite L. unfold Qlt_bool.
    apply Qle_bool_false in P. rewrite P. reflexivity.
Qed.

(** Without the clamp the stop sent for a BUY position is above the
    current one. *)
Lemma buy_stop_tightens_unclamped (mt : Terminal) (p : Position)
    (current new_sl sl : Q) :
  position_direction p = "BUY"%string -> new_sl < current ->
  guarded_stop mt p current new_sl = Some sl -> p_sl p < sl.
Proof.
  unfold guarded_stop. intros D C. rewrite D. cbn [String.eqb Ascii.eqb Bool.eqb].
  destruct (Qle_bool new_sl (p_sl p + trail_eps)) eqn:G; [discriminate|].
  apply Qle_bool_false in G, C. rewrite C. intros [= <-].
  unfold trail_eps in G. lra.
Qed.

(** C3, an input on which the stop of a BUY position is lowered.  The position
    [stale_position] has its stop at 3465.99 and the bid is 3466.00;
    one level of the ladder is reached, so the target is the entry
    price 3470, which passes the first guard, lies above the bid and
    is clamped to 3465.98: the request sent lowers the stop. *)
Theorem trailing_clamp_lowers_stop :
  exists sl : Q,
    sl == 346598 # 100 /\
    trail_position default_config stale_terminal stale_ladders stale_position
    = Some (Sltp 7 "XAUUSD" sl 0 777001) /\
    maintain_trailing_stops default_config stale_terminal
      {| TP_LADDERS := stale_ladders; tp_file := NoFile; last_signal := None |}
    = [OrderSend (Sltp 7 "XAUUSD" sl 0 777001)] /\
    p_sl (trailing_tick default_config stale_terminal stale_ladders stale_position)
    = sl /\
    sl < p_sl stale_position.
Proof.
  exists (173299 # 50). repeat split; vm_compute; reflexivity.
Qed.

End Trailing.

(* ------------------------------------------------------------------ *)
(** ** Ownership filters and symbol resolution *)

Section Ownership.
Import SignalParser Bot Spec.

(** What [cancel_all_pending] selects when it filters. *)
Lemma to_cancel_ours (cfg : Config) (mt : Terminal) (symbol : option string) (o : Order) :
  In o (to_cancel cfg mt symbol false) ->
  o_magic o = MAGIC cfg
  \/ PyStr.startswith (o_comment o) "ForeAi-" = true
  \/ PyStr.startswith (o_comment o) "MazharBot-" = true.
Proof.
  unfold to_cancel. cbv zeta. intros I. apply filter_In in I. destruct I as [_ I].
  unfold ours_order in I.
  apply orb_true_iff in I. destruct I as [I|I]; [|tauto].
  apply orb_true_iff in I. destruct I as [I|I]; [|tauto].
  left. apply Z.eqb_eq, I.
Qed.

(** What [close_all_positions] selects when it filters: the magic
    number alone decides. *)
Lemma to_close_magic_only (cfg : Config) (mt : Terminal) (symbol : option string)
    (only_profit : option bool) (p : Position) :
  In p (to_close cfg mt symbol false only_profit) -> p_magic p = MAGIC cfg.
Proof.
  unfold to_close. intros I. apply filter_In in I. destruct I as [_ I].
  unfold selected_position in I. cbn [negb andb] in I.
  destruct (Z.eqb_spec (p_magic p) (MAGIC cfg)); [assumption | discriminate].
Qed.

(** C5, an input on which the two filters differ.  An order and a
    position both carry the comment "ForeAi-BUY" and a magic number
    that is not the configured one: [cancel_all_pending] selects the
    order, [close_all_positions] selects nothing and sends nothing. *)
Theorem ownership_filters_differ :
  o_comment branded_order = p_comment branded_position /\
  o_magic branded_order = p_magic branded_position /\
  to_cancel default_config branded_terminal None false = [branded_order] /\
  to_close default_config branded_terminal None false None = [] /\
  close_all_positions default_config branded_terminal None false None = (0%nat, []).
Proof. repeat split. Qed.

Lemma first_known_spec (mt : Terminal) (cand : list string) :
  match first_known mt cand with
  | Some (r, _) => first_recognized mt cand r
  | None => Forall (unknown mt) cand
  end.
Proof.
  induction cand as [|s rest IH]; simpl; [constructor|].
  destruct (symbol_info mt s) eqn:E.
  - exists [], rest. repeat split; [congruence | constructor].
  - destruct (first_known mt rest) as [[r c]|].
    + destruct IH as [pre [post [-> [K U]]]].
      exists (s :: pre), post. repeat split; [exact K | constructor; assumption].
    + constructor; assumption.
Qed.

Lemma nonempty_append (a b : string) :
  (if nonempty b then a ++ b else a)%string = (a ++ b)%string.
Proof.
  unfold nonempty. destruct (String.eqb_spec b EmptyString) as [->|]; [|reflexivity].
  simpl. induction a as [|c a IH]; simpl; [reflexivity | rewrite <- IH; reflexivity].
Qed.

(** C8 as stated fails twice: the suffixed symbol is tried before the
    literal one, and when no candidate is known the default symbol is
    returned although the terminal does not know it. *)
Lemma symbol_resolution_counterexample :
  (symbol_info both_terminal "XAUUSD" <> None /\
   fst (resolve_symbol suffix_config both_terminal "XAUUSD") = "XAUUSDm"%string) /\
  symbol_info blank_terminal (fst (resolve_symbol default_config blank_terminal "EURUSD"))
  = None.
Proof. repeat split. vm_compute. discriminate. Qed.

(** C8, amended.  The non-strict resolver tries the symbol with the
    suffix, then the literal symbol, then the default symbol, and
    returns the first one the terminal knows; when it knows none it
    returns the default symbol all the same.  The strict resolver
    tries the trimmed, upper-cased symbol with the suffix and then
    without it, returns the first one the terminal knows and reports
    absence otherwise, so it never returns an unknown symbol. *)
Theorem symbol_resolution (cfg : Config) (mt : Terminal) (sig_symbol : string) :
  let base := PyStr.upper (PyStr.strip sig_symbol) in
  resolve_candidates cfg sig_symbol
  = [(sig_symbol ++ SYMBOL_SUFFIX cfg)%string; sig_symbol; SYMBOL_DEFAULT cfg] /\
  (first_recognized mt (resolve_candidates cfg sig_symbol)
                    (fst (resolve_symbol cfg mt sig_symbol))
   \/ (Forall (unknown mt) (resolve_candidates cfg sig_symbol)
       /\ fst (resolve_symbol cfg mt sig_symbol) = SYMBOL_DEFAULT cfg)) /\
  strict_candidates cfg base = [(base ++ SYMBOL_SUFFIX cfg)%string; base] /\
  match fst (resolve_symbol_strict cfg mt sig_symbol) with
  | Some r => base <> EmptyString /\ first_recognized mt (strict_candidates cfg base) r
  | None => base = EmptyString \/ Forall (unknown mt) (strict_candidates cfg base)
  end.
Proof.
  intros base. split; [|split; [|split]].
  - unfold resolve_candidates. rewrite nonempty_append. reflexivity.
  - unfold resolve_symbol.
    pose proof (first_known_spec mt (resolve_candidates cfg sig_symbol)) as S.
    destruct (first_known mt (resolve_candidates cfg sig_symbol)) as [[r c]|].
    + left. exact S.
    + right. split; [exact S | reflexivity].
  - unfold strict_candidates. rewrite nonempty_append. reflexivity.
  - unfold resolve_symbol_strict. fold base. unfold nonempty.
    destruct (String.eqb_spec base EmptyString) as [E|E]; cbn [negb fst].
    + left. exact E.
    + pose proof (first_known_spec mt (strict_candidates cfg base)) as S.
      destruct (first_known mt (strict_candidates cfg base)) as [[r c]|]; cbn [fst].
      * split; assumption.
      * right. exact S.
Qed.

End Ownership.

(* ------------------------------------------------------------------ *)
(** ** Lot snapping *)

Section LotSnap.
Import Bot Spec PyNum.

Lemma Qlt_bool_true (a b : Q) : Qlt_bool a b = true <-> a < b.
Proof.
  unfold Qlt_bool. rewrite negb_true_iff. apply Qle_bool_false.
Qed.

Lemma Qlt_bool_false (a b : Q) : Qlt_bool a b = false <-> b <= a.
Proof.
  unfold Qlt_bool. rewrite negb_false_iff. apply Qle_bool_iff.
Qed.

(** Decide every comparison of the goal and keep the outcome as a
    hypothesis. *)
Ltac compare_all :=
  repeat match goal with
         | |- context [Qlt_bool ?a ?b] =>
             let E := fresh "C" in
             destruct (Qlt_bool a b) eqn:E;
             [apply Qlt_bool_true in E | apply Qlt_bool_false in E]
         | H : context [Qlt_bool ?a ?b] |- _ =>
             let E := fresh "C" in
             destruct (Qlt_bool a b) eqn:E;
             [apply Qlt_bool_true in E | apply Qlt_bool_false in E]
         end.

Lemma or_default_nonzero (x d : Q) : ~ x == 0 -> or_default x d = x.
Proof.
  intros N. unfold or_default. destruct (Qeq_bool x 0) eqn:E; [|reflexivity].
  apply Qeq_bool_iff in E. contradiction.
Qed.

Lemma hundredths_pos (k : Z) : (0 < k)%Z -> 0 < hundredths k.
Proof.
  intros K. unfold hundredths. apply Qlt_shift_div_l; [reflexivity|].
  rewrite Zlt_Qlt in K. change (inject_Z 0) with 0 in K. lra.
Qed.

Lemma hundredths_le (a b : Z) : (a <= b)%Z -> hundredths a <= hundredths b.
Proof.
  intros L. unfold hundredths. rewrite Zle_Qle in L.
  apply Qmult_le_compat_r; [exact L | discriminate].
Qed.

Lemma py_round_hundredths (q : Q) (k : Z) : q == hundredths k -> py_round q 2 == q.
Proof.
  intros E. rewrite (py_round_comp q (inject_Z k / scale 2) 2) by exact E.
  rewrite py_round_exact. symmetry. exact E.
Qed.

Lemma whole_steps_bounds (step x : Q) :
  0 < step -> whole_steps step x <= x /\ x < whole_steps step x + step.
Proof.
  intros P. unfold whole_steps.
  pose proof (Qfloor_le (x / step)) as L. pose proof (Qlt_floor (x / step)) as U.
  assert (E : x / step * step == x) by (field; lra).
  split.
  - rewrite <- E at 2. apply Qmult_le_compat_r; [exact L | lra].
  - apply (Qmult_lt_compat_r _ _ step P) in U. rewrite E in U.
    push_inject. lra.
Qed.

Lemma whole_steps_exact (step : Q) (t : Z) (x : Q) :
  0 < step -> x == inject_Z t * step -> whole_steps step x == x.
Proof.
  intros P E. unfold whole_steps.
  assert (D : x / step == inject_Z t) by (rewrite E; field; lra).
  rewrite (Qfloor_comp _ _ D), Qfloor_Z. symmetry. exact E.
Qed.

(** [int(lot / step) * step] against the floor: equal for a lot that
    is not negative, and not above zero otherwise. *)
Lemma trunc_steps (step x : Q) :
  0 < step ->
  inject_Z (py_trunc (x / step)) * step == whole_steps step x
  \/ (inject_Z (py_trunc (x / step)) * step <= 0 /\ whole_steps step x < 0).
Proof.
  intros P. unfold py_trunc.
  destruct (Qle_bool 0 (x / step)) eqn:E; [left; reflexivity|].
  apply Qle_bool_false in E. right.
  assert (X : x < 0).
  { assert (D : x / step * step == x) by (field; lra).
    rewrite <- D. apply (Qmult_lt_compat_r _ _ step P) in E. lra. }
  split.
  - pose proof (Qceiling_lt (x / step)) as C.
    assert (Z : (Qceiling (x / step) <= 0)%Z).
    { assert (Z : inject_Z (Qceiling (x / step) - 1) < inject_Z 0)
        by (change (inject_Z 0) with 0; lra).
      rewrite <- Zlt_Qlt in Z. lia. }
    rewrite Zle_Qle in Z. change (inject_Z 0) with 0 in Z.
    apply (Qmult_le_compat_r _ _ step) in Z; lra.
  - pose proof (whole_steps_bounds step x P). lra.
Qed.

Lemma clamp_comp (lo hi u v : Q) : u == v -> clamp lo hi u == clamp lo hi v.
Proof. intros E. unfold clamp. compare_all; lra. Qed.

Lemma clamp_bounds (lo hi v : Q) : lo <= hi -> lo <= clamp lo hi v <= hi.
Proof. intros L. unfold clamp. compare_all; lra. Qed.

Section Regular.
Variables (mt : Terminal) (symbol : string) (info : SymbolInfo).
Hypothesis known : symbol_info mt symbol = Some info.
Hypothesis regular : regular_volumes info.

Lemma regular_order :
  0 < volume_step info /\ 0 < volume_min info /\ volume_min info <= volume_max info.
Proof.
  destruct regular as (s & a & b & m & S & A & B & M & Es & Ea & Eb).
  pose proof (hundredths_pos s S). pose proof (hundredths_pos a A).
  pose proof (hundredths_le a b B). lra.
Qed.

(** The value of [adjust_lot_for_symbol] on a regular instrument. *)
Lemma adjust_lot_value (x : Q) :
  adjust_lot_for_symbol mt symbol x
  == snap_spec (volume_step info) (volume_min info) (volume_max info) x.
Proof.
  destruct regular_order as (Ps & Pl & Lh).
  destruct regular as (s & a & b & m & S & A & B & M & Es & Ea & Eb).
  unfold adjust_lot_for_symbol. rewrite known.
  rewrite !or_default_nonzero by lra.
  set (step := volume_step info) in *. set (lo := volume_min info) in *.
  set (hi := volume_max info) in *.
  set (adj := inject_Z (py_trunc (x / step)) * step).
  assert (H : exists k, adj == hundredths k).
  { exists (py_trunc (x / step) * s)%Z. unfold adj.
    apply Qeq_trans with (inject_Z (py_trunc (x / step)) * hundredths s).
    - apply Qmult_comp; [reflexivity | exact Es].
    - unfold hundredths. rewrite inject_Z_mult. field. }
  destruct H as [k Ek].
  assert (R : forall v, v == adj \/ v == lo \/ v == hi -> py_round v 2 == v).
  { intros v [E|[E|E]].
    - apply (py_round_hundredths v k). rewrite E. exact Ek.
    - apply (py_round_hundredths v a). rewrite E. exact Ea.
    - apply (py_round_hundredths v b). rewrite E. exact Eb. }
  unfold snap_spec, clamp.
  destruct (trunc_steps step x Ps) as [T|[T1 T2]]; fold adj in T || fold adj in T1;
    compare_all; rewrite R by (auto using Qeq_refl); lra.
Qed.

Lemma snap_spec_idempotent (x : Q) :
  snap_spec (volume_step info) (volume_min info) (volume_max info)
    (snap_spec (volume_step info) (volume_min info) (volume_max info) x)
  == snap_spec (volume_step info) (volume_min info) (volume_max info) x.
Proof.
  destruct regular_order as (Ps & Pl & Lh).
  destruct regular as (s & a & b & m & S & A & B & M & Es & Ea & Eb).
  set (step := volume_step info) in *. set (lo := volume_min info) in *.
  set (hi := volume_max info) in *.
  unfold snap_spec at 2. unfold clamp.
  destruct (Qlt_bool (whole_steps step x) lo) eqn:C1.
  - (* raised to the minimum *)
    pose proof (whole_steps_bounds step lo Ps) as [W _].
    unfold snap_spec, clamp. compare_all; lra.
  - destruct (Qlt_bool hi (whole_steps step x)) eqn:C2.
    + (* capped at the maximum, a whole number of steps *)
      assert (W : whole_steps step hi == hi).
      { apply (whole_steps_exact step m hi Ps).
        apply Qeq_trans with (hundredths b); [exact Eb|].
        apply Qeq_trans with (inject_Z m * hundredths s).
        - rewrite M. unfold hundredths. rewrite inject_Z_mult. field.
        - apply Qmult_comp; [reflexivity | symmetry; exact Es]. }
      unfold snap_spec, clamp. compare_all; lra.
    + assert (W : whole_steps step (whole_steps step x) == whole_steps step x).
      { apply (whole_steps_exact step (Qfloor (x / step)) _ Ps). reflexivity. }
      apply Qlt_bool_false in C1, C2.
      unfold snap_spec, clamp. compare_all; lra.
Qed.

Lemma snap_spec_comp (x y : Q) :
  x == y ->
  snap_spec (volume_step info) (volume_min info) (volume_max info) x
  == snap_spec (volume_step info) (volume_min info) (volume_max info) y.
Proof.
  intros E. unfold snap_spec. apply clamp_comp. unfold whole_steps.
  assert (D : x / volume_step info == y / volume_step info) by (rewrite E; reflexivity).
  rewrite (Qfloor_comp _ _ D). reflexivity.
Qed.
End Regular.

Lemma adjust_lot_reduced (mt : Terminal) (symbol : string) (x : Q) :
  Qred (adjust_lot_for_symbol mt symbol x) = adjust_lot_for_symbol mt symbol x.
Proof.
  unfold adjust_lot_for_symbol.
  destruct (symbol_info mt symbol); unfold py_round; apply Qcanon.Qred_involutive.
Qed.

(** In binary64 the quotient 0.29 / 0.01 falls just under 29, so the
    lot 0.29 is cut to 0.28 on an instrument with step 0.01, and
    snapping 0.295 twice gives 0.28 where snapping it once gives 0.29.
    In exact arithmetic neither happens. *)
Lemma binary64_quotient_slip :
  Binary64.to_int (Binary64.div (Binary64.of_decimal 29 2) (Binary64.of_decimal 1 2)) = 28%Z /\
  Binary64.snap_hundredths (Binary64.of_decimal 29 2) = Binary64.of_decimal 28 2 /\
  Binary64.snap_hundredths (Binary64.of_decimal 295 3) = Binary64.of_decimal 29 2 /\
  Binary64.snap_hundredths (Binary64.snap_hundredths (Binary64.of_decimal 295 3))
  = Binary64.of_decimal 28 2.
Proof. repeat split; vm_compute; reflexivity. Qed.

(** C7 as stated fails: on an instrument with a volume step and a
    minimum of 0.001 lot, the lot 0.001 is snapped to 0, below the
    minimum. *)
Lemma lot_snap_counterexample :
  ~ (forall (mt : Terminal) (symbol : string) (info : SymbolInfo) (x : Q),
        symbol_info mt symbol = Some info ->
        volume_min info <= adjust_lot_for_symbol mt symbol x <= volume_max info).
Proof.
  intros H.
  destruct (H fine_terminal "BTCUSD"%string fine_info (1 # 1000) eq_refl) as [L _].
  vm_compute in L. apply L. reflexivity.
Qed.

(** A maximum that is not a whole number of steps is not kept by a
    second snapping: with step 0.03 and maximum 1 the lot 5 is capped
    at 1, and 1 is then cut down to 0.99. *)
Example uneven_maximum_not_idempotent :
  adjust_lot_for_symbol uneven_terminal "X" 5 = 1 /\
  adjust_lot_for_symbol uneven_terminal "X" 1 = 99 # 100.
Proof. split; vm_compute; reflexivity. Qed.

(** C7, amended.  On an instrument whose volume step, minimum and
    maximum are positive whole numbers of hundredths of a lot, with
    the minimum not above the maximum and the maximum a whole number
    of steps, the snapped lot is the lot cut down to a whole number of
    steps and then clamped between minimum and maximum; it is never
    above the raw lot unless it is the minimum; it lies between
    minimum and maximum; and snapping it again changes nothing. *)
Theorem lot_snap (mt : Terminal) (symbol : string) (info : SymbolInfo) (x : Q) :
  symbol_info mt symbol = Some info ->
  regular_volumes info ->
  let snap := adjust_lot_for_symbol mt symbol in
  snap x == snap_spec (volume_step info) (volume_min info) (volume_max info) x /\
  (whole_steps (volume_step info) x <= x
   /\ x < whole_steps (volume_step info) x + volume_step info) /\
  (snap x <= x \/ snap x == volume_min info) /\
  volume_min info <= snap x <= volume_max info /\
  snap (snap x) = snap x.
Proof.
  intros K R snap.
  destruct (regular_order info R) as (Ps & Pl & Lh).
  pose proof (adjust_lot_value mt symbol info K R) as V. fold snap in V.
  pose proof (whole_steps_bounds (volume_step info) x Ps) as W.
  pose proof (clamp_bounds (volume_min info) (volume_max info)
                (whole_steps (volume_step info) x) Lh) as B.
  fold (snap_spec (volume_step info) (volume_min info) (volume_max info) x) in B.
  split; [apply V|]. split; [exact W|]. split; [|split].
  - rewrite (V x). unfold snap_spec, clamp. compare_all; [right; reflexivity | left; lra ..].
  - rewrite (V x). exact B.
  - unfold snap. rewrite <- (adjust_lot_reduced mt symbol (adjust_lot_for_symbol mt symbol x)).
    rewrite <- (adjust_lot_reduced mt symbol x) at 2. apply Qred_complete.
    set (spec := snap_spec (volume_step info) (volume_min info) (volume_max info)).
    apply Qeq_trans with (spec (adjust_lot_for_symbol mt symbol x)); [apply V|].
    apply Qeq_trans with (spec (spec x)); [apply (snap_spec_comp info), V|].
    apply Qeq_trans with (spec x); [apply (snap_spec_idempotent info R)|].
    symmetry. apply V.
Qed.

End LotSnap.

(* ------------------------------------------------------------------ *)
(** ** Dictionaries *)

Section DictFacts.
Context {K V : Type} (eqb : K -> K -> bool).
Hypothesis eqb_eq : forall a b, eqb a b = true <-> a = b.

Lemma eqb_refl (a : K) : eqb a a = true.
Proof. apply eqb_eq. reflexivity. Qed.

Lemma eqb_neq (a b : K) : a <> b -> eqb a b = false.
Proof.
  intros N. destruct (eqb a b) eqn:E; [|reflexivity]. apply eqb_eq in E. contradiction.
Qed.

Lemma get_set_same (k : K) (v : V) (d : Dict.dict K V) :
  Dict.get eqb k (Dict.set eqb k v d) = Some v.
Proof.
  induction d as [|[k' v'] d IH]; simpl.
  - rewrite eqb_refl. reflexivity.
  - destruct (eqb k k') eqn:E; simpl; rewrite E; [reflexivity | exact IH].
Qed.

Lemma get_set_other (k k' : K) (v : V) (d : Dict.dict K V) :
  k <> k' -> Dict.get eqb k (Dict.set eqb k' v d) = Dict.get eqb k d.
Proof.
  intros N. induction d as [|[k2 v2] d IH]; simpl.
  - rewrite (eqb_neq _ _ N). reflexivity.
  - destruct (eqb k' k2) eqn:E; simpl.
    + apply eqb_eq in E. subst k2. rewrite (eqb_neq _ _ N). reflexivity.
    + rewrite IH. reflexivity.
Qed.

Lemma get_In (k : K) (v : V) (d : Dict.dict K V) :
  Dict.get eqb k d = Some v -> In (k, v) d.
Proof.
  induction d as [|[k' v'] d IH]; simpl; [discriminate|].
  destruct (eqb k k') eqn:E.
  - apply eqb_eq in E. intros [= ->]. left. congruence.
  - intros H. right. apply IH, H.
Qed.

Lemma set_keys (k : K) (v : V) (d : Dict.dict K V) :
  map fst (Dict.set eqb k v d)
  = if existsb (eqb k) (map fst d) then map fst d else map fst d ++ [k].
Proof.
  induction d as [|[k' v'] d IH]; simpl; [reflexivity|].
  destruct (eqb k k') eqn:E; simpl; [reflexivity|].
  rewrite IH. destruct (existsb (eqb k) (map fst d)); reflexivity.
Qed.

Lemma set_wf (k : K) (v : V) (d : Dict.dict K V) :
  Dict.wf d -> Dict.wf (Dict.set eqb k v d).
Proof.
  unfold Dict.wf. rewrite set_keys. intros W.
  destruct (existsb (eqb k) (map fst d)) eqn:E; [exact W|].
  apply NoDup_app; [exact W | constructor; [intros [] | constructor] |].
  intros a I [->|[]].
  assert (T : existsb (eqb a) (map fst d) = true).
  { apply existsb_exists. exists a. split; [exact I | apply eqb_refl]. }
  congruence.
Qed.

Lemma wf_get (k : K) (v : V) (d : Dict.dict K V) :
  Dict.wf d -> In (k, v) d -> Dict.get eqb k d = Some v.
Proof.
  unfold Dict.wf. induction d as [|[k' v'] d IH]; simpl; [tauto|].
  intros W I. inversion W as [|? ? N W']; subst.
  destruct I as [[= -> ->]|I].
  - rewrite eqb_refl. reflexivity.
  - destruct (eqb k k') eqn:E; [|apply IH; assumption].
    apply eqb_eq in E. subst k'. exfalso. apply N.
    apply (in_map fst) in I. exact I.
Qed.

Lemma set_In (k k' : K) (v v' : V) (d : Dict.dict K V) :
  In (k', v') (Dict.set eqb k v d) -> (k', v') = (k, v) \/ In (k', v') d.
Proof.
  induction d as [|[k2 v2] d IH]; simpl.
  - intros [H|[]]. left. congruence.
  - destruct (eqb k k2) eqn:E; simpl.
    + apply eqb_eq in E. subst k2. intros [H|H]; [left; congruence | tauto].
    + intros [H|H]; [tauto|]. destruct (IH H); tauto.
Qed.

Lemma fold_set_In (l : list (K * V)) (acc : Dict.dict K V) (k : K) (v : V) :
  In (k, v) (fold_left (fun d kv => Dict.set eqb (fst kv) (snd kv) d) l acc) ->
  In (k, v) acc \/ In (k, v) l.
Proof.
  revert acc. induction l as [|[k' v'] l IH]; intros acc; simpl; [tauto|].
  intros H. apply IH in H. destruct H as [H|H]; [|tauto].
  apply set_In in H. destruct H as [H|H]; [right; left; congruence | tauto].
Qed.

(** Every item of a comprehension was an item of its source. *)
Lemma of_items_In (l : list (K * V)) (k : K) (v : V) :
  In (k, v) (Dict.of_items eqb l) -> In (k, v) l.
Proof.
  unfold Dict.of_items. intros H. apply fold_set_In in H. destruct H as [[]|H]. exact H.
Qed.

Lemma fold_set_get (l : list (K * V)) (acc : Dict.dict K V) (k : K) (v : V) :
  (forall v', In (k, v') l -> v' = v) ->
  (Dict.get eqb k acc = Some v \/ exists v', In (k, v') l) ->
  Dict.get eqb k (fold_left (fun d kv => Dict.set eqb (fst kv) (snd kv) d) l acc)
  = Some v.
Proof.
  revert acc. induction l as [|[k' v'] l IH]; intros acc U H; simpl.
  - destruct H as [H|[? []]]. exact H.
  - apply IH.
    + intros v2 I. apply U. right. exact I.
    + simpl. destruct (eqb k k') eqn:E.
      * apply eqb_eq in E. subst k'. left.
        rewrite (U v') by (left; reflexivity). apply get_set_same.
      * assert (N : k <> k') by (intros ->; rewrite eqb_refl in E; discriminate).
        destruct H as [H|[v2 [I|I]]].
        -- left. rewrite get_set_other by exact N. exact H.
        -- congruence.
        -- right. exists v2. exact I.
Qed.

(** A key whose items all carry the same value gets that value. *)
Lemma of_items_get (l : list (K * V)) (k : K) (v : V) :
  In (k, v) l -> (forall v', In (k, v') l -> v' = v) ->
  Dict.get eqb k (Dict.of_items eqb l) = Some v.
Proof.
  intros I U. unfold Dict.of_items. apply fold_set_get; [exact U|].
  right. exists v. exact I.
Qed.

End DictFacts.

(* ------------------------------------------------------------------ *)
(** ** The TP ladder store *)

Section LadderStore.
Import SignalParser Bot Spec Json.

Lemma key_eqb_eq (a b : ladder_key) : key_eqb a b = true <-> a = b.
Proof.
  destruct a as [a1 a2], b as [b1 b2]. unfold key_eqb. simpl.
  rewrite andb_true_iff, !String.eqb_eq. split; [intros [-> ->]; reflexivity|].
  intros [= -> ->]. tauto.
Qed.

Lemma string_eqb_eq (a b : string) : String.eqb a b = true <-> a = b.
Proof. apply String.eqb_eq. Qed.

Lemma ladders_get_set_same (d : ladders) (k : ladder_key) (v : list Q) :
  ladders_get (ladders_set d k v) k = Some v.
Proof. apply (get_set_same key_eqb key_eqb_eq). Qed.

Lemma ladders_get_set_other (d : ladders) (k k' : ladder_key) (v : list Q) :
  k <> k' -> ladders_get (ladders_set d k' v) k = ladders_get d k.
Proof. apply (get_set_other key_eqb key_eqb_eq). Qed.

(** Setting a key to the value it is looked up for never hurts. *)
Lemma ladders_get_set_kept (d : ladders) (k k' : ladder_key) (v : list Q) :
  ladders_get d k = Some v -> ladders_get (ladders_set d k' v) k = Some v.
Proof.
  intros H. destruct (key_eqb k k') eqn:E.
  - apply key_eqb_eq in E. subst k'. apply ladders_get_set_same.
  - rewrite ladders_get_set_other; [exact H|]. intros ->.
    rewrite (proj2 (key_eqb_eq k' k') eq_refl) in E. discriminate.
Qed.

Lemma file_key_bar (k : ladder_key) : file_key k = (fst k ++ String bar (snd k))%string.
Proof. reflexivity. Qed.

Lemma no_bar_join (a b : string) : no_bar (a ++ String bar b) = false.
Proof.
  induction a as [|c a IH]; [reflexivity|].
  cbn [append no_bar]. rewrite IH. apply andb_false_r.
Qed.

Lemma split_once_join (a b : string) :
  no_bar a = true -> PyStr.split_once bar (a ++ String bar b) = [a; b].
Proof.
  induction a as [|c a IH]; [reflexivity|].
  cbn [append no_bar PyStr.split_once].
  intros N. apply andb_true_iff in N. destruct N as [C N].
  apply negb_true_iff in C. fold bar in C. rewrite C, (IH N). reflexivity.
Qed.

Lemma split_once_two (s a b : string) :
  PyStr.split_once bar s = [a; b] -> s = (a ++ String bar b)%string.
Proof.
  revert a. induction s as [|c s IH]; intros a; cbn [PyStr.split_once]; [discriminate|].
  destruct (Ascii.eqb_spec c bar) as [->|N].
  - intros [= <- <-]. reflexivity.
  - destruct (PyStr.split_once bar s) as [|x [|y [|z r]]] eqn:E; try discriminate.
    intros [= <- <-]. cbn [append]. f_equal. apply IH. reflexivity.
Qed.

Lemma split_once_no_bar (s : string) :
  no_bar s = true -> PyStr.split_once bar s = [s].
Proof.
  induction s as [|c s IH]; [reflexivity|].
  cbn [no_bar PyStr.split_once].
  intros N. apply andb_true_iff in N. destruct N as [C N].
  apply negb_true_iff in C. fold bar in C. rewrite C, (IH N). reflexivity.
Qed.

(** The file key determines the ladder key when neither part of the
    latter holds a "|". *)
Lemma file_key_inj (k k' : ladder_key) :
  no_bar (fst k) = true -> no_bar (snd k) = true ->
  file_key k' = file_key k -> k' = k.
Proof.
  destruct k as [sym dir], k' as [sym' dir']. rewrite !file_key_bar. cbn [fst snd].
  intros Ns Nd. revert sym'. induction sym as [|c sym IH]; intros sym' E.
  - destruct sym' as [|c' sym']; cbn [append] in E.
    + injection E as ->. reflexivity.
    + injection E as -> E. exfalso.
      pose proof (no_bar_join sym' dir') as J. rewrite E in J. congruence.
  - cbn [no_bar] in Ns. apply andb_true_iff in Ns. destruct Ns as [C Ns].
    destruct sym' as [|c' sym']; cbn [append] in E.
    + injection E as <- _. discriminate C.
    + injection E as -> E. specialize (IH Ns sym' E).
      injection IH as -> ->. reflexivity.
Qed.

Section Loading.
Variable float_of_str : string -> option Q.

Lemma floats_of_numbers (v : list Q) :
  floats_of float_of_str (map JNum v) = Some v.
Proof. induction v as [|q v IH]; simpl; [|rewrite IH]; reflexivity. Qed.

(** An entry the loader cannot use leaves the map as it is. *)
Lemma load_entry_corrupt (d : ladders) (kv : string * json) :
  corrupt float_of_str kv -> load_entry float_of_str d kv = d.
Proof.
  unfold load_entry. intros [N|[N|[xs [I N]]]].
  - fold bar. rewrite (split_once_no_bar _ N). reflexivity.
  - rewrite N. destruct (PyStr.split_once "|" (fst kv)) as [|? [|? [|? ?]]]; reflexivity.
  - rewrite I, N.
    destruct (PyStr.split_once "|" (fst kv)) as [|? [|? [|? ?]]]; reflexivity.
Qed.

(** Loading a list of entries sets the key [k] to [v] when the
    entries under the file key of [k] all hold the numbers [v], and
    either there is one or the map has [v] under [k] already. *)
Lemma load_entries_get (k : ladder_key) (v : list Q) (items : list (string * json)) :
  no_bar (fst k) = true -> v <> [] ->
  forall d : ladders,
    (forall j, In (file_key k, j) items -> j = JArr (map JNum v)) ->
    (ladders_get d k = Some v \/ In (file_key k, JArr (map JNum v)) items) ->
    ladders_get (fold_left (load_entry float_of_str) items d) k = Some v.
Proof.
  intros Nk Nv. induction items as [|[fk j] items IH]; intros d U H; simpl.
  - destruct H as [H|[]]. exact H.
  - apply IH; [intros j' I; apply U; right; exact I|].
    destruct (String.eqb_spec fk (file_key k)) as [->|N].
    + left. rewrite (U j) by (left; reflexivity).
      unfold load_entry. cbn [fst snd iter_json]. fold bar.
      rewrite file_key_bar, (split_once_join _ _ Nk).
      rewrite floats_of_numbers.
      destruct v as [|q v]; [congruence|]. cbn [nonempty_list].
      destruct k. apply ladders_get_set_same.
    + destruct H as [H|[H|H]]; [|congruence|right; exact H].
      left. unfold load_entry. cbn [fst snd].
      destruct (PyStr.split_once "|" fk) as [|a [|b [|c r]]] eqn:S; try exact H.
      destruct (iter_json j) as [xs|]; [|exact H].
      destruct (floats_of float_of_str xs) as [vals|]; [|exact H].
      destruct (nonempty_list vals); [|exact H].
      rewrite ladders_get_set_other; [exact H|].
      intros ->. apply N. fold bar in S. apply split_once_two in S. exact S.
Qed.
End Loading.

(** What [_save_tp_ladders] writes for a key of a well-formed map. *)
Lemma save_data_entry (d : ladders) (k : ladder_key) (v : list Q) :
  Dict.wf d -> ladders_get d k = Some v -> v <> [] ->
  no_bar (fst k) = true -> no_bar (snd k) = true ->
  In (file_key k, JArr (map JNum v)) (match dump (save_data d) with JObj l => l | _ => [] end)
  /\ forall j, In (file_key k, j) (match dump (save_data d) with JObj l => l | _ => [] end) ->
               j = JArr (map JNum v).
Proof.
  intros W G Nv Ns Nd. cbn [dump].
  set (items := map (fun kv : ladder_key * list Q => (file_key (fst kv), snd kv))
                    (filter (fun kv => nonempty_list (snd kv)) d)).
  assert (U : forall v', In (file_key k, v') items -> v' = v).
  { intros v' I. unfold items in I. apply in_map_iff in I.
    destruct I as [[k' v2] [E I]]. simpl in E. injection E as E ->.
    apply filter_In in I. destruct I as [I _].
    apply (file_key_inj k k' Ns Nd) in E. subst k'.
    apply (wf_get key_eqb key_eqb_eq _ _ _ W) in I.
    unfold ladders_get in G. congruence. }
  assert (I : In (file_key k, v) items).
  { unfold items. apply in_map_iff. exists (k, v). split; [reflexivity|].
    apply filter_In. split; [apply (get_In key_eqb key_eqb_eq), G|].
    destruct v; [congruence | reflexivity]. }
  fold items. unfold save_data. fold items. split.
  - apply in_map_iff. exists (file_key k, v). split; [reflexivity|].
    apply (get_In String.eqb string_eqb_eq).
    apply (of_items_get String.eqb string_eqb_eq); assumption.
  - intros j J. apply in_map_iff in J. destruct J as [[fk v'] [E J]].
    simpl in E. injection E as -> <-.
    apply (of_items_In String.eqb string_eqb_eq) in J. rewrite (U v' J). reflexivity.
Qed.

(** C9 as stated fails: the ladder recorded for the instrument
    "XAU|USD" comes back from the file under the instrument "XAU", so
    the lookup of the recorded key finds nothing after a reload. *)
Lemma ladder_round_trip_counterexample :
  ~ (forall (float_of_str : string -> option Q) (st : State) (k : ladder_key)
            (tps : list Q),
        tps <> [] -> Dict.wf (TP_LADDERS st) ->
        forall st0 : State,
          tp_file st0 = tp_file (record_ladder st k (ladder_of tps)) ->
          TP_LADDERS st0 = [] ->
          ladders_get (TP_LADDERS (_load_tp_ladders float_of_str st0)) k
          = Some (ladder_of tps)).
Proof.
  intros H.
  specialize (H (fun _ => None) empty_state ("XAU|USD", "BUY")%string [3465]
                ltac:(discriminate) (NoDup_nil _)
                {| TP_LADDERS := [];
                   tp_file := tp_file (record_ladder empty_state
                                         ("XAU|USD", "BUY")%string (ladder_of [3465]));
                   last_signal := None |}
                eq_refl eq_refl).
  vm_compute in H. discriminate H.
Qed.

Lemma load_file (float_of_str : string -> option Q) (st0 : State)
    (l : list (string * json)) :
  tp_file st0 = Loaded (JObj l) ->
  TP_LADDERS (_load_tp_ladders float_of_str st0)
  = fold_left (load_entry float_of_str) (Dict.of_items String.eqb l) (TP_LADDERS st0).
Proof.
  intros F. unfold _load_tp_ladders. rewrite F. cbn [truthy].
  destruct l; reflexivity.
Qed.

(** Recording and loading keep the map a dictionary. *)
Lemma record_ladder_wf (st : State) (k : ladder_key) (v : list Q) :
  Dict.wf (TP_LADDERS st) -> Dict.wf (TP_LADDERS (record_ladder st k v)).
Proof. apply (set_wf key_eqb key_eqb_eq). Qed.

Lemma load_wf (float_of_str : string -> option Q) (st : State) :
  Dict.wf (TP_LADDERS st) -> Dict.wf (TP_LADDERS (_load_tp_ladders float_of_str st)).
Proof.
  intros W. unfold _load_tp_ladders.
  destruct (tp_file st) as [| |j]; try exact W.
  destruct (truthy j); [|exact W]. destruct j; try exact W.
  cbn [TP_LADDERS]. revert W. generalize (TP_LADDERS st).
  induction (Dict.of_items String.eqb l) as [|kv items IH]; intros d W; [exact W|].
  cbn [fold_left]. apply IH. unfold load_entry.
  destruct (PyStr.split_once "|" (fst kv)) as [|a [|b [|c r]]]; try exact W.
  destruct (iter_json (snd kv)); [|exact W].
  destruct (floats_of float_of_str l0); [|exact W].
  destruct (nonempty_list l1); [|exact W].
  apply (set_wf key_eqb key_eqb_eq), W.
Qed.

(** C9, amended.  In a state whose map is a dictionary (no key twice),
    for a key whose instrument and direction hold no "|" (BUY and SELL
    hold none) and a non-empty list of numeric
    take-profits, recording stores under the key the strictly
    increasing list of the distinct values and writes the whole map;
    whatever map the file is reloaded into, the lookup of the key
    then returns that list; and an entry of a file that the loader
    cannot use is passed over, the other entries being loaded as if
    it were not there. *)
Theorem ladder_round_trip (float_of_str : string -> option Q) (st : State)
    (k : ladder_key) (tps : list Q) :
  tps <> [] -> Dict.wf (TP_LADDERS st) ->
  no_bar (fst k) = true -> no_bar (snd k) = true ->
  let L := ladder_of tps in
  let st' := record_ladder st k L in
  (StronglySorted Qlt L
   /\ (forall x, In x tps -> exists y, In y L /\ y == x)
   /\ (forall y, In y L -> In y tps)) /\
  ladders_get (TP_LADDERS st') k = Some L /\
  tp_file st' = Loaded (dump (save_data (TP_LADDERS st'))) /\
  (forall st0 : State,
      tp_file st0 = tp_file st' ->
      ladders_get (TP_LADDERS (_load_tp_ladders float_of_str st0)) k = Some L) /\
  (forall (st0 : State) (l pre post : list (string * json)) (kv : string * json),
      tp_file st0 = Loaded (JObj l) ->
      Dict.of_items String.eqb l = pre ++ kv :: post ->
      corrupt float_of_str kv ->
      TP_LADDERS (_load_tp_ladders float_of_str st0)
      = fold_left (load_entry float_of_str) (pre ++ post) (TP_LADDERS st0)).
Proof.
  intros Nt W Ns Nd L st'.
  assert (NL : L <> []) by (apply sorted_set_nonempty, Nt).
  assert (G : ladders_get (TP_LADDERS st') k = Some L) by apply ladders_get_set_same.
  split; [|split; [exact G|split; [reflexivity|split]]].
  - split; [apply sorted_set_increasing|].
    split; [apply sorted_set_complete | apply sorted_set_sound].
  - intros st0 F.
    assert (W' : Dict.wf (TP_LADDERS st')) by (apply (set_wf key_eqb key_eqb_eq), W).
    destruct (save_data_entry _ k L W' G NL Ns Nd) as [I U].
    change (tp_file st') with (Loaded (dump (save_data (TP_LADDERS st')))) in F.
    cbn [dump] in F, I, U. rewrite (load_file _ _ _ F).
    apply load_entries_get; [exact Ns | exact NL | |].
    + intros j J. apply U. apply (of_items_In String.eqb string_eqb_eq), J.
    + right. apply (get_In String.eqb string_eqb_eq).
      apply (of_items_get String.eqb string_eqb_eq); assumption.
  - intros st0 l pre post kv F E C. rewrite (load_file _ _ _ F), E.
    rewrite !fold_left_app. cbn [fold_left].
    rewrite (load_entry_corrupt _ _ _ C). reflexivity.
Qed.

End LadderStore.

(* ------------------------------------------------------------------ *)
(** ** Ladders recorded by the handler and by the planner *)

Section Recording.
Import SignalParser Bot Spec.

(** With enough fuel [place_orders_from_signal] returns, and the
    ladder map it leaves is the one it got with the ladder of the
    signal set under the resolved symbol. *)
Lemma place_orders_records (cfg : Config) (mt : Terminal) (st : State)
    (sig : ParsedSignal) (fuel : nat) :
  (S (rung_count (zone_low sig) (zone_high sig)) <= fuel)%nat ->
  numeric_of (take_profits sig) <> [] ->
  exists ok calls,
    place_orders_from_signal fuel cfg mt st sig
    = Some (ok,
            record_ladder st (fst (resolve_symbol cfg mt (symbol sig)), direction sig)
                          (ladder_of (numeric_of (take_profits sig))),
            calls).
Proof.
  intros F N. unfold place_orders_from_signal.
  destruct (resolve_symbol cfg mt (symbol sig)) as [sym c0]. cbn [fst].
  replace fuel with (S (rung_count (zone_low sig) (zone_high sig))
                     + (fuel - S (rung_count (zone_low sig) (zone_high sig))))%nat by lia.
  rewrite (plan_closed cfg mt sym sig).
  destruct (numeric_of (take_profits sig)) as [|q l] eqn:E; [congruence|].
  cbn [nonempty_list].
  destruct (submit cfg mt sym (direction sig) (stop_loss sig) _) as [ok c1].
  exists ok, (c0 ++ c1). reflexivity.
Qed.

Lemma cache_ladder_records (cfg : Config) (st : State) (parsed : ParsedSignal) :
  numeric_of (take_profits parsed) <> [] ->
  let L := ladder_of (numeric_of (take_profits parsed)) in
  let st' := cache_ladder cfg st parsed in
  ladders_get (TP_LADDERS st') (PyStr.upper (symbol parsed), direction parsed) = Some L /\
  (SYMBOL_SUFFIX cfg <> EmptyString ->
   ladders_get (TP_LADDERS st')
               ((PyStr.upper (symbol parsed) ++ SYMBOL_SUFFIX cfg)%string, direction parsed)
   = Some L).
Proof.
  intros N. cbv zeta. unfold cache_ladder, ladder_of.
  pose proof (sorted_set_nonempty _ N) as NL.
  destruct (PyNum.sorted_set (numeric_of (take_profits parsed))) as [|q l];
    [congruence|].
  cbn [nonempty_list _save_tp_ladders TP_LADDERS].
  unfold nonempty. destruct (String.eqb_spec (SYMBOL_SUFFIX cfg) EmptyString) as [Z|Z];
    cbn [negb].
  - split; [apply ladders_get_set_same | congruence].
  - split; [apply ladders_get_set_kept, ladders_get_set_same|].
    intros _. apply ladders_get_set_same.
Qed.

(** C10.  When the handler takes a message to the zone parser and the
    parsed intent has a numeric take-profit, then, with enough fuel,
    the handler returns and the ladder map holds the sorted distinct
    numeric levels under (upper-cased symbol, direction) and, when a
    suffix is configured, under (upper-cased symbol + suffix,
    direction); with auto-place off no request is sent and the ladder
    is recorded all the same; with auto-place on the ladder is also
    under (resolved symbol, direction).  Planning the intent from any
    state records the ladder under (resolved symbol, direction), the
    key under which the trailing pass looks up a position on that
    symbol and in that direction. *)
Theorem ladder_recorded (cfg : Config) (mt : Terminal) (st : State) (msg : Message)
    (raw : string) (parsed : ParsedSignal) :
  m_text msg = Some raw -> raw <> EmptyString ->
  (TELEGRAM_CHANNEL_ID cfg = EmptyString \/ m_chat_id msg = TELEGRAM_CHANNEL_ID cfg) ->
  reaches_zone_parser cfg mt (PyStr.strip raw) ->
  parse_signal (PyStr.strip raw) = Some parsed ->
  numeric_of (take_profits parsed) <> [] ->
  let L := ladder_of (numeric_of (take_profits parsed)) in
  let k_raw := (PyStr.upper (symbol parsed), direction parsed) in
  let k_suffix :=
    ((PyStr.upper (symbol parsed) ++ SYMBOL_SUFFIX cfg)%string, direction parsed) in
  let k_resolved := (fst (resolve_symbol cfg mt (symbol parsed)), direction parsed) in
  forall fuel : nat,
    (S (rung_count (zone_low parsed) (zone_high parsed)) <= fuel)%nat ->
    (exists st' calls,
        handle_message fuel cfg mt st (Some msg) = Some (st', calls) /\
        ladders_get (TP_LADDERS st') k_raw = Some L /\
        (SYMBOL_SUFFIX cfg <> EmptyString ->
         ladders_get (TP_LADDERS st') k_suffix = Some L) /\
        (AUTO_PLACE cfg = false -> calls = []) /\
        (AUTO_PLACE cfg = true -> ladders_get (TP_LADDERS st') k_resolved = Some L)) /\
    (forall st1 : State,
        exists ok st2 calls,
          place_orders_from_signal fuel cfg mt st1 parsed = Some (ok, st2, calls) /\
          ladders_get (TP_LADDERS st2) k_resolved = Some L /\
          forall p : Position,
            p_symbol p = fst k_resolved -> position_direction p = direction parsed ->
            ladders_get (TP_LADDERS st2) (p_symbol p, position_direction p) = Some L).
Proof.
  intros T R C (G & Cm & F1 & F2) P N L k_raw k_suffix k_resolved fuel F.
  split.
  - assert (H : handle_message fuel cfg mt st (Some msg)
                = handle_signal fuel cfg mt st (PyStr.strip raw)).
    { unfold handle_message. rewrite T.
      assert (NR : nonempty raw = true).
      { unfold nonempty. destruct (String.eqb_spec raw EmptyString); [contradiction|].
        reflexivity. }
      rewrite NR. cbn [negb].
      assert (CH : nonempty (TELEGRAM_CHANNEL_ID cfg)
                   && negb (String.eqb (m_chat_id msg) (TELEGRAM_CHANNEL_ID cfg)) = false).
      { destruct C as [C|C]; rewrite C; [reflexivity|].
        rewrite String.eqb_refl. apply andb_false_r. }
      rewrite CH, G, Cm, F1, F2. reflexivity. }
    rewrite H. unfold handle_signal. rewrite P.
    set (st1 := {| TP_LADDERS := TP_LADDERS st; tp_file := tp_file st;
                   last_signal := Some parsed |}).
    destruct (cache_ladder_records cfg st1 parsed N) as [K1 K2].
    destruct (AUTO_PLACE cfg) eqn:A.
    + destruct (place_orders_records cfg mt (cache_ladder cfg st1 parsed) parsed fuel F N)
        as (ok & calls & E).
      rewrite E. eexists _, calls. split; [reflexivity|].
      cbn [record_ladder _save_tp_ladders TP_LADDERS].
      split; [apply ladders_get_set_kept, K1|].
      split; [intros Z; apply ladders_get_set_kept, K2, Z|].
      split; [discriminate|]. intros _. apply ladders_get_set_same.
    + eexists _, []. split; [reflexivity|].
      split; [exact K1|]. split; [exact K2|]. split; [reflexivity | discriminate].
  - intros st1.
    destruct (place_orders_records cfg mt st1 parsed fuel F N) as (ok & calls & E).
    eexists ok, _, calls. split; [exact E|].
    assert (K : ladders_get
                  (TP_LADDERS (record_ladder st1 k_resolved L)) k_resolved = Some L)
      by apply ladders_get_set_same.
    split; [exact K|]. intros p Sy Di. rewrite Sy, Di. exact K.
Qed.

End Recording.

(* ------------------------------------------------------------------ *)
(** ** The theorems at concrete inputs *)

Section Instances.
Import SignalParser Bot Spec.

Lemma rung_generation_witness :
  exists rungs : list Rung,
    plan 6 default_config xau_terminal "XAUUSD" scenario_signal = Some rungs /\
    List.length rungs = 5%nat.
Proof.
  destruct (rung_generation default_config xau_terminal "XAUUSD"%string
              scenario_signal 0) as (rungs & P & L & _).
  exists rungs. split; [exact P | exact L].
Defined.

Lemma tp_assignment_witness :
  r_tp {| r_price := 3463; r_lot := 1 # 10; r_tp := Some 3470 |}
  = nth_error (numeric_of (take_profits open_first_signal)) 0.
Proof.
  apply (tp_assignment 6 default_config xau_terminal "XAUUSD"%string open_first_signal
           open_first_plan 0).
  - vm_compute. reflexivity.
  - reflexivity.
Defined.

Lemma trailing_target_witness :
  exists level : Q,
    nth_error (PyNum.sorted_set [10; 20; 30]) 0 = Some level /\
    trail_position default_config boundary_terminal boundary_ladders boundary_position
    = option_map (fun sl => Sltp 1 "XAUUSD" sl 0 777001)
        (guarded_stop boundary_terminal boundary_position 20
           (round_price boundary_terminal "XAUUSD" level)).
Proof.
  refine (proj2 (proj2 (proj2 (proj2
            (proj1 trailing_target default_config boundary_terminal boundary_ladders
               boundary_position {| bid := 20; ask := 20 + (1 # 5) |} [10; 20; 30]
               _ _ _)))) _).
  - reflexivity.
  - reflexivity.
  - discriminate.
  - vm_compute. lia.
Defined.

Lemma lot_snap_witness :
  volume_min xau_info <= adjust_lot_for_symbol xau_terminal "XAUUSD" (295 # 1000)
                      <= volume_max xau_info /\
  adjust_lot_for_symbol xau_terminal "XAUUSD"
    (adjust_lot_for_symbol xau_terminal "XAUUSD" (295 # 1000))
  = adjust_lot_for_symbol xau_terminal "XAUUSD" (295 # 1000).
Proof.
  refine (proj2 (proj2 (proj2
            (lot_snap xau_terminal "XAUUSD"%string xau_info (295 # 1000) _ _)))).
  - reflexivity.
  - exists 1%Z, 1%Z, 10000%Z, 10000%Z.
    repeat split; try lia; vm_compute; reflexivity.
Defined.

Lemma ladder_round_trip_witness :
  ladders_get (TP_LADDERS (_load_tp_ladders (fun _ => None) restarted_state))
              ("XAUUSD", "BUY")%string
  = Some [3465; 3470].
Proof.
  refine (proj1 (proj2 (proj2 (proj2
            (ladder_round_trip (fun _ => None) empty_state ("XAUUSD", "BUY")%string
               [3470; 3465; 3470] _ _ _ _)))) restarted_state _).
  - discriminate.
  - apply NoDup_nil.
  - reflexivity.
  - reflexivity.
  - reflexivity.
Defined.

Lemma ladder_recorded_witness :
  exists (st' : State) (calls : list Call),
    handle_message 6 default_config xau_terminal empty_state (Some scenario_message)
    = Some (st', calls) /\
    ladders_get (TP_LADDERS st') ("XAUUSD", "BUY")%string = Some [3465; 3470] /\
    calls = [].
Proof.
  destruct (ladder_recorded default_config xau_terminal empty_state scenario_message
              scenario_text scenario_signal) with (fuel := 6%nat)
    as [(st' & calls & H & K & _ & C & _) _].
  - reflexivity.
  - discriminate.
  - left. reflexivity.
  - vm_compute. repeat split; reflexivity.
  - vm_compute. reflexivity.
  - discriminate.
  - vm_compute. lia.
  - exists st', calls. split; [exact H|]. split; [exact K|]. apply C. reflexivity.
Defined.

End Instances.

(* ------------------------------------------------------------------ *)
(** ** The matcher against the language of a pattern *)

Section Matcher.
Import Re Spec.

Lemma append_assoc (a b c : string) : ((a ++ b) ++ c = a ++ (b ++ c))%string.
Proof. induction a as [|x a IH]; simpl; [reflexivity | rewrite IH; reflexivity]. Qed.

Lemma append_nil_r (a : string) : (a ++ EmptyString)%string = a.
Proof. induction a as [|x a IH]; simpl; [reflexivity | rewrite IH; reflexivity]. Qed.

Lemma length_append (a b : string) :
  String.length (a ++ b) = (String.length a + String.length b)%nat.
Proof. induction a as [|x a IH]; simpl; [reflexivity | rewrite IH; reflexivity]. Qed.

Lemma substring_prefix (w s : string) : substring 0 (String.length w) (w ++ s) = w.
Proof.
  induction w as [|c w IH]; simpl.
  - destruct s; reflexivity.
  - rewrite IH. reflexivity.
Qed.

Lemma consumed_prefix (w s : string) : consumed (w ++ s) s = w.
Proof.
  unfold consumed. rewrite length_append.
  replace (String.length w + String.length s - String.length s)%nat
    with (String.length w) by lia.
  apply substring_prefix.
Qed.

Lemma group_app (g1 g2 : groups) (n : nat) :
  group (g1 ++ g2) n = match group g1 n with Some t => Some t | None => group g2 n end.
Proof.
  induction g1 as [|[m t] g1 IH]; simpl; [reflexivity|].
  destruct (Nat.eqb m n); [reflexivity | exact IH].
Qed.

Lemma group_In (g : groups) (n : nat) (t : string) : group g n = Some t -> In (n, t) g.
Proof.
  induction g as [|[m u] g IH]; simpl; [discriminate|].
  destruct (Nat.eqb_spec m n) as [->|N].
  - intros [= ->]. left. reflexivity.
  - intros H. right. apply IH, H.
Qed.

(** A successful run of the matcher consumed a word of the pattern and
    handed the continuation the groups of that word on top of the
    groups it started with. *)
Lemma rmatch_sound {A : Type} (r : regex) :
  forall (p : option ascii) (s : string) (g : groups)
         (k : option ascii -> string -> groups -> option A) (a : A),
    rmatch r p s g k = Some a ->
    exists (w : string) (p' : option ascii) (s' : string) (gn : groups),
      s = (w ++ s')%string /\ lang r w /\ k p' s' (gn ++ g) = Some a /\ captures r gn.
Proof.
  induction r as [|f|r1 IH1 r2 IH2|r1 IH1 r2 IH2|r IH|m r IH|]; intros p s g k a H.
  - (* Eps *)
    exists EmptyString, p, s, []. repeat split; try assumption; try reflexivity.
    + intros n t [].
    + discriminate.
  - (* Chr *)
    cbn [rmatch] in H. destruct s as [|c s]; [discriminate|].
    destruct (f c) eqn:F; [|discriminate].
    exists (String c EmptyString), (Some c), s, []. repeat split; try assumption.
    + exists c. split; [reflexivity | exact F].
    + intros n t [].
    + discriminate.
  - (* Seq *)
    cbn [rmatch] in H. apply IH1 in H. destruct H as (w1 & p1 & s1 & g1 & -> & L1 & H & C1).
    apply IH2 in H. destruct H as (w2 & p2 & s2 & g2 & -> & L2 & H & C2).
    exists (w1 ++ w2)%string, p2, s2, (g2 ++ g1).
    split; [symmetry; apply append_assoc|].
    split; [exists w1, w2; tauto|].
    split; [rewrite <- app_assoc; exact H|].
    destruct C1 as [A1 B1], C2 as [A2 B2]. split.
    + intros n t I. apply in_app_or in I. cbn [group_lang]. destruct I; [right|left]; auto.
    + intros n S. cbn [sets] in S. rewrite group_app.
      destruct (group g2 n) eqn:G2; [discriminate|].
      apply orb_true_iff in S. destruct S as [S|S]; [apply B1, S|].
      exfalso. apply (B2 n S), G2.
  - (* Alt *)
    cbn [rmatch] in H.
    destruct (rmatch r1 p s g k) as [a1|] eqn:E.
    + injection H as ->. apply IH1 in E.
      destruct E as (w & p' & s' & gn & -> & L & H & [A1 B1]).
      exists w, p', s', gn. repeat split; try assumption.
      * left. exact L.
      * intros n t I. left. apply A1, I.
      * intros n S. cbn [sets] in S. apply andb_true_iff in S. apply B1, S.
    + apply IH2 in H.
      destruct H as (w & p' & s' & gn & -> & L & H & [A2 B2]).
      exists w, p', s', gn. repeat split; try assumption.
      * right. exact L.
      * intros n t I. right. apply A2, I.
      * intros n S. cbn [sets] in S. apply andb_true_iff in S. apply B2, S.
  - (* Star *)
    cbn [rmatch] in H. revert H. generalize (String.length s) at 1. intros fuel.
    revert p s g. induction fuel as [|fuel IHf]; intros p s g H.
    + exists EmptyString, p, s, []. repeat split; try assumption.
      * constructor.
      * intros n t [].
      * discriminate.
    + match type of H with
      | match ?X with _ => _ end = _ => destruct X as [a1|] eqn:E
      end.
      * injection H as ->. apply IH in E.
        destruct E as (w1 & p1 & s1 & g1 & -> & L1 & E & [A1 B1]).
        destruct (String.length s1 <? String.length (w1 ++ s1))%nat; [|discriminate].
        apply IHf in E. destruct E as (w2 & p2 & s2 & g2 & -> & L2 & E & [A2 B2]).
        exists (w1 ++ w2)%string, p2, s2, (g2 ++ g1).
        split; [symmetry; apply append_assoc|].
        split; [constructor; assumption|].
        split; [rewrite <- app_assoc; exact E|]. split.
        -- intros n t I. apply in_app_or in I. cbn [group_lang].
           destruct I; [apply A2 | apply A1]; assumption.
        -- discriminate.
      * exists EmptyString, p, s, []. repeat split; try assumption.
        -- constructor.
        -- intros n t [].
        -- discriminate.
  - (* Group *)
    cbn [rmatch] in H. apply IH in H.
    destruct H as (w & p' & s' & gn & -> & L & H & [A1 B1]).
    rewrite consumed_prefix in H.
    exists w, p', s', ((m, w) :: gn). repeat split; try assumption.
    + intros n t [[= <- <-]|I]; cbn [group_lang]; [left; tauto | right; apply A1, I].
    + intros n S. cbn [sets] in S. cbn [group].
      destruct (Nat.eqb m n); [discriminate|]. apply B1, S.
  - (* WordB *)
    cbn [rmatch] in H. destruct (xorb _ _); [|discriminate].
    exists EmptyString, p, s, []. repeat split; try assumption.
    + intros n t [].
    + discriminate.
Qed.

Lemma match_here_sound (r : regex) (p : option ascii) (s : string)
    (p' : option ascii) (s' : string) (g : groups) :
  match_here r p s = Some (p', s', g) ->
  captures r g /\ exists w, s = (w ++ s')%string /\ lang r w.
Proof.
  unfold match_here. intros H. apply rmatch_sound in H.
  destruct H as (w & p1 & s1 & gn & -> & L & [= -> -> <-] & C).
  rewrite app_nil_r. split; [exact C|]. exists w. tauto.
Qed.

(** The groups [search] returns are captures of the pattern. *)
Lemma search_sound (r : regex) (text : string) (g : groups) :
  search r text = Some g -> captures r g.
Proof.
  unfold search. generalize (@None ascii). revert g.
  induction text as [|c text IH]; intros g p; cbn [search_from].
  - destruct (match_here r p EmptyString) as [[[p' s'] g']|] eqn:E; [|discriminate].
    intros [= <-]. apply (match_here_sound _ _ _ _ _ _ E).
  - destruct (match_here r p (String c text)) as [[[p' s'] g']|] eqn:E.
    + intros [= <-]. apply (match_here_sound _ _ _ _ _ _ E).
    + apply IH.
Qed.

(** So are the groups of every match [findall] returns. *)
Lemma findall_sound (r : regex) (text : string) (g : groups) :
  In g (findall r text) -> captures r g.
Proof.
  unfold findall. generalize (S (String.length text)) (@None ascii). intros fuel.
  revert text. induction fuel as [|fuel IH]; intros text p; cbn [findall_from]; [intros []|].
  destruct (match_here r p text) as [[[p' s'] g']|] eqn:E.
  - pose proof (match_here_sound _ _ _ _ _ _ E) as [C _].
    destruct (String.length s' <? String.length text)%nat.
    + intros [<-|I]; [exact C | eapply IH, I].
    + destruct text as [|c text].
      * intros [<-|[]]. exact C.
      * intros [<-|I]; [exact C | eapply IH, I].
  - destruct text as [|c text]; [intros []|]. apply IH.
Qed.

(** The text of a group that takes part in every match. *)
Lemma captured_group (r : regex) (g : groups) (n : nat) :
  captures r g -> sets r n = true ->
  exists t, group g n = Some t /\ group_lang r n t.
Proof.
  intros [A B] S. destruct (group g n) as [t|] eqn:G; [|exfalso; apply (B n S), G].
  exists t. split; [reflexivity|]. apply A, group_In, G.
Qed.

End Matcher.

(* ------------------------------------------------------------------ *)
(** ** What the numeral and word patterns capture *)

Section Numerals.
Import PyStr PyNum Re SignalParser Spec.

Lemma star_chr_all (f : ascii -> bool) (w : string) :
  star_of (lang (Chr f)) w -> all_chars f w = true.
Proof.
  induction 1 as [|u v (c & -> & F) _ IH]; [reflexivity|].
  simpl. rewrite F, IH. reflexivity.
Qed.

Lemma plus_chr_all (f : ascii -> bool) (w : string) :
  lang (Plus (Chr f)) w -> all_chars f w = true /\ w <> EmptyString.
Proof.
  intros (u & v & -> & (c & -> & F) & S). apply star_chr_all in S.
  simpl. rewrite F, S. split; [reflexivity | discriminate].
Qed.

Lemma all_chars_app (f : ascii -> bool) (u v : string) :
  all_chars f (u ++ v) = all_chars f u && all_chars f v.
Proof.
  induction u as [|c u IH]; simpl; [reflexivity|].
  rewrite IH, andb_assoc. reflexivity.
Qed.

Lemma all_chars_impl (f h : ascii -> bool) (w : string) :
  (forall c, f c = true -> h c = true) -> all_chars f w = true -> all_chars h w = true.
Proof.
  intros I. induction w as [|c w IH]; simpl; [reflexivity|].
  intros H. apply andb_true_iff in H. destruct H as [F H].
  rewrite (I c F), (IH H). reflexivity.
Qed.

Lemma digit_val_nonneg (c : ascii) : is_digit c = true -> (0 <= digit_val c)%Z.
Proof.
  unfold is_digit, digit_val. intros H. apply andb_true_iff in H.
  destruct H as [H _]. apply N.leb_le in H. lia.
Qed.

(** A run of digits has a value, and none below the accumulator's
    contribution. *)
Lemma digits_val_all (w : string) :
  all_chars is_digit w = true ->
  forall acc, (0 <= acc)%Z -> exists n, digits_val acc w = Some n /\ (0 <= n)%Z.
Proof.
  induction w as [|c w IH]; cbn [all_chars digits_val]; intros H acc A.
  - exists acc. split; [reflexivity | exact A].
  - apply andb_true_iff in H. destruct H as [D H]. rewrite D.
    apply (IH H). pose proof (digit_val_nonneg c D) as P. lia.
Qed.

Lemma py_int_digits (w : string) :
  all_chars is_digit w = true -> w <> EmptyString ->
  exists n, py_int w = Some n /\ (0 <= n)%Z.
Proof.
  intros H N. destruct w as [|c w]; [contradiction|].
  unfold py_int. apply digits_val_all; [exact H | lia].
Qed.

Lemma digit_not_dot (c : ascii) : is_digit c = true -> Ascii.eqb c "." = false.
Proof.
  intros D. destruct (Ascii.eqb_spec c "."); [subst; discriminate | reflexivity].
Qed.

Lemma split_dot_digits (w s : string) :
  all_chars is_digit w = true ->
  split_dot (w ++ s) = let '(a, b) := split_dot s in ((w ++ a)%string, b).
Proof.
  induction w as [|c w IH]; simpl; intros H.
  - destruct (split_dot s). reflexivity.
  - apply andb_true_iff in H. destruct H as [D H].
    rewrite (digit_not_dot c D), (IH H). destruct (split_dot s). reflexivity.
Qed.

Lemma split_dot_whole (w : string) :
  all_chars is_digit w = true -> split_dot w = (w, None).
Proof.
  intros H. rewrite <- (append_nil_r w) at 1. rewrite (split_dot_digits w _ H).
  simpl. rewrite append_nil_r. reflexivity.
Qed.

Lemma split_dot_point (w d : string) :
  all_chars is_digit w = true -> split_dot (w ++ String "." d) = (w, Some d).
Proof.
  intros H. rewrite (split_dot_digits w _ H). simpl. rewrite append_nil_r. reflexivity.
Qed.

Lemma py_float_whole (w : string) :
  all_chars is_digit w = true -> w <> EmptyString ->
  exists q, py_float w = Some q /\ 0 <= q.
Proof.
  intros H N. unfold py_float. rewrite (split_dot_whole w H).
  destruct (py_int_digits w H N) as (n & -> & P).
  exists (inject_Z n). split; [reflexivity|].
  change 0 with (inject_Z 0). rewrite <- Zle_Qle. exact P.
Qed.

Lemma py_float_point (w d : string) :
  all_chars is_digit w = true -> all_chars is_digit d = true -> d <> EmptyString ->
  exists q, py_float (w ++ String "." d) = Some q /\ 0 <= q.
Proof.
  intros H D N. unfold py_float. rewrite (split_dot_point w d H).
  destruct (digits_val_all w H 0%Z) as (n & -> & P); [lia|].
  destruct (py_int_digits d D N) as (f & -> & F).
  eexists. split; [reflexivity|]. rewrite Qred_correct.
  assert (0 <= inject_Z n) by (change 0 with (inject_Z 0); rewrite <- Zle_Qle; exact P).
  assert (0 <= inject_Z f) by (change 0 with (inject_Z 0); rewrite <- Zle_Qle; exact F).
  pose proof (scale_pos (String.length d)) as S.
  assert (0 <= inject_Z f / scale (String.length d)).
  { apply Qle_shift_div_l; [exact S | lra]. }
  lra.
Qed.

Lemma lang_dot (t : string) : lang (chr ".") t -> t = String "." EmptyString.
Proof.
  intros (c & -> & E). apply Ascii.eqb_eq in E. subst. reflexivity.
Qed.

(** What the numeral pattern captures converts to a float that is not
    negative. *)
Lemma number_float (t : string) :
  lang number t -> exists q, py_float t = Some q /\ 0 <= q.
Proof.
  intros (u & v & -> & U & [V | V]).
  - destruct V as (a & b & -> & A & B). apply lang_dot in A. subst a.
    apply plus_chr_all in U, B. destruct U as [U _], B as [B NB].
    simpl. apply py_float_point; assumption.
  - simpl in V. subst v. rewrite append_nil_r.
    apply plus_chr_all in U. destruct U. apply py_float_whole; assumption.
Qed.

Lemma lot_number_float (t : string) :
  lang lot_number t -> exists q, py_float t = Some q /\ 0 <= q.
Proof.
  intros (u & v & -> & U & (a & b & -> & A & (d & e & -> & D & E))).
  simpl in E. subst e. rewrite append_nil_r.
  apply star_chr_all in U. apply plus_chr_all in D. destruct D as [D ND].
  destruct A as [A | A].
  - apply lang_dot in A. subst a. simpl. apply py_float_point; assumption.
  - simpl in A. subst a. simpl. apply py_float_whole.
    + rewrite all_chars_app, U, D. reflexivity.
    + destruct u; [exact ND | discriminate].
Qed.

(** What the index pattern captures converts to an integer. *)
Lemma index_int (f : ascii -> bool) (t : string) :
  (forall c, f c = true -> is_digit c = true) ->
  lang (Seq (Chr f) (Star digit)) t -> exists n, py_int t = Some n.
Proof.
  intros I (u & v & -> & (c & -> & F) & S). apply star_chr_all in S.
  destruct (py_int_digits (String c v)) as (n & E & _).
  - simpl. rewrite (I c F), S. reflexivity.
  - discriminate.
  - exists n. exact E.
Qed.

Lemma upper_lower_char (c : ascii) : upper_char (lower_char c) = upper_char c.
Proof.
  destruct c as [[] [] [] [] [] [] [] []]; vm_compute; reflexivity.
Qed.

(** A word matched by a case-blind literal is the literal up to case. *)
Lemma ilit_upper (w t : string) : lang (ilit w) t -> upper t = upper w.
Proof.
  revert t. induction w as [|x w IH]; cbn [ilit lang]; intros t H.
  - subst. reflexivity.
  - destruct H as (u & v & -> & (c & -> & E) & V). apply Ascii.eqb_eq in E.
    change (String (upper_char c) (upper v) = String (upper_char x) (upper w)).
    rewrite (IH v V), <- (upper_lower_char c), E, upper_lower_char. reflexivity.
Qed.

Lemma upper_lower (t : string) : lower (upper t) = lower t.
Proof.
  induction t as [|c t IH]; [reflexivity|].
  change (String (lower_char (upper_char c)) (lower (upper t))
          = String (lower_char c) (lower t)).
  rewrite IH. f_equal.
  destruct c as [[] [] [] [] [] [] [] []]; vm_compute; reflexivity.
Qed.

Lemma ilit_lower (w t : string) : lang (ilit w) t -> lower t = lower w.
Proof.
  intros H. apply ilit_upper in H.
  rewrite <- (upper_lower t), H, upper_lower. reflexivity.
Qed.

Lemma upper_nonempty (t : string) : t <> EmptyString -> upper t <> EmptyString.
Proof. destruct t; [contradiction | discriminate]. Qed.

Lemma all_chars_map (f h : ascii -> bool) (m : ascii -> ascii) (t : string) :
  (forall c, f c = true -> h (m c) = true) ->
  all_chars f t = true -> all_chars h (map_string m t) = true.
Proof.
  intros I. induction t as [|c t IH]; simpl; [reflexivity|].
  intros H. apply andb_true_iff in H. destruct H as [F H].
  rewrite (I c F), (IH H). reflexivity.
Qed.

Lemma alnum_upper_char (c : ascii) :
  is_upper c || is_lower c || is_digit c = true ->
  is_upper (upper_char c) || is_digit (upper_char c) = true.
Proof.
  destruct c as [[] [] [] [] [] [] [] []]; vm_compute; intros H; try reflexivity; discriminate.
Qed.

End Numerals.

(* ------------------------------------------------------------------ *)
(** ** The groups of the signal patterns *)

(** Reading the language of one group off a concrete pattern. *)
Ltac group_of H :=
  cbn in H;
  repeat match type of H with _ \/ _ => destruct H as [H | H] end;
  try contradiction;
  try (let E := fresh in destruct H as [E H]; try discriminate E; clear E).

Section ParserProperties.
Import PyStr PyNum Re SignalParser Spec.

Lemma pair_groups (g : groups) :
  captures _re_pair_dir g ->
  (exists t, group g 1 = Some t /\ lang (Plus alnum) t) /\
  (exists t, group g 2 = Some t /\ lang (Alt (ilit "BUY") (ilit "SELL")) t).
Proof.
  intros C. split.
  - destruct (captured_group _ g 1 C eq_refl) as (t & G & L). exists t. split; [exact G|].
    group_of L. exact L.
  - destruct (captured_group _ g 2 C eq_refl) as (t & G & L). exists t. split; [exact G|].
    group_of L. exact L.
Qed.

Lemma zone_groups (g : groups) :
  captures _re_zone g ->
  (exists t, group g 1 = Some t /\ lang number t) /\
  (exists t, group g 2 = Some t /\ lang number t).
Proof.
  intros C. split.
  - destruct (captured_group _ g 1 C eq_refl) as (t & G & L). exists t. split; [exact G|].
    group_of L. exact L.
  - destruct (captured_group _ g 2 C eq_refl) as (t & G & L). exists t. split; [exact G|].
    group_of L. exact L.
Qed.

Lemma sl_group (g : groups) :
  captures _re_sl g -> exists t, group g 1 = Some t /\ lang number t.
Proof.
  intros C. destruct (captured_group _ g 1 C eq_refl) as (t & G & L).
  exists t. split; [exact G|]. group_of L. exact L.
Qed.

Lemma lot_group (g : groups) :
  captures _re_lot g -> exists t, group g 1 = Some t /\ lang lot_number t.
Proof.
  intros C. destruct (captured_group _ g 1 C eq_refl) as (t & G & L).
  exists t. split; [exact G|]. group_of L. exact L.
Qed.

Lemma tp_groups (g : groups) :
  captures _re_tp g ->
  (exists t, group g 1 = Some t /\
     lang (Seq (Chr (fun c => is_digit c && negb (Ascii.eqb c "0"))) (Star digit)) t) /\
  (exists t, group g 2 = Some t /\ lang (Alt number (ilit "open")) t).
Proof.
  intros C. split.
  - destruct (captured_group _ g 1 C eq_refl) as (t & G & L). exists t. split; [exact G|].
    group_of L. exact L.
  - destruct (captured_group _ g 2 C eq_refl) as (t & G & L). exists t. split; [exact G|].
    group_of L. exact L.
Qed.

Lemma grp_of (g : groups) (n : nat) (t : string) : group g n = Some t -> grp g n = t.
Proof. unfold grp. intros ->. reflexivity. Qed.

(** [strip] and [lower] commute. *)
Lemma is_space_lower (c : ascii) : is_space (lower_char c) = is_space c.
Proof. destruct c as [[] [] [] [] [] [] [] []]; vm_compute; reflexivity. Qed.

Lemma lower_lstrip (t : string) : lower (lstrip t) = lstrip (lower t).
Proof.
  induction t as [|c t IH]; [reflexivity|].
  change (lower (String c t)) with (String (lower_char c) (lower t)).
  cbn [lstrip]. rewrite is_space_lower. destruct (is_space c); [exact IH | reflexivity].
Qed.

Lemma lower_rstrip (t : string) : lower (rstrip t) = rstrip (lower t).
Proof.
  induction t as [|c t IH]; [reflexivity|].
  change (lower (String c t)) with (String (lower_char c) (lower t)).
  cbn [rstrip]. rewrite <- IH, is_space_lower.
  destruct (rstrip t); [destruct (is_space c)|]; reflexivity.
Qed.

Lemma lower_strip (t : string) : lower (strip t) = strip (lower t).
Proof. unfold strip. rewrite lower_rstrip, lower_lstrip. reflexivity. Qed.

(** Each tuple [findall] returns for the TP pattern converts. *)
Lemma tp_pair_converts (g : groups) :
  captures _re_tp g ->
  exists idx v, tp_pair g = Some (idx, v) /\ (forall q, v = Some q -> 0 <= q).
Proof.
  intros C. destruct (tp_groups g C) as [(t1 & G1 & L1) (t2 & G2 & L2)].
  unfold tp_pair. rewrite (grp_of _ _ _ G1), (grp_of _ _ _ G2).
  destruct (index_int (fun c => is_digit c && negb (Ascii.eqb c "0")) t1) as (n & ->);
    [intros c H; apply andb_true_iff in H; tauto | exact L1 |].
  destruct (String.eqb (lower (strip t2)) "open") eqn:O.
  - exists n, None. split; [reflexivity | discriminate].
  - destruct L2 as [L2 | L2].
    + destruct (number_float t2 L2) as (q & -> & P).
      exists n, (Some q). split; [reflexivity|]. intros q' [= <-]. exact P.
    + apply ilit_lower in L2. rewrite lower_strip, L2 in O. discriminate O.
Qed.

Lemma tp_pairs_convert (tps : list groups) :
  (forall g, In g tps -> captures _re_tp g) ->
  exists pairs, tp_pairs_of tps = Some pairs /\ List.length pairs = List.length tps /\
    (forall idx q, In (idx, Some q) pairs -> 0 <= q).
Proof.
  induction tps as [|g tps IH]; intros H.
  - exists []. repeat split. intros idx q [].
  - destruct (tp_pair_converts g) as (idx & v & E & P); [apply H; left; reflexivity|].
    destruct IH as (pairs & E' & Len & P'); [intros g' I; apply H; right; exact I|].
    exists ((idx, v) :: pairs). cbn [tp_pairs_of]. rewrite E, E'.
    split; [reflexivity|]. split; [simpl; rewrite Len; reflexivity|].
    intros i q [[= <- ->] | I]; [apply P; reflexivity | eapply P', I].
Qed.

(** The sort by index. *)
Lemma insert_by_perm {A : Type} (le : A -> A -> bool) (x : A) (l : list A) :
  Permutation (x :: l) (insert_by le x l).
Proof.
  induction l as [|y l IH]; simpl; [reflexivity|].
  destruct (le y x); [|reflexivity].
  rewrite perm_swap. apply perm_skip, IH.
Qed.

Lemma sorted_by_perm {A : Type} (le : A -> A -> bool) (l : list A) :
  Permutation l (sorted_by le l).
Proof.
  unfold sorted_by. rewrite (Permutation_rev l) at 1.
  induction (rev l) as [|x r IH]; simpl; [reflexivity|].
  rewrite <- insert_by_perm. apply perm_skip, IH.
Qed.

Lemma insert_by_key_sorted {A : Type} (key : A -> Z) (x : A) (l : list A) :
  StronglySorted (fun a b => (key a <= key b)%Z) l ->
  StronglySorted (fun a b => (key a <= key b)%Z)
                 (insert_by (fun a b => Z.leb (key a) (key b)) x l).
Proof.
  induction 1 as [|y l S IH F]; simpl.
  - constructor; constructor.
  - destruct (Z.leb_spec (key y) (key x)) as [L|L].
    + constructor; [exact IH|].
      rewrite Forall_forall in *. intros z I.
      apply (Permutation_in _ (Permutation_sym (insert_by_perm _ x l))) in I.
      destruct I as [<-|I]; [exact L | apply F, I].
    + constructor; [constructor; assumption|].
      constructor; [lia|].
      rewrite Forall_forall in *. intros z I. specialize (F z I). simpl in F. lia.
Qed.

Lemma sorted_by_key_sorted {A : Type} (key : A -> Z) (l : list A) :
  StronglySorted (fun a b => (key a <= key b)%Z)
                 (sorted_by (fun a b => Z.leb (key a) (key b)) l).
Proof.
  unfold sorted_by. induction (rev l) as [|x r IH]; simpl; [constructor|].
  apply insert_by_key_sorted, IH.
Qed.

End ParserProperties.

(* ------------------------------------------------------------------ *)
(** ** The parsed signal *)

Section ParserTheorems.
Import PyStr PyNum Re SignalParser Spec.

(** The parts a parsed signal is assembled from. *)
Lemma parse_signal_inv (text : string) (sig : ParsedSignal) :
  parse_signal text = Some sig ->
  exists gp gz gs lot z1 z2 sl pairs,
    search _re_pair_dir text = Some gp /\ search _re_zone text = Some gz /\
    search _re_sl text = Some gs /\
    match search _re_lot text with
    | Some gl => py_float (grp gl 1) | None => Some 0
    end = Some lot /\
    py_float (grp gz 1) = Some z1 /\ py_float (grp gz 2) = Some z2 /\
    py_float (grp gs 1) = Some sl /\
    tp_pairs_of (findall _re_tp text) = Some pairs /\
    sig = {| symbol := upper (grp gp 1); direction := upper (grp gp 2);
             lot_size := lot; zone_low := py_min z1 z2; zone_high := py_max z1 z2;
             stop_loss := sl;
             take_profits :=
               map snd (sorted_by (fun a b => Z.leb (fst a) (fst b)) pairs);
             original_text := text |}.
Proof.
  unfold parse_signal. destruct text as [|c text]; [discriminate|].
  set (t := String c text).
  destruct (search _re_pair_dir t) as [gp|]; [|discriminate].
  destruct (search _re_zone t) as [gz|]; [|discriminate].
  destruct (search _re_sl t) as [gs|]; [|discriminate].
  destruct (findall _re_tp t) as [|g tps] eqn:T; [discriminate|].
  destruct (match search _re_lot t with
            | Some gl => py_float (grp gl 1) | None => Some 0 end) as [lot|] eqn:El;
    [|discriminate].
  destruct (py_float (grp gz 1)) as [z1|] eqn:E1; [|discriminate].
  destruct (py_float (grp gz 2)) as [z2|] eqn:E2; [|discriminate].
  destruct (py_float (grp gs 1)) as [sl|] eqn:E3; [|discriminate].
  destruct (tp_pairs_of (g :: tps)) as [pairs|] eqn:Et; [|discriminate].
  intros [= <-]. exists gp, gz, gs, lot, z1, z2, sl, pairs.
  repeat split; try assumption; reflexivity.
Qed.

Lemma py_min_max (a b : Q) : py_min a b <= py_max a b.
Proof.
  unfold py_min, py_max.
  destruct (Qle_bool a b) eqn:E1; destruct (Qle_bool b a) eqn:E2;
    try apply Qle_bool_iff in E1; try apply Qle_bool_iff in E2;
    try apply Qle_bool_false in E1; try apply Qle_bool_false in E2; lra.
Qed.

Lemma py_min_nonneg (a b : Q) : 0 <= a -> 0 <= b -> 0 <= py_min a b.
Proof. unfold py_min. destruct (Qle_bool a b); tauto. Qed.

(** X1.  Whenever [parse_signal] returns a signal, its
    direction is BUY or SELL, its symbol is a non-empty run of upper-case
    letters and digits, and it carries the text it was parsed from. *)
Theorem parsed_symbol_direction (text : string) (sig : ParsedSignal) :
  parse_signal text = Some sig ->
  (direction sig = "BUY" \/ direction sig = "SELL")%string /\
  symbol sig <> EmptyString /\
  all_chars (fun c => is_upper c || is_digit c) (symbol sig) = true /\
  original_text sig = text.
Proof.
  intros H. apply parse_signal_inv in H.
  destruct H as (gp & gz & gs & lot & z1 & z2 & sl & pairs & Ep & _ & _ & _ & _ & _ & _ & _ & ->).
  cbn [direction symbol original_text].
  destruct (pair_groups gp (search_sound _ _ _ Ep)) as [(t1 & G1 & L1) (t2 & G2 & L2)].
  rewrite (grp_of _ _ _ G1), (grp_of _ _ _ G2).
  apply plus_chr_all in L1. destruct L1 as [A1 N1].
  split; [|split; [|split]].
  - destruct L2 as [L2|L2]; apply ilit_upper in L2; rewrite L2; [left|right]; reflexivity.
  - apply upper_nonempty, N1.
  - apply (all_chars_map _ _ _ _ alnum_upper_char A1).
  - reflexivity.
Qed.

(** X2.  Whenever [parse_signal] returns a signal, the zone is
    ordered (zone_low <= zone_high) whichever way the message wrote it,
    and lot, zone, stop and every numeric take profit are not
    negative. *)
Theorem parsed_numbers (text : string) (sig : ParsedSignal) :
  parse_signal text = Some sig ->
  0 <= lot_size sig /\ 0 <= zone_low sig /\ zone_low sig <= zone_high sig /\
  0 <= stop_loss sig /\
  (forall tp, In (Some tp) (take_profits sig) -> 0 <= tp).
Proof.
  intros H. apply parse_signal_inv in H.
  destruct H as (gp & gz & gs & lot & z1 & z2 & sl & pairs
                 & _ & Ez & Es & El & E1 & E2 & E3 & Et & ->).
  cbn [lot_size zone_low zone_high stop_loss take_profits].
  destruct (zone_groups gz (search_sound _ _ _ Ez)) as [(t1 & G1 & L1) (t2 & G2 & L2)].
  destruct (sl_group gs (search_sound _ _ _ Es)) as (t3 & G3 & L3).
  rewrite (grp_of _ _ _ G1) in E1. rewrite (grp_of _ _ _ G2) in E2.
  rewrite (grp_of _ _ _ G3) in E3.
  destruct (number_float t1 L1) as (q1 & F1 & P1).
  destruct (number_float t2 L2) as (q2 & F2 & P2).
  destruct (number_float t3 L3) as (q3 & F3 & P3).
  assert (q1 = z1) by congruence. assert (q2 = z2) by congruence.
  assert (q3 = sl) by congruence. subst q1 q2 q3.
  split; [|split; [|split; [|split]]].
  - destruct (search _re_lot text) as [gl|] eqn:L.
    + destruct (lot_group gl (search_sound _ _ _ L)) as (t & G & Lt).
      rewrite (grp_of _ _ _ G) in El. destruct (lot_number_float t Lt) as (q & F & P).
      assert (q = lot) by congruence. subst q. exact P.
    + injection El as <-. lra.
  - apply py_min_nonneg; assumption.
  - apply py_min_max.
  - exact P3.
  - intros tp I. apply in_map_iff in I. destruct I as ([idx v] & E & I). simpl in E. subst v.
    apply (Permutation_in _ (Permutation_sym (sorted_by_perm _ pairs))) in I.
    destruct (tp_pairs_convert (findall _re_tp text)) as (pairs' & E' & _ & P').
    { intros g. apply findall_sound. }
    assert (pairs' = pairs) by congruence. subst pairs'. apply (P' idx tp I).
Qed.

(** X3.  Whenever [parse_signal] returns a signal, every
    TP match of the text was converted, there is at least one, and the
    take profits are the values of the matches rearranged so that their
    indices do not decrease. *)
Theorem parsed_take_profits (text : string) (sig : ParsedSignal) :
  parse_signal text = Some sig ->
  exists pairs sorted,
    tp_pairs_of (findall _re_tp text) = Some pairs /\
    List.length pairs = List.length (findall _re_tp text) /\ pairs <> [] /\
    Permutation pairs sorted /\
    StronglySorted (fun a b => (fst a <= fst b)%Z) sorted /\
    take_profits sig = map snd sorted.
Proof.
  intros H. pose proof H as H0. apply parse_signal_inv in H.
  destruct H as (gp & gz & gs & lot & z1 & z2 & sl & pairs
                 & _ & _ & _ & _ & _ & _ & _ & Et & ->).
  exists pairs, (sorted_by (fun a b => Z.leb (fst a) (fst b)) pairs).
  destruct (tp_pairs_convert (findall _re_tp text)) as (pairs' & E' & Len & _).
  { intros g. apply findall_sound. }
  assert (pairs' = pairs) by congruence. subst pairs'.
  split; [exact Et|]. split; [exact Len|]. split.
  - intros ->. unfold parse_signal in H0. destruct text; [discriminate|].
    destruct (search _re_pair_dir _); [|discriminate].
    destruct (search _re_zone _); [|discriminate].
    destruct (search _re_sl _); [|discriminate].
    destruct (findall _re_tp _); [discriminate | discriminate Len].
  - split; [apply sorted_by_perm|]. split; [apply (sorted_by_key_sorted fst)|]. reflexivity.
Qed.

(** X4.  [parse_signal] returns nothing exactly when
    the text is empty or one of the pair, zone, stop or TP patterns finds
    no match: no conversion of a captured numeral can fail.  (The model
    of [int] converts a run of digits of any length; CPython refuses
    runs beyond its digit limit, which no TP index of a real message
    comes near.) *)
Theorem parse_signal_rejects (text : string) :
  parse_signal text = None <->
  text = EmptyString \/ search _re_pair_dir text = None \/ search _re_zone text = None
  \/ search _re_sl text = None \/ findall _re_tp text = [].
Proof.
  split.
  - unfold parse_signal. destruct text as [|c text]; [left; reflexivity|].
    set (t := String c text).
    destruct (search _re_pair_dir t) as [gp|] eqn:Ep; [|tauto].
    destruct (search _re_zone t) as [gz|] eqn:Ez; [|tauto].
    destruct (search _re_sl t) as [gs|] eqn:Es; [|tauto].
    destruct (findall _re_tp t) as [|g tps] eqn:T; [tauto|].
    intros H. exfalso.
    destruct (zone_groups gz (search_sound _ _ _ Ez)) as [(t1 & G1 & L1) (t2 & G2 & L2)].
    destruct (sl_group gs (search_sound _ _ _ Es)) as (t3 & G3 & L3).
    rewrite (grp_of _ _ _ G1), (grp_of _ _ _ G2), (grp_of _ _ _ G3) in H.
    destruct (number_float t1 L1) as (q1 & F1 & _).
    destruct (number_float t2 L2) as (q2 & F2 & _).
    destruct (number_float t3 L3) as (q3 & F3 & _).
    rewrite F1, F2, F3 in H.
    destruct (tp_pairs_convert (g :: tps)) as (pairs & E & _).
    { intros g' I. apply (findall_sound _ t). rewrite T. exact I. }
    rewrite E in H.
    destruct (search _re_lot t) as [gl|] eqn:L; [|discriminate H].
    destruct (lot_group gl (search_sound _ _ _ L)) as (t0 & G & Lt).
    rewrite (grp_of _ _ _ G) in H. destruct (lot_number_float t0 Lt) as (q & F & _).
    rewrite F in H. discriminate H.
  - unfold parse_signal. destruct text as [|c text]; [reflexivity|].
    intros [H|[H|[H|[H|H]]]]; [discriminate H| | | |]; rewrite H.
    + reflexivity.
    + destruct (search _re_pair_dir _); reflexivity.
    + destruct (search _re_pair_dir _); [destruct (search _re_zone _)|]; reflexivity.
    + destruct (search _re_pair_dir _); [destruct (search _re_zone _);
        [destruct (search _re_sl _)|]|]; reflexivity.
Qed.

End ParserTheorems.

(* ------------------------------------------------------------------ *)
(** ** The requests of the planner *)

Section PlacementProperties.
Import PyStr PyNum SignalParser Bot Spec.

Lemma parsed_zone_ordered (text : string) (sig : ParsedSignal) :
  parse_signal text = Some sig -> zone_low sig <= zone_high sig.
Proof.
  intros H. apply parse_signal_inv in H.
  destruct H as (gp & gz & gs & lot & z1 & z2 & sl & pairs & _ & _ & _ & _ & _ & _ & _ & _ & ->).
  apply py_min_max.
Qed.

Lemma rung_count_ordered (lo hi : Q) : lo <= hi -> exists n, rung_count lo hi = S n.
Proof.
  intros L. unfold rung_count.
  assert (F : (0 <= Qfloor (hi - lo + zone_eps))%Z).
  { assert (P : inject_Z 0 <= hi - lo + zone_eps)
      by (unfold zone_eps; change (inject_Z 0) with 0; lra).
    apply Qfloor_resp_le in P. rewrite Qfloor_Z in P. exact P. }
  exists (Z.to_nat (Qfloor (hi - lo + zone_eps))).
  rewrite Z2Nat.inj_add by lia. simpl. lia.
Qed.

(** X5.  With enough fuel the plan of a parsed
    signal has a first rung, priced at the rounded near edge of the zone
    (the high edge for BUY, the low edge otherwise) and carrying the first
    numeric take profit, if any. *)
Theorem parsed_signal_first_rung (cfg : Config) (mt : Terminal) (symbol : string)
    (text : string) (sig : ParsedSignal) (k : nat) :
  parse_signal text = Some sig ->
  exists rest,
    plan (S (rung_count (zone_low sig) (zone_high sig)) + k) cfg mt symbol sig
    = Some ({| r_price := round_price mt symbol
                            (if String.eqb (direction sig) "BUY"
                             then zone_high sig else zone_low sig);
               r_lot := vol_each cfg mt symbol sig;
               r_tp := nth_error (numeric_of (take_profits sig)) 0 |} :: rest).
Proof.
  intros H. pose proof (plan_closed cfg mt symbol sig k) as P. cbv zeta in P.
  rewrite P. destruct (rung_count_ordered _ _ (parsed_zone_ordered _ _ H)) as (n & ->).
  cbn [seq map rungs_from]. eexists. f_equal. f_equal. f_equal.
  apply round_price_comp. unfold rung_offset.
  destruct (String.eqb (direction sig) "BUY"); change (inject_Z (Z.of_nat 0)) with 0; ring.
Qed.

(** X6.  When the fallback lot is positive, the volume the
    planner gives every order is positive, whatever the signal, the fixed
    lot and the instrument say. *)
Theorem vol_each_positive (cfg : Config) (mt : Terminal) (symbol : string)
    (sig : ParsedSignal) :
  0 < LOT_FALLBACK cfg -> 0 < vol_each cfg mt symbol sig.
Proof.
  intros F.
  assert (R : 0 < vol_each_raw cfg sig).
  { unfold vol_each_raw.
    destruct (Qlt_bool 0 (lot_size sig)) eqn:A; [apply Qlt_bool_true, A|].
    destruct (USER_FIXED_LOT cfg) as [l|]; [|exact F].
    destruct (Qlt_bool 0 l) eqn:B; [apply Qlt_bool_true, B | exact F]. }
  unfold vol_each.
  destruct (Qle_bool (adjust_lot_for_symbol mt symbol (vol_each_raw cfg sig)) 0) eqn:A;
    [exact R | apply Qle_bool_false, A].
Qed.

Lemma rungs_from_lot (idx : nat) (prices tps : list Q) (vol : Q) (r : Rung) :
  In r (rungs_from idx prices tps vol) -> r_lot r = vol.
Proof.
  revert idx. induction prices as [|p ps IH]; intros idx; simpl; [tauto|].
  intros [<-|I]; [reflexivity | apply (IH _ I)].
Qed.

Lemma plan_lots (fuel : nat) (cfg : Config) (mt : Terminal) (symbol : string)
    (sig : ParsedSignal) (rungs : list Rung) (r : Rung) :
  plan fuel cfg mt symbol sig = Some rungs -> In r rungs ->
  r_lot r = vol_each cfg mt symbol sig.
Proof.
  unfold plan. destruct (ladder_prices fuel mt symbol sig); [|discriminate].
  intros [= <-]. apply rungs_from_lot.
Qed.

(** The requests of the final loop of the planner. *)
Lemma submit_calls (cfg : Config) (mt : Terminal) (symbol side : string) (sl : Q)
    (rungs : list Rung) (c : Call) :
  In c (snd (submit cfg mt symbol side sl rungs)) ->
  exists r, In r rungs /\
    c = OrderSend
          (Pending symbol (r_lot r)
             (if String.eqb side "BUY" then ORDER_TYPE_BUY_LIMIT else ORDER_TYPE_SELL_LIMIT)
             (round_price mt symbol (r_price r)) (round_price mt symbol sl)
             (match r_tp r with Some t => round_price mt symbol t | None => 0 end)
             (SLIPPAGE cfg) (MAGIC cfg) (BRAND_PREFIX ++ "-" ++ side)%string).
Proof.
  induction rungs as [|r rungs IH]; cbn [submit]; [intros []|].
  destruct (place_pending_limit cfg mt symbol side (r_price r) sl (r_tp r) (r_lot r))
    as [ok c1] eqn:E.
  destruct (submit cfg mt symbol side sl rungs) as [ok' c2]. cbn [snd] in *.
  intros I. apply in_app_or in I. destruct I as [I|I].
  - exists r. split; [left; reflexivity|].
    unfold place_pending_limit in E. destruct (symbol_info mt symbol); injection E as <- <-.
    + destruct I as [<-|[]]. destruct (r_tp r); reflexivity.
    + destruct I.
  - destruct (IH I) as (r' & I' & ->). exists r'. split; [right; exact I' | reflexivity].
Qed.

Lemma submit_ok (cfg : Config) (mt : Terminal) (symbol side : string) (sl : Q)
    (rungs : list Rung) :
  fst (submit cfg mt symbol side sl rungs) = true <->
  exists r, In (OrderSend r) (snd (submit cfg mt symbol side sl rungs))
            /\ order_send mt r = true.
Proof.
  induction rungs as [|r rungs IH]; cbn [submit].
  - split; [discriminate | intros (r & [] & _)].
  - destruct (place_pending_limit cfg mt symbol side (r_price r) sl (r_tp r) (r_lot r))
      as [ok c1] eqn:E.
    destruct (submit cfg mt symbol side sl rungs) as [ok' c2]. cbn [fst snd] in *.
    assert (P : ok = true <-> exists q, In (OrderSend q) c1 /\ order_send mt q = true).
    { unfold place_pending_limit in E. destruct (symbol_info mt symbol); injection E as <- <-.
      - split.
        + intros A. eexists. split; [left; reflexivity | exact A].
        + intros (q & [[= <-]|[]] & A). exact A.
      - split; [discriminate | intros (q & [] & _)]. }
    rewrite orb_true_iff, P, IH. split.
    + intros [(q & I & H)|(q & I & H)]; exists q; (split; [apply in_or_app; tauto | exact H]).
    + intros (q & I & H). apply in_app_or in I. destruct I; [left|right]; exists q; tauto.
Qed.

Lemma resolve_calls (cfg : Config) (mt : Terminal) (s : string) (r : Request) :
  ~ In (OrderSend r) (snd (resolve_symbol cfg mt s)).
Proof.
  unfold resolve_symbol.
  assert (G : forall cand sym c, first_known mt cand = Some (sym, c) -> ~ In (OrderSend r) c).
  { induction cand as [|x cand IH]; simpl; [discriminate|]. intros sym c.
    destruct (symbol_info mt x) as [info|]; [|apply IH].
    intros [= <- <-]. destruct (visible info); simpl; [tauto|].
    intros [E|[]]. discriminate E. }
  destruct (first_known mt (resolve_candidates cfg s)) as [[sym c]|] eqn:E; cbn [snd].
  - apply (G _ _ _ E).
  - intros [].
Qed.

Lemma brand_is_ours (cfg : Config) (side : string) (o : Order) :
  o_magic o = MAGIC cfg \/ o_comment o = (BRAND_PREFIX ++ "-" ++ side)%string ->
  ours_order cfg o = true.
Proof.
  unfold ours_order. intros [E|E].
  - rewrite E, Z.eqb_refl. reflexivity.
  - rewrite E. apply orb_true_iff. left. apply orb_true_iff. right.
    unfold startswith, BRAND_PREFIX. simpl. destruct side; reflexivity.
Qed.

(** X7.  Every request [place_orders_from_signal]
    sends is a pending order on the resolved symbol with the planned
    volume, the limit type of the direction, the rounded stop, the
    configured slippage and magic number and the brand comment; an order
    that keeps that magic number or that comment passes the filter of
    [cancel_all_pending]. *)
Theorem placed_orders_are_ours (fuel : nat) (cfg : Config) (mt : Terminal) (st : State)
    (sig : ParsedSignal) (ok : bool) (st' : State) (calls : list Call) (r : Request) :
  place_orders_from_signal fuel cfg mt st sig = Some (ok, st', calls) ->
  In (OrderSend r) calls ->
  let sym := fst (resolve_symbol cfg mt (symbol sig)) in
  (exists price tp,
      r = Pending sym (vol_each cfg mt sym sig)
            (if String.eqb (direction sig) "BUY"
             then ORDER_TYPE_BUY_LIMIT else ORDER_TYPE_SELL_LIMIT)
            price (round_price mt sym (stop_loss sig)) tp
            (SLIPPAGE cfg) (MAGIC cfg) ("ForeAi-" ++ direction sig)%string) /\
  (forall o : Order,
      o_magic o = MAGIC cfg \/ o_comment o = ("ForeAi-" ++ direction sig)%string ->
      ours_order cfg o = true).
Proof.
  intros H I sym. unfold place_orders_from_signal in H.
  split; [|apply brand_is_ours].
  pose proof (resolve_calls cfg mt (symbol sig) r) as NC.
  unfold sym. destruct (resolve_symbol cfg mt (symbol sig)) as [s c0]. cbn [fst snd] in *.
  destruct (plan fuel cfg mt s sig) as [rungs|] eqn:P; [|discriminate].
  destruct (submit cfg mt s (direction sig) (stop_loss sig) rungs) as [ok1 c1] eqn:S.
  injection H as _ _ <-. apply in_app_or in I. destruct I as [I|I]; [contradiction|].
  pose proof (submit_calls cfg mt s (direction sig) (stop_loss sig) rungs (OrderSend r)) as C.
  rewrite S in C. destruct (C I) as (q & Iq & [= ->]).
  rewrite (plan_lots _ _ _ _ _ _ _ P Iq). eexists _, _. reflexivity.
Qed.

(** X8.  [place_orders_from_signal] returns true exactly
    when the terminal accepted one of the requests it sent. *)
Theorem place_orders_result (fuel : nat) (cfg : Config) (mt : Terminal) (st : State)
    (sig : ParsedSignal) (ok : bool) (st' : State) (calls : list Call) :
  place_orders_from_signal fuel cfg mt st sig = Some (ok, st', calls) ->
  (ok = true <-> exists r, In (OrderSend r) calls /\ order_send mt r = true).
Proof.
  unfold place_orders_from_signal. intros H.
  pose proof (resolve_calls cfg mt (symbol sig)) as NC.
  destruct (resolve_symbol cfg mt (symbol sig)) as [s c0]. cbn [snd] in NC.
  destruct (plan fuel cfg mt s sig) as [rungs|]; [|discriminate].
  pose proof (submit_ok cfg mt s (direction sig) (stop_loss sig) rungs) as S.
  destruct (submit cfg mt s (direction sig) (stop_loss sig) rungs) as [ok1 c1].
  injection H as <- _ <-. cbn [fst snd] in S. rewrite S. split.
  - intros (r & I & A). exists r. split; [apply in_or_app; right; exact I | exact A].
  - intros (r & I & A). exists r. split; [|exact A].
    apply in_app_or in I. destruct I as [I|I]; [destruct (NC r I) | exact I].
Qed.

Lemma submit_unknown (cfg : Config) (mt : Terminal) (symbol side : string) (sl : Q)
    (rungs : list Rung) :
  symbol_info mt symbol = None -> submit cfg mt symbol side sl rungs = (false, []).
Proof.
  intros U. induction rungs as [|r rungs IH]; cbn [submit]; [reflexivity|].
  unfold place_pending_limit. rewrite U, IH. reflexivity.
Qed.

Lemma first_known_unknown (mt : Terminal) (cand : list string) :
  (forall s, In s cand -> symbol_info mt s = None) -> first_known mt cand = None.
Proof.
  induction cand as [|s cand IH]; intros U; simpl; [reflexivity|].
  rewrite (U s) by (left; reflexivity). apply IH. intros x I. apply U. right. exact I.
Qed.

(** X9.  When the terminal knows none of the
    candidates, [place_orders_from_signal] sends nothing and returns
    false, and still records the ladder of a signal that has a numeric
    take profit, under the default symbol. *)
Theorem unknown_symbol_places_nothing (cfg : Config) (mt : Terminal) (st : State)
    (sig : ParsedSignal) (k : nat) :
  (forall s, In s (resolve_candidates cfg (symbol sig)) -> symbol_info mt s = None) ->
  place_orders_from_signal (S (rung_count (zone_low sig) (zone_high sig)) + k) cfg mt st sig
  = Some (false,
          if nonempty_list (numeric_of (take_profits sig))
          then record_ladder st (SYMBOL_DEFAULT cfg, direction sig)
                             (ladder_of (numeric_of (take_profits sig)))
          else st,
          []).
Proof.
  intros U. unfold place_orders_from_signal, resolve_symbol.
  rewrite (first_known_unknown _ _ U).
  rewrite (plan_closed cfg mt (SYMBOL_DEFAULT cfg) sig k).
  rewrite submit_unknown; [reflexivity|].
  apply U. right. right. left. reflexivity.
Qed.

End PlacementProperties.

(* ------------------------------------------------------------------ *)
(** ** Bulk operations and the trailing pass, in general *)

Section BulkProperties.
Import PyStr PyNum SignalParser Bot Spec.

(** X10.  When no pending order is on the symbol asked
    for, [cancel_all_pending] acts as if no symbol had been given: it
    takes the pending orders of every symbol. *)
Theorem cancel_fallback_widens (cfg : Config) (mt : Terminal) (s : string)
    (include_all_magics : bool) :
  orders_get mt (Some s) = [] ->
  cancel_all_pending cfg mt (Some s) include_all_magics
  = cancel_all_pending cfg mt None include_all_magics.
Proof.
  intros E. unfold cancel_all_pending, to_cancel. rewrite E.
  destruct (orders_get mt None); reflexivity.
Qed.

(** X11.  When a pending order is on the symbol asked
    for, every removal [cancel_all_pending] sends is for an order of the
    terminal on that symbol, and for one the ownership test accepts when
    the filter is on. *)
Theorem cancel_symbol_scope (cfg : Config) (mt : Terminal) (s : string)
    (include_all_magics : bool) (c : Call) :
  orders_get mt (Some s) <> [] ->
  In c (snd (cancel_all_pending cfg mt (Some s) include_all_magics)) ->
  exists o, In o (orders mt) /\ o_symbol o = s /\ c = OrderSend (Remove (o_ticket o)) /\
            (include_all_magics = false -> ours_order cfg o = true).
Proof.
  intros N I. unfold cancel_all_pending in I. cbn [snd] in I.
  rewrite map_map in I. apply in_map_iff in I. destruct I as (o & <- & I).
  exists o. unfold to_cancel in I.
  destruct (orders_get mt (Some s)) as [|o0 l] eqn:E; [congruence|].
  assert (S : forall x, In x (o0 :: l) -> In x (orders mt) /\ o_symbol x = s).
  { intros x Ix. rewrite <- E in Ix. cbn [orders_get] in Ix. apply filter_In in Ix.
    destruct Ix as [Ix Ex]. apply String.eqb_eq in Ex. tauto. }
  destruct include_all_magics.
  - destruct (S o I). repeat split; try assumption. discriminate.
  - apply filter_In in I. destruct I as [I O]. destruct (S o I).
    repeat split; try assumption. intros _. exact O.
Qed.

(** X12.  The profit filter of [close_all_positions]
    selects the positions of the unfiltered selection whose profit is
    positive, the loss filter those whose profit is negative; a position
    whose profit is zero is in neither. *)
Theorem close_filters_split (cfg : Config) (mt : Terminal) (symbol : option string)
    (include_all_magics : bool) (p : Position) :
  (In p (to_close cfg mt symbol include_all_magics (Some true)) <->
   In p (to_close cfg mt symbol include_all_magics None) /\ 0 < p_profit p) /\
  (In p (to_close cfg mt symbol include_all_magics (Some false)) <->
   In p (to_close cfg mt symbol include_all_magics None) /\ p_profit p < 0) /\
  (p_profit p == 0 ->
   ~ In p (to_close cfg mt symbol include_all_magics (Some true)) /\
   ~ In p (to_close cfg mt symbol include_all_magics (Some false))).
Proof.
  unfold to_close. rewrite !filter_In. unfold selected_position.
  destruct (negb include_all_magics && negb (Z.eqb (p_magic p) (MAGIC cfg))).
  - split; [|split].
    + split; [intros [_ A]; discriminate A | intros [[_ A] _]; discriminate A].
    + split; [intros [_ A]; discriminate A | intros [[_ A] _]; discriminate A].
    + intros _. split; intros [_ A]; discriminate A.
  - split; [|split].
    + split; [intros [I A]; apply Qlt_bool_true in A; tauto|].
      intros [[I _] A]. apply Qlt_bool_true in A. tauto.
    + split; [intros [I A]; apply Qlt_bool_true in A; tauto|].
      intros [[I _] A]. apply Qlt_bool_true in A. tauto.
    + intros Z. split; intros [_ A]; apply Qlt_bool_true in A; lra.
Qed.

Lemma filter_all {A : Type} (l : list A) : filter (fun _ => true) l = l.
Proof. induction l as [|x l IH]; simpl; [|rewrite IH]; reflexivity. Qed.

(** X13.  The command /kill without argument sends a
    closing deal for every position that has a tick and then a removal
    for every pending order, whatever their magic numbers. *)
Theorem kill_ignores_ownership (cfg : Config) (mt : Terminal) :
  handle_command cfg mt "/kill" []
  = Some (map OrderSend (flat_map (close_request cfg mt) (positions mt))
          ++ map OrderSend (map (fun o => Remove (o_ticket o)) (orders mt))).
Proof.
  cbn [handle_command String.eqb Ascii.eqb Bool.eqb orb in_list existsb].
  unfold close_calls, cancel_calls, close_all_positions, cancel_all_pending.
  cbn [snd]. unfold to_close, to_cancel, selected_position. cbn [negb andb positions_get orders_get].
  rewrite filter_all. destruct (orders mt); reflexivity.
Qed.

End BulkProperties.

Section TrailingProperties.
Import PyStr PyNum SignalParser Bot Spec.

Lemma trail_position_inv (cfg : Config) (mt : Terminal) (d : ladders) (p : Position)
    (r : Request) :
  trail_position cfg mt d p = Some r ->
  exists tick ladder t sl,
    symbol_info_tick mt (p_symbol p) = Some tick /\
    ladders_get d (p_symbol p, position_direction p) = Some ladder /\
    ladder <> [] /\
    target_stop p (achieved (position_direction p) (reference_price p tick)
                            (sorted_set ladder)) (sorted_set ladder) = Some t /\
    guarded_stop mt p (reference_price p tick) (round_price mt (p_symbol p) t) = Some sl /\
    r = Sltp (p_ticket p) (p_symbol p) sl (p_tp p) (MAGIC cfg).
Proof.
  unfold trail_position.
  destruct (symbol_info_tick mt (p_symbol p)) as [tick|]; [|discriminate].
  destruct (ladders_get d (p_symbol p, position_direction p)) as [ladder|]; [|discriminate].
  destruct ladder as [|x l] eqn:E; [discriminate|]. cbn [nonempty_list]. rewrite <- E.
  destruct (target_stop _ _ _) as [t|] eqn:T; [|discriminate].
  destruct (guarded_stop _ _ _ _) as [sl|] eqn:G; [|discriminate].
  intros [= <-]. exists tick, ladder, t, sl. repeat split; try assumption; try reflexivity.
  rewrite E. discriminate.
Qed.

(** X14.  Every request of
    [maintain_trailing_stops] changes the stop of a position of the
    terminal that carries the configured magic number, has a tick and a
    recorded, non-empty ladder, and leaves its take profit as it is. *)
Theorem trailing_touches_owned_only (cfg : Config) (mt : Terminal) (st : State) (c : Call) :
  In c (maintain_trailing_stops cfg mt st) ->
  exists p sl,
    In p (positions mt) /\ p_magic p = MAGIC cfg /\
    c = OrderSend (Sltp (p_ticket p) (p_symbol p) sl (p_tp p) (MAGIC cfg)) /\
    symbol_info_tick mt (p_symbol p) <> None /\
    exists ladder,
      ladders_get (TP_LADDERS st) (p_symbol p, position_direction p) = Some ladder /\
      ladder <> [].
Proof.
  unfold maintain_trailing_stops. intros I. apply in_map_iff in I.
  destruct I as (r & <- & I). apply in_flat_map in I. destruct I as (p & Ip & I).
  apply filter_In in Ip. destruct Ip as [Ip M]. apply Z.eqb_eq in M.
  destruct (trail_position cfg mt (TP_LADDERS st) p) as [r'|] eqn:T; [|destruct I].
  destruct I as [<-|[]].
  apply trail_position_inv in T.
  destruct T as (tick & ladder & t & sl & Tk & L & N & _ & _ & ->).
  exists p, sl. repeat split; try assumption.
  - rewrite Tk. discriminate.
  - exists ladder. split; assumption.
Qed.

Lemma trailing_count (cfg : Config) (mt : Terminal) (st : State) :
  (List.length (maintain_trailing_stops cfg mt st)
   <= List.length (filter (fun p => Z.eqb (p_magic p) (MAGIC cfg)) (positions mt)))%nat.
Proof.
  unfold maintain_trailing_stops. rewrite length_map. cbn [positions_get].
  induction (filter _ (positions mt)) as [|p l IH]; simpl; [lia|].
  rewrite length_app. destruct (trail_position _ _ _ p); simpl; lia.
Qed.

(** A rounded value is within half a unit of the last digit. *)
Lemma py_round_near (x : Q) (n : nat) :
  x - (1 # 2) / scale n <= py_round x n <= x + (1 # 2) / scale n.
Proof.
  rewrite py_round_val. pose proof (scale_pos n) as P.
  pose proof (round_half_even_bounds (x * scale n)) as [L U]. split.
  - apply Qle_shift_div_l; [exact P|].
    assert (E : (x - (1 # 2) / scale n) * scale n == x * scale n - (1 # 2))
      by (field; apply scale_neq0).
    rewrite E. exact L.
  - apply Qle_shift_div_r; [exact P|].
    assert (E : (x + (1 # 2) / scale n) * scale n == x * scale n + (1 # 2))
      by (field; apply scale_neq0).
    rewrite E. exact U.
Qed.

Lemma guarded_stop_side (mt : Terminal) (p : Position) (current new_sl sl : Q) :
  point_matches_digits mt (p_symbol p) ->
  guarded_stop mt p current new_sl = Some sl ->
  if String.eqb (position_direction p) "BUY" then sl < current else current < sl.
Proof.
  unfold point_matches_digits, point_of, guarded_stop, round_price, digits_of.
  set (pt := match symbol_info mt (p_symbol p) with
             | Some info => point info | None => 1 # 100 end).
  set (n := match symbol_info mt (p_symbol p) with
            | Some info => digits info | None => 2%nat end).
  intros M.
  pose proof (scale_pos n) as P. apply Qinv_lt_0_compat in P.
  destruct (String.eqb (position_direction p) "BUY").
  - destruct (Qle_bool new_sl (p_sl p + trail_eps)); [discriminate|].
    destruct (Qle_bool current new_sl) eqn:C; intros [= <-].
    + pose proof (py_round_near (current - 2 * pt) n) as [_ U].
      unfold Qdiv in *. set (u := / scale n) in *. lra.
    + apply Qle_bool_false in C. exact C.
  - destruct (Qlt_bool 0 (p_sl p) && Qle_bool (p_sl p - trail_eps) new_sl); [discriminate|].
    destruct (Qle_bool new_sl current) eqn:C; intros [= <-].
    + pose proof (py_round_near (current + 2 * pt) n) as [L _].
      unfold Qdiv in *. set (u := / scale n) in *. lra.
    + apply Qle_bool_false in C. exact C.
Qed.

(** X15.  On an instrument whose point is one unit of its
    last digit, the stop the trailing pass requests is below the bid for
    a BUY position and above the ask for any other. *)
Theorem trailing_stop_side (cfg : Config) (mt : Terminal) (d : ladders) (p : Position)
    (tick : Tick) (ticket : Z) (sym : string) (sl tp : Q) (magic : Z) :
  point_matches_digits mt (p_symbol p) ->
  symbol_info_tick mt (p_symbol p) = Some tick ->
  trail_position cfg mt d p = Some (Sltp ticket sym sl tp magic) ->
  if String.eqb (position_direction p) "BUY" then sl < bid tick else ask tick < sl.
Proof.
  intros M Tk T. apply trail_position_inv in T.
  destruct T as (tick' & ladder & t & sl' & Tk' & _ & _ & _ & G & [= _ _ <- _ _]).
  assert (tick' = tick) by congruence. subst tick'.
  pose proof (guarded_stop_side mt p _ _ _ M G) as S.
  unfold reference_price, position_direction in *.
  destruct (Z.eqb (p_type p) POSITION_TYPE_BUY); exact S.
Qed.

Lemma guarded_stop_again (mt : Terminal) (p : Position) (current new_sl sl : Q) :
  guarded_stop mt p current new_sl = Some sl ->
  guarded_stop mt (with_stop p sl) current new_sl = None
  \/ guarded_stop mt (with_stop p sl) current new_sl = Some sl.
Proof.
  unfold guarded_stop. cbn [with_stop p_symbol p_sl].
  change (position_direction (with_stop p sl)) with (position_direction p).
  destruct (String.eqb (position_direction p) "BUY").
  - destruct (Qle_bool new_sl (p_sl p + trail_eps)); [discriminate|].
    destruct (Qle_bool new_sl (sl + trail_eps)); [left; reflexivity|].
    destruct (Qle_bool current new_sl); intros [= <-]; right; reflexivity.
  - destruct (Qlt_bool 0 (p_sl p) && Qle_bool (p_sl p - trail_eps) new_sl); [discriminate|].
    destruct (Qlt_bool 0 sl && Qle_bool (sl - trail_eps) new_sl); [left; reflexivity|].
    destruct (Qle_bool new_sl current); intros [= <-]; right; reflexivity.
Qed.

Lemma trail_position_again (cfg : Config) (mt : Terminal) (d : ladders) (p : Position)
    (ticket : Z) (sym : string) (sl tp : Q) (magic : Z) :
  trail_position cfg mt d p = Some (Sltp ticket sym sl tp magic) ->
  trail_position cfg mt d (with_stop p sl) = None
  \/ trail_position cfg mt d (with_stop p sl) = Some (Sltp ticket sym sl tp magic).
Proof.
  intros T. apply trail_position_inv in T.
  destruct T as (tick & ladder & t & sl' & Tk & L & N & Tg & G & [= -> -> -> -> ->]).
  pose proof (trail_position_stages cfg mt d (with_stop p sl') tick ladder Tk L N) as S.
  cbv zeta in S. rewrite S.
  change (position_direction (with_stop p sl')) with (position_direction p).
  change (reference_price (with_stop p sl') tick) with (reference_price p tick).
  change (target_stop (with_stop p sl')) with (target_stop p). rewrite Tg.
  cbn [with_stop p_symbol p_ticket p_tp].
  change (p_symbol p) with (p_symbol (with_stop p sl')) at 1.
  destruct (guarded_stop_again mt p _ _ _ G) as [-> | ->]; [left | right]; reflexivity.
Qed.

(** X16.  A second trailing pass on the same prices,
    after the terminal carried out the request of the first, leaves the
    position as the first one left it. *)
Theorem trailing_tick_settles (cfg : Config) (mt : Terminal) (d : ladders) (p : Position) :
  trailing_tick cfg mt d (trailing_tick cfg mt d p) = trailing_tick cfg mt d p.
Proof.
  unfold trailing_tick at 2 3.
  destruct (trail_position cfg mt d p) as [r|] eqn:T.
  - pose proof T as T0. apply trail_position_inv in T0.
    destruct T0 as (tick & ladder & t & sl & _ & _ & _ & _ & _ & ->).
    cbn [apply_sltp]. rewrite Z.eqb_refl. cbn [andb].
    destruct (order_send mt _) eqn:A.
    + fold (with_stop p sl). unfold trailing_tick.
      destruct (trail_position_again cfg mt d p _ _ _ _ _ T) as [-> | ->]; [reflexivity|].
      cbn [apply_sltp with_stop p_ticket]. rewrite Z.eqb_refl, A. reflexivity.
    + unfold trailing_tick. rewrite T. cbn [apply_sltp]. rewrite Z.eqb_refl, A. reflexivity.
  - unfold trailing_tick. rewrite T. reflexivity.
Qed.

End TrailingProperties.

(* ------------------------------------------------------------------ *)
(** ** The ladder file as a whole *)

Section DictOrder.
Context {K V : Type} (eqb : K -> K -> bool).
Hypothesis eqb_eq : forall a b, eqb a b = true <-> a = b.

Lemma set_fresh (k : K) (v : V) (d : Dict.dict K V) :
  ~ In k (map fst d) -> Dict.set eqb k v d = d ++ [(k, v)].
Proof.
  induction d as [|[k' v'] d IH]; simpl; intros N; [reflexivity|].
  destruct (eqb k k') eqn:E.
  - apply eqb_eq in E. subst k'. tauto.
  - rewrite IH by tauto. reflexivity.
Qed.

Lemma fold_set_fresh (l : list (K * V)) :
  forall acc : Dict.dict K V,
    NoDup (map fst (acc ++ l)) ->
    fold_left (fun d kv => Dict.set eqb (fst kv) (snd kv) d) l acc = acc ++ l.
Proof.
  induction l as [|[k v] l IH]; intros acc N; simpl.
  - rewrite app_nil_r. reflexivity.
  - rewrite set_fresh.
    + rewrite IH; rewrite <- app_assoc; [reflexivity | exact N].
    + rewrite map_app in N. simpl in N. apply NoDup_remove_2 in N.
      intros I. apply N. apply in_or_app. left. exact I.
Qed.

(** A comprehension over items with distinct keys keeps them as they
    come. *)
Lemma of_items_nodup (l : list (K * V)) :
  NoDup (map fst l) -> Dict.of_items eqb l = l.
Proof. intros N. unfold Dict.of_items. rewrite fold_set_fresh; [reflexivity | exact N]. Qed.

End DictOrder.

Section StoreProperties.
Import PyStr PyNum SignalParser Bot Spec Json.

Lemma file_key_inj_instr (k k' : ladder_key) :
  no_bar (fst k) = true -> no_bar (fst k') = true -> file_key k = file_key k' -> k = k'.
Proof.
  intros N N' E.
  pose proof (split_once_join (fst k) (snd k) N) as S.
  pose proof (split_once_join (fst k') (snd k') N') as S'.
  rewrite <- !file_key_bar in S, S'. rewrite E in S. rewrite S' in S.
  destruct k, k'. cbn [fst snd] in S. congruence.
Qed.

Lemma filter_true {A : Type} (f : A -> bool) (l : list A) :
  (forall x, In x l -> f x = true) -> filter f l = l.
Proof.
  induction l as [|x l IH]; intros H; simpl; [reflexivity|].
  rewrite (H x) by (left; reflexivity). rewrite IH; [reflexivity|].
  intros y I. apply H. right. exact I.
Qed.

Lemma NoDup_map_inj {A B : Type} (f : A -> B) (l : list A) :
  (forall x y, In x l -> In y l -> f x = f y -> x = y) -> NoDup l -> NoDup (map f l).
Proof.
  intros Inj N. induction N as [|x l Nx N IH]; simpl; [constructor|].
  constructor.
  - intros I. apply in_map_iff in I. destruct I as (y & E & I).
    assert (y = x) by (apply Inj; [right; exact I | left; reflexivity | exact E]).
    subst y. contradiction.
  - apply IH. intros a b Ia Ib. apply Inj; right; assumption.
Qed.

(** The file keys of a store are distinct. *)
Lemma file_keys_nodup (d : ladders) :
  store_ok d -> NoDup (map (fun kv => file_key (fst kv)) d).
Proof.
  intros [W O]. unfold Dict.wf in W. rewrite <- (map_map fst file_key).
  apply NoDup_map_inj; [|exact W].
  intros k k' I I' E. apply in_map_iff in I, I'.
  destruct I as ([k1 v] & <- & I), I' as ([k2 v'] & <- & I').
  apply file_key_inj_instr; [apply (O _ _ I) | apply (O _ _ I') | exact E].
Qed.

Lemma save_data_ok (d : ladders) :
  store_ok d -> save_data d = map (fun kv => (file_key (fst kv), snd kv)) d.
Proof.
  intros S. unfold save_data. rewrite filter_true.
  - apply (of_items_nodup String.eqb string_eqb_eq).
    rewrite map_map. cbn [fst]. apply file_keys_nodup, S.
  - intros [k v] I. destruct (proj2 S k v I) as [_ N]. destruct v; [congruence | reflexivity].
Qed.

Lemma load_saved_entries (f : string -> option Q) (d : ladders) :
  (forall k v, In (k, v) d -> no_bar (fst k) = true /\ v <> []) ->
  forall acc : ladders,
    fold_left (load_entry f)
              (map (fun kv => (file_key (fst kv), JArr (map JNum (snd kv)))) d) acc
    = fold_left (fun a kv => Dict.set key_eqb (fst kv) (snd kv) a) d acc.
Proof.
  induction d as [|[k v] d IH]; intros O acc; [reflexivity|].
  cbn [map fold_left fst snd]. rewrite IH by (intros k' v' I; apply O; right; exact I).
  f_equal. destruct (O k v (or_introl eq_refl)) as [N Nv].
  unfold load_entry. cbn [fst snd iter_json]. fold bar.
  rewrite file_key_bar, (split_once_join _ _ N), floats_of_numbers.
  destruct v; [congruence|]. destruct k. reflexivity.
Qed.

(** Saving a store and loading the file into an empty map gives the
    store back, entry by entry and in the same order. *)
Lemma save_load_store (f : string -> option Q) (st st0 : State) :
  store_ok (TP_LADDERS st) ->
  tp_file st0 = Loaded (dump (save_data (TP_LADDERS st))) -> TP_LADDERS st0 = [] ->
  TP_LADDERS (_load_tp_ladders f st0) = TP_LADDERS st.
Proof.
  intros S F E. pose proof S as [W O].
  assert (D : dump (save_data (TP_LADDERS st))
              = JObj (map (fun kv => (file_key (fst kv), JArr (map JNum (snd kv))))
                          (TP_LADDERS st))).
  { rewrite (save_data_ok _ S). unfold dump. rewrite map_map. reflexivity. }
  rewrite D in F. rewrite (load_file f st0 _ F), E.
  rewrite (of_items_nodup String.eqb string_eqb_eq).
  - rewrite (load_saved_entries f _ O).
    apply (fold_set_fresh key_eqb key_eqb_eq). exact W.
  - rewrite map_map. cbn [fst]. apply file_keys_nodup, S.
Qed.

(** X17.  For a ladder map that is a dictionary, whose
    instruments hold no bar and whose ladders are not empty, saving and
    then loading the file into an empty map gives the very same map,
    entries in the same order. *)
Theorem save_load_exact (f : string -> option Q) (st : State) :
  store_ok (TP_LADDERS st) ->
  TP_LADDERS (_load_tp_ladders f (restart (_save_tp_ladders st))) = TP_LADDERS st.
Proof.
  intros S. apply save_load_store; [exact S | reflexivity | reflexivity].
Qed.

Lemma no_bar_app (a b : string) : no_bar (a ++ b) = no_bar a && no_bar b.
Proof.
  induction a as [|c a IH]; simpl; [reflexivity|]. rewrite IH, andb_assoc. reflexivity.
Qed.

Lemma not_bar_alnum (c : ascii) :
  is_upper c || is_digit c = true -> negb (Ascii.eqb (upper_char c) "|") = true.
Proof.
  destruct c as [[] [] [] [] [] [] [] []]; vm_compute; intros H; try reflexivity; discriminate.
Qed.

Lemma no_bar_upper_alnum (s : string) :
  all_chars (fun c => is_upper c || is_digit c) s = true -> no_bar (upper s) = true.
Proof.
  induction s as [|c s IH]; [reflexivity|].
  cbn [all_chars]. intros H. apply andb_true_iff in H. destruct H as [C H].
  change (negb (Ascii.eqb (upper_char c) "|") && no_bar (upper s) = true).
  rewrite (not_bar_alnum c C), (IH H). reflexivity.
Qed.

Lemma upper_alnum_fixed (s : string) :
  all_chars (fun c => is_upper c || is_digit c) s = true -> upper s = s.
Proof.
  induction s as [|c s IH]; [reflexivity|].
  cbn [all_chars]. intros H. apply andb_true_iff in H. destruct H as [C H].
  change (String (upper_char c) (upper s) = String c s). rewrite (IH H). f_equal.
  revert C. destruct c as [[] [] [] [] [] [] [] []]; vm_compute; intros C;
    try reflexivity; discriminate.
Qed.

Lemma store_ok_set (d : ladders) (k : ladder_key) (v : list Q) :
  store_ok d -> no_bar (fst k) = true -> v <> [] -> store_ok (ladders_set d k v).
Proof.
  intros [W O] N Nv. split; [apply (set_wf key_eqb key_eqb_eq), W|].
  intros k' v' I. apply (set_In key_eqb key_eqb_eq) in I.
  destruct I as [[= -> ->]|I]; [tauto | apply (O _ _ I)].
Qed.

Lemma nonempty_list_true {A : Type} (l : list A) : nonempty_list l = true -> l <> [].
Proof. destruct l; [discriminate | discriminate]. Qed.

Lemma parsed_symbol_alnum (text : string) (sig : ParsedSignal) :
  parse_signal text = Some sig ->
  all_chars (fun c => is_upper c || is_digit c) (symbol sig) = true.
Proof.
  intros H. apply parse_signal_inv in H.
  destruct H as (gp & gz & gs & lot & z1 & z2 & sl & pairs & Ep & _ & _ & _ & _ & _ & _ & _ & ->).
  cbn [symbol].
  destruct (pair_groups gp (search_sound _ _ _ Ep)) as [(t1 & G1 & L1) _].
  rewrite (grp_of _ _ _ G1). apply plus_chr_all in L1. destruct L1 as [A1 _].
  apply (all_chars_map _ _ _ _ alnum_upper_char A1).
Qed.

Lemma resolve_symbol_candidate (cfg : Config) (mt : Terminal) (s : string) :
  In (fst (resolve_symbol cfg mt s)) (resolve_candidates cfg s).
Proof.
  unfold resolve_symbol.
  pose proof (first_known_spec mt (resolve_candidates cfg s)) as S.
  destruct (first_known mt (resolve_candidates cfg s)) as [[r c]|]; cbn [fst].
  - destruct S as (pre & post & -> & _). apply in_or_app. right. left. reflexivity.
  - right. right. left. reflexivity.
Qed.

Lemma cache_ladder_ok (cfg : Config) (st : State) (parsed : ParsedSignal) :
  no_bar (SYMBOL_SUFFIX cfg) = true ->
  all_chars (fun c => is_upper c || is_digit c) (symbol parsed) = true ->
  store_ok (TP_LADDERS st) ->
  store_ok (TP_LADDERS (cache_ladder cfg st parsed)) /\
  kept_or_saved st (cache_ladder cfg st parsed).
Proof.
  intros Ns A S. unfold cache_ladder, kept_or_saved.
  destruct (nonempty_list (sorted_set (numeric_of (take_profits parsed)))) eqn:N;
    [|tauto].
  apply nonempty_list_true in N. split; [|right; reflexivity].
  cbn [_save_tp_ladders TP_LADDERS].
  pose proof (no_bar_upper_alnum _ A) as B.
  assert (S1 : store_ok (ladders_set (TP_LADDERS st)
                           (upper (symbol parsed), direction parsed)
                           (sorted_set (numeric_of (take_profits parsed)))))
    by (apply store_ok_set; assumption).
  destruct (nonempty (SYMBOL_SUFFIX cfg)); [|exact S1].
  apply store_ok_set; [exact S1 | | exact N].
  cbn [fst]. rewrite no_bar_app, B, Ns. reflexivity.
Qed.

Lemma place_orders_ok (fuel : nat) (cfg : Config) (mt : Terminal) (st : State)
    (sig : ParsedSignal) (ok : bool) (st' : State) (calls : list Call) :
  no_bar (SYMBOL_SUFFIX cfg) = true -> no_bar (SYMBOL_DEFAULT cfg) = true ->
  no_bar (symbol sig) = true ->
  store_ok (TP_LADDERS st) ->
  place_orders_from_signal fuel cfg mt st sig = Some (ok, st', calls) ->
  store_ok (TP_LADDERS st') /\ kept_or_saved st st'.
Proof.
  intros Ns Nd Nsym S. unfold place_orders_from_signal, kept_or_saved.
  pose proof (resolve_symbol_candidate cfg mt (symbol sig)) as C.
  destruct (resolve_symbol cfg mt (symbol sig)) as [sym c0]. cbn [fst] in C.
  destruct (plan fuel cfg mt sym sig) as [rungs|]; [|discriminate].
  destruct (submit cfg mt sym (direction sig) (stop_loss sig) rungs) as [ok1 c1].
  intros [= _ <- _].
  destruct (nonempty_list (numeric_of (take_profits sig))) eqn:N; [|tauto].
  apply nonempty_list_true in N. split; [|right; reflexivity].
  cbn [record_ladder _save_tp_ladders TP_LADDERS].
  apply store_ok_set; [exact S | | apply sorted_set_nonempty, N].
  cbn [fst]. unfold resolve_candidates in C.
  destruct C as [<-|[<-|[<-|[]]]]; try assumption.
  destruct (nonempty (SYMBOL_SUFFIX cfg)); [|exact Nsym].
  rewrite no_bar_app, Nsym, Ns. reflexivity.
Qed.

Lemma kept_or_saved_trans (a b c : State) :
  kept_or_saved a b -> kept_or_saved b c -> kept_or_saved a c.
Proof.
  unfold kept_or_saved. intros [[M F]|Y] [[M' F']|Y']; try (right; assumption).
  - left. split; congruence.
  - right. unfold in_sync in *. congruence.
Qed.

(** X18.  With a suffix and a default symbol that hold no
    bar, [handle_message] keeps the ladder map a dictionary of non-empty
    ladders whose instruments hold no bar, and keeps it restorable: a
    process restarted on the file would load the same map. *)
Theorem handler_keeps_store (fuel : nat) (cfg : Config) (mt : Terminal) (st : State)
    (update : option Message) (st' : State) (calls : list Call) :
  no_bar (SYMBOL_SUFFIX cfg) = true -> no_bar (SYMBOL_DEFAULT cfg) = true ->
  store_ok (TP_LADDERS st) -> restorable st ->
  handle_message fuel cfg mt st update = Some (st', calls) ->
  store_ok (TP_LADDERS st') /\ restorable st'.
Proof.
  intros Ns Nd S Y H.
  assert (G : store_ok (TP_LADDERS st') /\ kept_or_saved st st').
  { assert (K : kept_or_saved st st) by (left; split; reflexivity).
    unfold handle_message in H.
    destruct update as [msg|]; [|injection H as <- _; tauto].
    destruct (m_text msg) as [raw|]; [|injection H as <- _; tauto].
    destruct (negb (nonempty raw)); [injection H as <- _; tauto|].
    destruct (nonempty (TELEGRAM_CHANNEL_ID cfg) && _); [injection H as <- _; tauto|].
    destruct (startswith (strip raw) "/getid"); [injection H as <- _; tauto|].
    destruct (command_of cfg mt (strip raw)); [injection H as <- _; tauto|].
    destruct (_parse_flexible_format1 (strip raw)); [injection H as <- _; tauto|].
    destruct (_parse_flexible_format2 (strip raw)); [injection H as <- _; tauto|].
    unfold handle_signal in H.
    destruct (parse_signal (strip raw)) as [parsed|] eqn:P; [|injection H as <- _; tauto].
    pose proof (parsed_symbol_alnum _ _ P) as A.
    set (st1 := {| TP_LADDERS := TP_LADDERS st; tp_file := tp_file st;
                   last_signal := Some parsed |}) in *.
    assert (K1 : kept_or_saved st st1) by (left; split; reflexivity).
    destruct (cache_ladder_ok cfg st1 parsed Ns A S) as [S2 K2].
    pose proof (kept_or_saved_trans _ _ _ K1 K2) as K12.
    destruct (AUTO_PLACE cfg); [|injection H as <- _; tauto].
    destruct (place_orders_from_signal fuel cfg mt (cache_ladder cfg st1 parsed) parsed)
      as [[[ok st3] c]|] eqn:E; [|discriminate].
    injection H as <- _.
    assert (Nsym : no_bar (symbol parsed) = true).
    { rewrite <- (upper_alnum_fixed _ A). apply no_bar_upper_alnum, A. }
    destruct (place_orders_ok _ _ _ _ _ _ _ _ Ns Nd Nsym S2 E) as [S3 K3].
    split; [exact S3 | exact (kept_or_saved_trans _ _ _ K12 K3)]. }
  destruct G as [S' [[M F]|Y']]; (split; [exact S'|]); intros f.
  - specialize (Y f). unfold restart in *. rewrite F, M. exact Y.
  - apply save_load_store; [exact S' | exact Y' | reflexivity].
Qed.

End StoreProperties.

(* ------------------------------------------------------------------ *)
(** ** The flexible formats and the handler *)

Section FlexibleProperties.
Import PyStr PyNum Re SignalParser Bot Spec.

Lemma lots_group (g : groups) :
  captures re_lots g -> exists t, group g 1 = Some t /\ lang (Plus digit) t.
Proof.
  intros C. destruct (captured_group _ g 1 C eq_refl) as (t & G & L).
  exists t. split; [exact G|]. group_of L. exact L.
Qed.

Lemma lsize_group (g : groups) :
  captures re_lsize g -> exists t, group g 1 = Some t /\ lang lot_number t.
Proof.
  intros C. destruct (captured_group _ g 1 C eq_refl) as (t & G & L).
  exists t. split; [exact G|]. group_of L. exact L.
Qed.

Lemma dir_entry_groups (g : groups) :
  captures re_dir_entry g ->
  (exists t, group g 1 = Some t /\ lang buy_sell t) /\
  (exists t, group g 2 = Some t /\ lang number t).
Proof.
  intros C. split.
  - destruct (captured_group _ g 1 C eq_refl) as (t & G & L). exists t. split; [exact G|].
    group_of L. exact L.
  - destruct (captured_group _ g 2 C eq_refl) as (t & G & L). exists t. split; [exact G|].
    group_of L. exact L.
Qed.

Lemma flex_sl_group (g : groups) :
  captures re_flex_sl g -> exists t, group g 1 = Some t /\ lang number t.
Proof.
  intros C. destruct (captured_group _ g 1 C eq_refl) as (t & G & L).
  exists t. split; [exact G|]. group_of L. exact L.
Qed.

Lemma flex_tp_group (g : groups) :
  captures re_flex_tp g -> exists t, group g 1 = Some t /\ lang number t.
Proof.
  intros C. destruct (captured_group _ g 1 C eq_refl) as (t & G & L).
  exists t. split; [exact G|]. group_of L. exact L.
Qed.

Lemma dir_group (g : groups) :
  captures re_dir g -> exists t, group g 1 = Some t /\ lang buy_sell t.
Proof.
  intros C. destruct (captured_group _ g 1 C eq_refl) as (t & G & L).
  exists t. split; [exact G|]. group_of L. exact L.
Qed.

Lemma pairs_groups (g : groups) :
  captures re_pairs g ->
  (exists t, group g 1 = Some t /\ lang number t) /\
  (exists t, group g 2 = Some t /\ lang (Alt (ilit "open") number) t).
Proof.
  intros C. split.
  - destruct (captured_group _ g 1 C eq_refl) as (t & G & L). exists t. split; [exact G|].
    group_of L. exact L.
  - destruct (captured_group _ g 2 C eq_refl) as (t & G & L). exists t. split; [exact G|].
    group_of L. exact L.
Qed.

(** The side read from a matched direction word. *)
Lemma side_of_word (t : string) :
  lang buy_sell t ->
  (lower t = "buy"%string /\ side_of t = "BUY"%string)
  \/ (lower t = "sell"%string /\ side_of t = "SELL"%string).
Proof.
  intros [L|L]; apply ilit_lower in L; unfold side_of; rewrite lower_strip, L;
    [left | right]; split; reflexivity.
Qed.

(** X19.  [_parse_flexible_format1] returns nothing
    exactly when the lots, lot size, direction-with-entry or stop pattern
    finds no match in the stripped text.  (Again [int] is taken without
    the digit limit of CPython.) *)
Theorem flexible_format1_rejects (text : string) :
  let t := strip text in
  _parse_flexible_format1 text = None <->
  search re_lots t = None \/ search re_lsize t = None
  \/ search re_dir_entry t = None \/ search re_flex_sl t = None.
Proof.
  intros t. unfold _parse_flexible_format1. fold t. split.
  - destruct (search re_lots t) as [g1|] eqn:E1; [|tauto].
    destruct (search re_lsize t) as [g2|] eqn:E2; [|tauto].
    destruct (search re_dir_entry t) as [g3|] eqn:E3; [|tauto].
    destruct (search re_flex_sl t) as [g4|] eqn:E4; [|tauto].
    intros H. exfalso.
    destruct (lots_group g1 (search_sound _ _ _ E1)) as (t1 & G1 & L1).
    destruct (lsize_group g2 (search_sound _ _ _ E2)) as (t2 & G2 & L2).
    destruct (dir_entry_groups g3 (search_sound _ _ _ E3)) as [_ (t3 & G3 & L3)].
    destruct (flex_sl_group g4 (search_sound _ _ _ E4)) as (t4 & G4 & L4).
    rewrite (grp_of _ _ _ G1), (grp_of _ _ _ G2), (grp_of _ _ _ G3), (grp_of _ _ _ G4) in H.
    apply plus_chr_all in L1. destruct L1 as [A1 N1].
    destruct (py_int_digits t1 A1 N1) as (n & F1 & _).
    destruct (lot_number_float t2 L2) as (q2 & F2 & _).
    destruct (number_float t3 L3) as (q3 & F3 & _).
    destruct (number_float t4 L4) as (q4 & F4 & _).
    rewrite F1, F2, F3, F4 in H. discriminate H.
  - intros [H|[H|[H|H]]]; rewrite H.
    + reflexivity.
    + destruct (search re_lots t); reflexivity.
    + destruct (search re_lots t); [destruct (search re_lsize t)|]; reflexivity.
    + destruct (search re_lots t); [destruct (search re_lsize t);
        [destruct (search re_dir_entry t)|]|]; reflexivity.
Qed.

(** X20.  A Flexible-A order has direction BUY or
    SELL and lots, lot size, entry and stop that are not negative; it has
    a take profit, never a negative one, only when the text holds no open
    take profit, and has none only when the text holds an open one or no
    numeric one. *)
Theorem flexible_format1_fields (text : string) (f : Flex1) :
  _parse_flexible_format1 text = Some f ->
  (f1_direction f = "BUY" \/ f1_direction f = "SELL")%string /\
  (0 <= f1_lots f)%Z /\ 0 <= f1_lot_size f /\ 0 <= f1_entry f /\ 0 <= f1_sl f /\
  (forall tp, f1_tp f = Some tp -> 0 <= tp /\ search re_tp_open (strip text) = None) /\
  (f1_tp f = None ->
   search re_tp_open (strip text) <> None \/ search re_flex_tp (strip text) = None).
Proof.
  unfold _parse_flexible_format1. set (t := strip text).
  destruct (search re_lots t) as [g1|] eqn:E1; [|discriminate].
  destruct (search re_lsize t) as [g2|] eqn:E2; [|discriminate].
  destruct (search re_dir_entry t) as [g3|] eqn:E3; [|discriminate].
  destruct (search re_flex_sl t) as [g4|] eqn:E4; [|discriminate].
  destruct (lots_group g1 (search_sound _ _ _ E1)) as (t1 & G1 & L1).
  destruct (lsize_group g2 (search_sound _ _ _ E2)) as (t2 & G2 & L2).
  destruct (dir_entry_groups g3 (search_sound _ _ _ E3)) as [(t5 & G5 & L5) (t3 & G3 & L3)].
  destruct (flex_sl_group g4 (search_sound _ _ _ E4)) as (t4 & G4 & L4).
  rewrite (grp_of _ _ _ G1), (grp_of _ _ _ G2), (grp_of _ _ _ G3), (grp_of _ _ _ G4),
    (grp_of _ _ _ G5).
  apply plus_chr_all in L1. destruct L1 as [A1 N1].
  destruct (py_int_digits t1 A1 N1) as (n & -> & P1).
  destruct (lot_number_float t2 L2) as (q2 & -> & P2).
  destruct (number_float t3 L3) as (q3 & -> & P3).
  destruct (number_float t4 L4) as (q4 & -> & P4).
  intros [= <-]. cbn [f1_direction f1_lots f1_lot_size f1_entry f1_sl f1_tp].
  split; [destruct (side_of_word t5 L5) as [[_ ->]|[_ ->]]; tauto|].
  repeat (split; [assumption|]).
  destruct (search re_tp_open t) as [go|] eqn:Eo.
  - split; [discriminate|]. intros _. left. discriminate.
  - destruct (search re_flex_tp t) as [g6|] eqn:E6.
    + destruct (flex_tp_group g6 (search_sound _ _ _ E6)) as (t6 & G6 & L6).
      rewrite (grp_of _ _ _ G6). destruct (number_float t6 L6) as (q6 & -> & P6).
      split; [intros tp [= <-]; tauto | discriminate].
    + split; [discriminate|]. intros _. right. reflexivity.
Qed.

Lemma flex_entry_converts (g : groups) :
  captures re_pairs g -> exists e, flex_entry g = Some e.
Proof.
  intros C. destruct (pairs_groups g C) as [(t1 & G1 & L1) (t2 & G2 & L2)].
  unfold flex_entry. rewrite (grp_of _ _ _ G1), (grp_of _ _ _ G2).
  destruct (number_float t1 L1) as (q1 & -> & _).
  destruct (String.eqb (lower (strip t2)) "open") eqn:O; [eexists; reflexivity|].
  destruct L2 as [L2|L2].
  - apply ilit_lower in L2. rewrite lower_strip, L2 in O. discriminate O.
  - destruct (number_float t2 L2) as (q2 & -> & _). eexists. reflexivity.
Qed.

Lemma flex_entries_convert (pairs : list groups) :
  (forall g, In g pairs -> captures re_pairs g) ->
  exists es, flex_entries pairs = Some es /\ List.length es = List.length pairs.
Proof.
  induction pairs as [|g pairs IH]; intros H.
  - exists []. split; reflexivity.
  - destruct (flex_entry_converts g) as (e & E); [apply H; left; reflexivity|].
    destruct IH as (es & E' & Len); [intros g' I; apply H; right; exact I|].
    exists (e :: es). cbn [flex_entries]. rewrite E, E'. split; [reflexivity|].
    simpl. rewrite Len. reflexivity.
Qed.

(** X21.  [_parse_flexible_format2] returns nothing
    exactly when the lot size, direction or stop pattern finds no match
    or the text holds no arrow pair; otherwise it holds one entry for each
    arrow pair and its direction is BUY or SELL. *)
Theorem flexible_format2_rejects (text : string) :
  let t := strip text in
  (_parse_flexible_format2 text = None <->
   search re_lsize t = None \/ search re_dir t = None \/ search re_flex_sl t = None
   \/ findall re_pairs t = []) /\
  (forall f, _parse_flexible_format2 text = Some f ->
             List.length (f2_entries f) = List.length (findall re_pairs t) /\
             (f2_direction f = "BUY" \/ f2_direction f = "SELL")%string).
Proof.
  intros t. unfold _parse_flexible_format2. fold t.
  destruct (search re_lsize t) as [g1|] eqn:E1;
    [|split; [split; [tauto | reflexivity] | discriminate]].
  destruct (search re_dir t) as [g2|] eqn:E2;
    [|split; [split; [tauto | reflexivity] | discriminate]].
  destruct (search re_flex_sl t) as [g3|] eqn:E3;
    [|split; [split; [tauto | reflexivity] | discriminate]].
  destruct (lsize_group g1 (search_sound _ _ _ E1)) as (t1 & G1 & L1).
  destruct (dir_group g2 (search_sound _ _ _ E2)) as (t2 & G2 & L2).
  destruct (flex_sl_group g3 (search_sound _ _ _ E3)) as (t3 & G3 & L3).
  rewrite (grp_of _ _ _ G1), (grp_of _ _ _ G2), (grp_of _ _ _ G3).
  destruct (lot_number_float t1 L1) as (q1 & -> & _).
  destruct (number_float t3 L3) as (q3 & -> & _).
  destruct (flex_entries_convert (findall re_pairs t)) as (es & E & Len);
    [intros g; apply findall_sound|].
  destruct (findall re_pairs t) as [|g pairs] eqn:Fp.
  - split; [split; [tauto | reflexivity] | discriminate].
  - rewrite E. split.
    + split; [discriminate|]. intros [H|[H|[H|H]]]; discriminate H.
    + intros f [= <-]. cbn [f2_entries f2_direction]. split; [exact Len|].
      destruct (side_of_word t2 L2) as [[_ ->]|[_ ->]]; tauto.
Qed.

End FlexibleProperties.

Section HandlerProperties.
Import PyStr PyNum SignalParser Bot Spec.


End HandlerProperties.

(* ------------------------------------------------------------------ *)
(** ** Flexible orders, the fixed lot and the dashboard *)

Section MoreProperties.
Import PyStr PyNum SignalParser Bot Spec.

Lemma concat_repeat_one {A : Type} (x : A) (n : nat) :
  List.concat (repeat [x] n) = repeat x n.
Proof. induction n as [|n IH]; simpl; [|rewrite IH]; reflexivity. Qed.

(** X23.  When the symbol the default resolves to is
    known, a Flexible-A message sends the same pending request [lots]
    times, on that symbol, after the calls of the resolver. *)
Theorem flexible_format1_orders (cfg : Config) (mt : Terminal) (f : Flex1) :
  let sym := fst (resolve_symbol cfg mt (SYMBOL_DEFAULT cfg)) in
  symbol_info mt sym <> None ->
  exists req,
    place_flex1 cfg mt f
    = snd (resolve_symbol cfg mt (SYMBOL_DEFAULT cfg))
      ++ repeat (OrderSend req) (Z.to_nat (f1_lots f)) /\
    req = Pending sym (adjust_lot_for_symbol mt sym (f1_lot_size f))
            (if String.eqb (f1_direction f) "BUY"
             then ORDER_TYPE_BUY_LIMIT else ORDER_TYPE_SELL_LIMIT)
            (round_price mt sym (f1_entry f)) (round_price mt sym (f1_sl f))
            (match f1_tp f with Some t => round_price mt sym t | None => 0 end)
            (SLIPPAGE cfg) (MAGIC cfg) ("ForeAi-" ++ f1_direction f)%string.
Proof.
  intros sym K. unfold place_flex1. subst sym.
  destruct (resolve_symbol cfg mt (SYMBOL_DEFAULT cfg)) as [s c0]. cbn [fst snd] in *.
  unfold place_pending_limit. destruct (symbol_info mt s); [|congruence].
  cbn [snd]. rewrite concat_repeat_one. eexists. split; [reflexivity|].
  destruct (f1_tp f); reflexivity.
Qed.

(** X24.  After [set_fixed_lot] the fixed lot is absent
    or the positive value given; the raw lot of the planner is the lot of
    the signal when positive, else that fixed lot, else the fallback. *)
Theorem fixed_lot_precedence (cfg : Config) (value : option Q) (sig : ParsedSignal) :
  (USER_FIXED_LOT (set_fixed_lot cfg value) = None
   \/ exists v, USER_FIXED_LOT (set_fixed_lot cfg value) = Some v /\ 0 < v
                /\ value = Some v) /\
  vol_each_raw (set_fixed_lot cfg value) sig
  = if Qlt_bool 0 (lot_size sig) then lot_size sig
    else match USER_FIXED_LOT (set_fixed_lot cfg value) with
         | Some v => v
         | None => LOT_FALLBACK cfg
         end.
Proof.
  unfold vol_each_raw, set_fixed_lot. cbn [USER_FIXED_LOT LOT_FALLBACK].
  destruct value as [v|]; [|split; [left; reflexivity | reflexivity]].
  destruct (Qlt_bool 0 v) eqn:P.
  - split; [right; exists v; repeat split; apply Qlt_bool_true, P|].
    rewrite P. reflexivity.
  - split; [left; reflexivity | reflexivity].
Qed.

(** X25.  When no pending order of the account
    passes the ownership test, the cancel button of the dashboard removes
    every pending order of the account. *)
Theorem dashboard_cancel_escalates (cfg : Config) (mt : Terminal) :
  (forall o, In o (orders mt) -> ours_order cfg o = false) ->
  Dashboard._cancel_pending_orders cfg mt
  = map (fun o => OrderSend (Remove (o_ticket o))) (orders mt).
Proof.
  intros F. unfold Dashboard._cancel_pending_orders, cancel_all_pending, to_cancel.
  cbn [orders_get].
  assert (E : filter (ours_order cfg) (orders mt) = []).
  { induction (orders mt) as [|o l IH]; [reflexivity|]. simpl.
    rewrite (F o) by (left; reflexivity). apply IH. intros x I. apply F. right. exact I. }
  destruct (orders mt) as [|o l] eqn:O; [reflexivity|].
  rewrite E. cbn [map count_done filter List.length Nat.eqb app snd].
  rewrite map_map. reflexivity.
Qed.

(** X26.  When the removal of an order that passes the
    ownership test is accepted, the cancel button of the dashboard sends
    removals for such orders only. *)
Theorem dashboard_cancel_own (cfg : Config) (mt : Terminal) (c : Call) :
  (exists o, In o (orders mt) /\ ours_order cfg o = true
             /\ order_send mt (Remove (o_ticket o)) = true) ->
  In c (Dashboard._cancel_pending_orders cfg mt) ->
  exists o, In o (orders mt) /\ ours_order cfg o = true
            /\ c = OrderSend (Remove (o_ticket o)).
Proof.
  intros (o & I & O & A). unfold Dashboard._cancel_pending_orders, cancel_all_pending.
  set (reqs := map (fun o => Remove (o_ticket o)) (to_cancel cfg mt None false)).
  assert (T : to_cancel cfg mt None false = filter (ours_order cfg) (orders mt)).
  { unfold to_cancel. cbn [orders_get]. destruct (orders mt); reflexivity. }
  assert (N : count_done mt reqs <> 0%nat).
  { unfold count_done.
    assert (J : In (Remove (o_ticket o)) (filter (order_send mt) reqs)).
    { apply filter_In. split; [|exact A]. unfold reqs. rewrite T.
      apply (in_map (fun x => Remove (o_ticket x))). apply filter_In. tauto. }
    destruct (filter (order_send mt) reqs); [destruct J | discriminate]. }
  apply Nat.eqb_neq in N. rewrite N. intros H. apply in_map_iff in H.
  destruct H as (r & <- & H). unfold reqs in H. apply in_map_iff in H.
  destruct H as (o' & <- & H). rewrite T in H. apply filter_In in H.
  exists o'. tauto.
Qed.

End MoreProperties.

(* ------------------------------------------------------------------ *)
(** ** The loader, the cancel command, the resolvers and Flexible-B orders *)

Section LoaderProperties.
Import PyStr PyNum SignalParser Bot Spec Json.

Lemma split_once_head (s a b : string) :
  split_once bar s = [a; b] -> no_bar a = true.
Proof.
  revert a. induction s as [|c s IH]; intros a; cbn [split_once]; [discriminate|].
  destruct (Ascii.eqb_spec c bar) as [->|N].
  - intros [= <- <-]. reflexivity.
  - destruct (split_once bar s) as [|x [|y [|z r]]] eqn:E; try discriminate.
    intros [= <- <-]. cbn [no_bar]. rewrite (IH x eq_refl).
    destruct (Ascii.eqb_spec c "|"); [contradiction | reflexivity].
Qed.

Lemma load_entry_ok (f : string -> option Q) (d : ladders) (kv : string * json) :
  store_ok d -> store_ok (load_entry f d kv).
Proof.
  intros S. unfold load_entry. fold bar.
  destruct (split_once bar (fst kv)) as [|a [|b [|c r]]] eqn:E; try exact S.
  destruct (iter_json (snd kv)) as [xs|]; [|exact S].
  destruct (floats_of f xs) as [vals|]; [|exact S].
  destruct (nonempty_list vals) eqn:N; [|exact S].
  apply store_ok_set; [exact S | apply (split_once_head _ _ _ E) |].
  apply nonempty_list_true, N.
Qed.

(** X27.  Whatever the ladder file holds,
    [_load_tp_ladders] keeps the ladder map a dictionary of non-empty
    ladders whose instruments hold no bar. *)
Theorem load_keeps_store (f : string -> option Q) (st : State) :
  store_ok (TP_LADDERS st) -> store_ok (TP_LADDERS (_load_tp_ladders f st)).
Proof.
  intros S. unfold _load_tp_ladders.
  destruct (tp_file st) as [| |j]; try exact S.
  destruct (truthy j); [|exact S]. destruct j; try exact S.
  cbn [TP_LADDERS]. revert S. generalize (TP_LADDERS st).
  induction (Dict.of_items String.eqb l) as [|kv items IH]; intros d S; [exact S|].
  cbn [fold_left]. apply IH, load_entry_ok, S.
Qed.

End LoaderProperties.

Section CommandProperties.
Import PyStr PyNum SignalParser Bot Spec.

(** X28.  The command /cancel with a symbol that the
    strict resolver finds and that has no pending order sends, after the
    calls of the resolver, a removal for every pending order of the
    account, on whatever symbol. *)
Theorem cancel_command_widens (cfg : Config) (mt : Terminal) (tok rs : string)
    (c : list Call) :
  _arg_symbol_or_none [tok] = Some (upper (strip tok)) ->
  resolve_symbol_strict cfg mt (upper (strip tok)) = (Some rs, c) ->
  orders_get mt (Some rs) = [] ->
  handle_command cfg mt "/cancel" [tok]
  = Some (c ++ map (fun o => OrderSend (Remove (o_ticket o))) (orders mt)).
Proof.
  intros A R E.
  cbn [handle_command String.eqb Ascii.eqb Bool.eqb orb].
  rewrite A. unfold on_symbol. rewrite R. f_equal. f_equal.
  unfold cancel_calls, cancel_all_pending, to_cancel. cbn [snd]. rewrite E.
  cbn [orders_get]. rewrite map_map. destruct (orders mt); reflexivity.
Qed.

(** X29.  Each resolver asks the terminal to show at most
    one symbol: the one it returns, and only when the terminal knows it
    and has it hidden; the strict resolver asks nothing when it finds
    none. *)
Theorem resolvers_select (cfg : Config) (mt : Terminal) (s : string) :
  let shown (r : string) (c : list Call) :=
    c = [] \/ (c = [SymbolSelect r] /\
               exists info, symbol_info mt r = Some info /\ visible info = false) in
  shown (fst (resolve_symbol cfg mt s)) (snd (resolve_symbol cfg mt s)) /\
  match resolve_symbol_strict cfg mt s with
  | (Some r, c) => shown r c
  | (None, c) => c = []
  end.
Proof.
  intros shown.
  assert (G : forall cand r c, first_known mt cand = Some (r, c) -> shown r c).
  { induction cand as [|x cand IH]; simpl; [discriminate|]. intros r c.
    destruct (symbol_info mt x) as [info|] eqn:I; [|apply IH].
    intros [= <- <-]. destruct (visible info) eqn:V; [left; reflexivity|].
    right. split; [reflexivity|]. exists info. split; assumption. }
  split.
  - unfold resolve_symbol.
    destruct (first_known mt (resolve_candidates cfg s)) as [[r c]|] eqn:E; cbn [fst snd].
    + apply (G _ _ _ E).
    + left. reflexivity.
  - unfold resolve_symbol_strict.
    destruct (nonempty (upper (strip s))); [|reflexivity].
    destruct (first_known mt (strict_candidates cfg (upper (strip s)))) as [[r c]|] eqn:E;
      [apply (G _ _ _ E) | reflexivity].
Qed.

(** X30.  When the symbol the default resolves to is
    known, a Flexible-B message sends one pending request per entry, in
    the order of the entries, on that symbol and with the same volume and
    stop, after the calls of the resolver. *)
Theorem flexible_format2_orders (cfg : Config) (mt : Terminal) (f : Flex2) :
  let sym := fst (resolve_symbol cfg mt (SYMBOL_DEFAULT cfg)) in
  symbol_info mt sym <> None ->
  place_flex2 cfg mt f
  = snd (resolve_symbol cfg mt (SYMBOL_DEFAULT cfg))
    ++ map (fun e =>
              OrderSend
                (Pending sym (adjust_lot_for_symbol mt sym (f2_lot_size f))
                   (if String.eqb (f2_direction f) "BUY"
                    then ORDER_TYPE_BUY_LIMIT else ORDER_TYPE_SELL_LIMIT)
                   (round_price mt sym (fst e)) (round_price mt sym (f2_sl f))
                   (match snd e with Some t => round_price mt sym t | None => 0 end)
                   (SLIPPAGE cfg) (MAGIC cfg) ("ForeAi-" ++ f2_direction f)%string))
           (f2_entries f).
Proof.
  intros sym K. unfold place_flex2. subst sym.
  destruct (resolve_symbol cfg mt (SYMBOL_DEFAULT cfg)) as [s c0]. cbn [fst snd] in *.
  f_equal. induction (f2_entries f) as [|e es IH]; [reflexivity|].
  cbn [flat_map map]. rewrite IH. unfold place_pending_limit at 1.
  destruct (symbol_info mt s); [|congruence]. cbn [snd app].
  destruct (snd e); reflexivity.
Qed.

End CommandProperties.

(* ------------------------------------------------------------------ *)
(** ** The general properties at concrete inputs *)

Section MoreInstances.
Import PyStr PyNum Re SignalParser Bot Spec.

Lemma scenario_text_parses : parse_signal scenario_text = Some scenario_signal.
Proof. vm_compute. reflexivity. Qed.

Lemma scenario_placed :
  place_orders_from_signal 6 default_config xau_terminal empty_state scenario_signal
  = Some (true, scenario_after, scenario_calls).
Proof. vm_compute. reflexivity. Qed.

Lemma scenario_message_handled :
  handle_message 6 default_config xau_terminal empty_state (Some scenario_message)
  = Some (scenario_handled, []).
Proof. vm_compute. reflexivity. Qed.

Lemma parsed_symbol_direction_witness :
  (direction scenario_signal = "BUY" \/ direction scenario_signal = "SELL")%string /\
  symbol scenario_signal <> EmptyString.
Proof.
  destruct (parsed_symbol_direction scenario_text scenario_signal scenario_text_parses)
    as (D & N & _).
  split; [exact D | exact N].
Defined.

Lemma parsed_numbers_witness :
  zone_low fractional_signal <= zone_high fractional_signal /\
  0 <= stop_loss fractional_signal.
Proof.
  destruct (parsed_numbers fractional_text fractional_signal fractional_text_parses)
    as (_ & _ & Z & S & _).
  split; [exact Z | exact S].
Defined.

Lemma parsed_take_profits_witness :
  exists pairs sorted : list (Z * option Q),
    tp_pairs_of (findall _re_tp open_first_text) = Some pairs /\
    Permutation pairs sorted /\
    take_profits open_first_signal = map snd sorted.
Proof.
  destruct (parsed_take_profits open_first_text open_first_signal open_first_text_parses)
    as (pairs & sorted & E & _ & _ & P & _ & T).
  exists pairs, sorted. split; [exact E|]. split; [exact P | exact T].
Defined.

Lemma parsed_signal_first_rung_witness :
  exists rest : list Rung,
    plan (S (rung_count (zone_low scenario_signal) (zone_high scenario_signal)) + 0)
         default_config xau_terminal "XAUUSD" scenario_signal
    = Some ({| r_price := round_price xau_terminal "XAUUSD" (zone_high scenario_signal);
               r_lot := vol_each default_config xau_terminal "XAUUSD" scenario_signal;
               r_tp := Some 3465 |} :: rest).
Proof.
  exact (parsed_signal_first_rung default_config xau_terminal "XAUUSD"%string
           scenario_text scenario_signal 0 scenario_text_parses).
Defined.

Lemma vol_each_positive_witness :
  0 < vol_each default_config xau_terminal "XAUUSD" scenario_signal.
Proof.
  apply (vol_each_positive default_config xau_terminal "XAUUSD"%string scenario_signal).
  reflexivity.
Defined.

Lemma placed_orders_are_ours_witness :
  ours_order default_config branded_order = true.
Proof.
  refine (proj2 (placed_orders_are_ours 6 default_config xau_terminal empty_state
                   scenario_signal true scenario_after scenario_calls scenario_request
                   scenario_placed _) branded_order _).
  - left. reflexivity.
  - right. reflexivity.
Defined.

Lemma place_orders_result_witness :
  exists r : Request,
    In (OrderSend r) scenario_calls /\ order_send xau_terminal r = true.
Proof.
  apply (place_orders_result 6 default_config xau_terminal empty_state scenario_signal
           true scenario_after scenario_calls scenario_placed).
  reflexivity.
Defined.

Lemma unknown_symbol_places_nothing_witness :
  place_orders_from_signal
    (S (rung_count (zone_low scenario_signal) (zone_high scenario_signal)) + 0)
    default_config blank_terminal empty_state scenario_signal
  = Some (false,
          record_ladder empty_state ("XAUUSD", "BUY")%string (ladder_of [3465; 3470]),
          []).
Proof.
  apply (unknown_symbol_places_nothing default_config blank_terminal empty_state
           scenario_signal 0).
  intros s _. reflexivity.
Defined.

Lemma cancel_fallback_widens_witness :
  cancel_all_pending default_config manual_terminal (Some "EURUSD"%string) true
  = cancel_all_pending default_config manual_terminal None true.
Proof.
  apply (cancel_fallback_widens default_config manual_terminal "EURUSD"%string true).
  reflexivity.
Defined.

Lemma cancel_symbol_scope_witness :
  exists o : Order,
    In o (orders manual_terminal) /\ o_symbol o = "XAUUSD"%string /\
    OrderSend (Remove 11) = OrderSend (Remove (o_ticket o)).
Proof.
  destruct (cancel_symbol_scope default_config manual_terminal "XAUUSD"%string true
              (OrderSend (Remove 11))) as (o & I & S & E & _).
  - discriminate.
  - left. reflexivity.
  - exists o. split; [exact I|]. split; [exact S | exact E].
Defined.

Lemma trailing_touches_owned_only_witness :
  exists (p : Position) (sl : Q),
    In p (positions stale_terminal) /\ p_magic p = MAGIC default_config /\
    OrderSend (Sltp 7 "XAUUSD" (173299 # 50) 0 777001)
    = OrderSend (Sltp (p_ticket p) (p_symbol p) sl (p_tp p) (MAGIC default_config)).
Proof.
  destruct (trailing_touches_owned_only default_config stale_terminal stale_state
              (OrderSend (Sltp 7 "XAUUSD" (173299 # 50) 0 777001)))
    as (p & sl & I & M & E & _).
  - vm_compute. left. reflexivity.
  - exists p, sl. split; [exact I|]. split; [exact M | exact E].
Defined.

Lemma trailing_stop_side_witness :
  if String.eqb (position_direction boundary_position) "BUY"
  then 10 < bid {| bid := 20; ask := 20 + (1 # 5) |}
  else ask {| bid := 20; ask := 20 + (1 # 5) |} < 10.
Proof.
  apply (trailing_stop_side default_config boundary_terminal boundary_ladders
           boundary_position {| bid := 20; ask := 20 + (1 # 5) |}
           1 "XAUUSD"%string 10 0 777001).
  - reflexivity.
  - reflexivity.
  - vm_compute. reflexivity.
Defined.

Lemma scenario_after_ok : store_ok (TP_LADDERS scenario_after).
Proof.
  split.
  - constructor; [intros [] | constructor].
  - intros k v [[= <- <-]|[]]. split; [reflexivity | discriminate].
Qed.

Lemma save_load_exact_witness :
  TP_LADDERS (_load_tp_ladders (fun _ => None) (restart (_save_tp_ladders scenario_after)))
  = TP_LADDERS scenario_after.
Proof.
  apply (save_load_exact (fun _ => None) scenario_after). exact scenario_after_ok.
Defined.

Lemma handler_keeps_store_witness :
  store_ok (TP_LADDERS scenario_handled) /\ restorable scenario_handled.
Proof.
  apply (handler_keeps_store 6 default_config xau_terminal empty_state
           (Some scenario_message) scenario_handled []).
  - reflexivity.
  - reflexivity.
  - split; [constructor | intros k v []].
  - intros f. reflexivity.
  - exact scenario_message_handled.
Defined.

Lemma flex1_text_parses : _parse_flexible_format1 flex1_text = Some flex1_order.
Proof. vm_compute. reflexivity. Qed.

Lemma flexible_format1_fields_witness :
  (f1_direction flex1_order = "BUY" \/ f1_direction flex1_order = "SELL")%string /\
  (0 <= f1_lots flex1_order)%Z.
Proof.
  destruct (flexible_format1_fields flex1_text flex1_order flex1_text_parses)
    as (D & L & _).
  split; [exact D | exact L].
Defined.


Lemma flexible_format1_orders_witness :
  exists req : Request,
    place_flex1 default_config xau_terminal flex1_order
    = snd (resolve_symbol default_config xau_terminal (SYMBOL_DEFAULT default_config))
      ++ repeat (OrderSend req) (Z.to_nat (f1_lots flex1_order)).
Proof.
  destruct (flexible_format1_orders default_config xau_terminal flex1_order)
    as (req & E & _).
  - discriminate.
  - exists req. exact E.
Defined.

Lemma dashboard_cancel_escalates_witness :
  Dashboard._cancel_pending_orders default_config manual_terminal
  = [OrderSend (Remove 11)].
Proof.
  apply (dashboard_cancel_escalates default_config manual_terminal).
  intros o [<-|[]]. reflexivity.
Defined.

Lemma dashboard_cancel_own_witness :
  exists o : Order,
    In o (orders branded_terminal) /\ ours_order default_config o = true /\
    OrderSend (Remove 11) = OrderSend (Remove (o_ticket o)).
Proof.
  apply (dashboard_cancel_own default_config branded_terminal (OrderSend (Remove 11))).
  - exists branded_order. repeat split. left. reflexivity.
  - left. reflexivity.
Defined.

Lemma load_keeps_store_witness :
  store_ok (TP_LADDERS (_load_tp_ladders (fun _ => None) restarted_state)).
Proof.
  apply (load_keeps_store (fun _ => None) restarted_state).
  split; [constructor | intros k v []].
Defined.

Lemma cancel_command_widens_witness :
  handle_command default_config manual_terminal "/cancel" ["eurusd"%string]
  = Some ([] ++ map (fun o => OrderSend (Remove (o_ticket o))) (orders manual_terminal)).
Proof.
  apply (cancel_command_widens default_config manual_terminal "eurusd"%string
           "EURUSD"%string []).
  - vm_compute. reflexivity.
  - vm_compute. reflexivity.
  - reflexivity.
Defined.

Lemma flexible_format2_orders_witness :
  List.length (place_flex2 default_config xau_terminal flex2_order) = 2%nat.
Proof.
  rewrite (flexible_format2_orders default_config xau_terminal flex2_order).
  - reflexivity.
  - discriminate.
Defined.

End MoreInstances.
